(** * Bundle updater: download pipeline, channel client, telemetry, coordinator

    A shallow embedding of the updater's main-process classes
    ([DownloadManager], [ChannelManager], [StatsManager], [ElectronUpdater])
    together with the properties stated about them.

    The file is organised as follows.
    - [Path]: the POSIX flavour of the platform's [path] module, as used by
      the download manager ([path.sep] is the forward slash).
    - [Js]: loosely typed JSON values and the conversions the code applies
      to them ([String(x)], [Boolean(x)], [x ?? y], truthiness).
    - [Num]: the double-precision arithmetic of the progress percent.
    - [Model]: the world (file system, store, network log), the effect
      monad and the primitive effects.
    - [Downloader], [Channel], [Stats], [Coordinator]: the classes.
    - [Channels], [Integrity], [Watchdog], [Settings], [AutoUpdate],
      [KeyId]: the remaining methods of these classes (channel list and
      reset, integrity check, app-ready watchdog, setters of the URLs,
      update check, key id).
    - the scenarios used as concrete inputs, then the theorems. *)

From Stdlib Require Import String Ascii List ZArith Lia Bool.
From stdpp Require Import base gmap strings list pretty.
Import ListNotations.
Local Open Scope string_scope.

(* ===================================================================== *)
(** ** The [path] module (POSIX) *)
(* ===================================================================== *)

Module Path.

Definition sep : string := "/".

Definition isSlash (c : ascii) : bool := Ascii.eqb c "/"%char.

(** [s.split('/')] *)
Fixpoint split (s : string) : list string :=
  match s with
  | EmptyString => [EmptyString]
  | String c rest =>
      if isSlash c then EmptyString :: split rest
      else match split rest with
           | seg :: segs => String c seg :: segs
           | [] => [String c EmptyString]
           end
  end.

(** [a.startsWith(b)] *)
Definition startsWith (a b : string) : bool := String.prefix b a.

(** [hay.includes(needle)] *)
Fixpoint includes (hay needle : string) : bool :=
  String.prefix needle hay
  || match hay with
     | EmptyString => false
     | String _ rest => includes rest needle
     end.

(** [path.isAbsolute(p)] *)
Definition isAbsolute (p : string) : bool :=
  match p with
  | String c _ => isSlash c
  | EmptyString => false
  end.

Fixpoint endsWithSep (p : string) : bool :=
  match p with
  | EmptyString => false
  | String c rest =>
      match rest with
      | EmptyString => isSlash c
      | String _ _ => endsWithSep rest
      end
  end.

(** The segment walk of [normalizeString]: empty and [.] segments are
    dropped; [..] removes the last kept segment, unless nothing is kept
    or the last kept segment is itself [..], in which case it is kept
    only when [allowAboveRoot]. [res] holds the kept segments, the most
    recent one first. *)
Fixpoint normalizeString (allowAboveRoot : bool) (segs res : list string)
  : list string :=
  match segs with
  | [] => rev res
  | seg :: rest =>
      if String.eqb seg "" || String.eqb seg "." then
        normalizeString allowAboveRoot rest res
      else if String.eqb seg ".." then
        match res with
        | top :: res' =>
            if String.eqb top ".." then
              normalizeString allowAboveRoot rest
                (if allowAboveRoot then ".." :: res else res)
            else normalizeString allowAboveRoot rest res'
        | [] =>
            normalizeString allowAboveRoot rest
              (if allowAboveRoot then [".."] else [])
        end
      else normalizeString allowAboveRoot rest (seg :: res)
  end.

(** [path.normalize(p)] *)
Definition normalize (p : string) : string :=
  if String.eqb p "" then "."
  else
    let isAbs := isAbsolute p in
    let trailing := endsWithSep p in
    let body := String.concat sep (normalizeString (negb isAbs) (split p) []) in
    if String.eqb body "" then
      if isAbs then "/" else if trailing then "./" else "."
    else
      (if isAbs then "/" else "") +:+ body +:+ (if trailing then "/" else "").

(** [path.join(...args)] *)
Definition join (args : list string) : string :=
  match List.filter (fun a => negb (String.eqb a "")) args with
  | [] => "."
  | parts => normalize (String.concat "/" parts)
  end.

Fixpoint dropWhile {A} (f : A -> bool) (l : list A) : list A :=
  match l with
  | [] => []
  | x :: l' => if f x then dropWhile f l' else l
  end.

(** [path.dirname(p)]: scanning from the end down to index 1, trailing
    separators are skipped, then the base name, and the path is cut at
    the separator found there. *)
Definition dirname (p : string) : string :=
  match list_ascii_of_string p with
  | [] => "."
  | c0 :: tl =>
      let hasRoot := isSlash c0 in
      let r := dropWhile isSlash (rev tl) in
      let r := dropWhile (fun c => negb (isSlash c)) r in
      match r with
      | [] => if hasRoot then "/" else "."
      | _ :: before =>
          if hasRoot && Nat.eqb (length before) 0 then "//"
          else string_of_list_ascii (c0 :: rev before)
      end
  end.

(** [path.resolve(p)] for an absolute path [p]: the normalized path
    without a trailing separator. (A relative path is resolved against
    the working directory, taken here to be the root.) *)
Definition resolve (p : string) : string :=
  "/" +:+ String.concat sep (normalizeString false (split p) []).

(** The segments of two paths after their common leading segments. *)
Fixpoint dropCommon (from to : list string) : list string * list string :=
  match from, to with
  | f :: from', t :: to' =>
      if String.eqb f t then dropCommon from' to' else (from, to)
  | _, _ => (from, to)
  end.

(** [path.relative(from, to)]: both paths are resolved; one [..] for
    each segment of [from] after the common part, then the segments of
    [to] after it. *)
Definition relative (from to : string) : string :=
  let '(up, down) := dropCommon (normalizeString false (split from) [])
                                (normalizeString false (split to) []) in
  String.concat sep (List.map (fun _ => "..") up ++ down).

(** A path names the directory [dir] or something below it. *)
Definition under (dir p : string) : bool :=
  String.eqb p dir || startsWith p (dir +:+ sep).

(** A [..] path segment in the raw form of a name. *)
Definition hasDotDotSegment (p : string) : bool :=
  existsb (String.eqb "..") (split p).

End Path.

(* ===================================================================== *)
(** ** Loosely typed JSON values *)
(* ===================================================================== *)

Module Js.

(** A parsed JSON value. Numbers are restricted to integers, which is all
    the status codes and flags of the channel endpoint need. *)
#[warnings="-register-all"]
Inductive value : Type :=
| VNull
| VBool (b : bool)
| VNum (z : Z)
| VStr (s : string)
| VArr (items : list value)
| VObj (fields : list (string * value)).

(** A parsed response body, [Record<string, unknown>]; a missing key
    reads as [undefined], here [None]. *)
Abbreviation object := (gmap string value).

(** [x ?? d] on a property read: [undefined] and [null] give [d]. *)
Definition nullish (x : option value) (d : value) : value :=
  match x with
  | None | Some VNull => d
  | Some v => v
  end.

(** [x != null] *)
Definition notNull (x : option value) : bool :=
  match x with
  | None | Some VNull => false
  | Some _ => true
  end.

(** [String(v)] *)
Fixpoint toString (v : value) : string :=
  match v with
  | VNull => "null"
  | VBool true => "true"
  | VBool false => "false"
  | VNum z => pretty z
  | VStr s => s
  | VArr items =>
      String.concat ","
        (List.map (fun i => match i with VNull => "" | _ => toString i end) items)
  | VObj _ => "[object Object]"
  end.

(** [Boolean(v)] *)
Definition toBoolean (v : value) : bool :=
  match v with
  | VNull => false
  | VBool b => b
  | VNum z => negb (Z.eqb z 0)
  | VStr s => negb (String.eqb s "")
  | VArr _ | VObj _ => true
  end.

(** A string that may be [null] or [undefined], seen through a truth
    test ([if (s)], [!s], [s && t]): the string when it is there and
    not empty. *)
Definition present (s : option string) : option string :=
  match s with
  | Some s => if String.eqb s "" then None else Some s
  | None => None
  end.


(** [a ?? b] on optional strings. *)
Definition orElse (a b : option string) : option string :=
  match a with
  | Some _ => a
  | None => b
  end.

End Js.

(* ===================================================================== *)
(** ** Numbers *)
(* ===================================================================== *)

Module Num.
Local Open Scope Z_scope.

(** A JavaScript number is a double. A positive double [m * 2^e] is
    kept as the pair [(m, e)], and zero as [(0, 0)]; the significand
    [m] of a rounded result has 53 bits. Subnormal numbers and
    overflow are not modelled: the operands at hand are counts of bytes
    and of files, below [2^53], and their quotients. *)
Definition double : Type := Z * Z.

(** The integer nearest to [num / den], a tie going to the even one. *)
Definition nearestEven (num den : Z) : Z :=
  let q := num / den in
  let r2 := 2 * (num mod den) in
  if r2 <? den then q
  else if den <? r2 then q + 1
  else if Z.even q then q else q + 1.

(** [num / den] times [2^(-e)], as a fraction. *)
Definition scale (num den e : Z) : Z * Z :=
  if 0 <=? e then (num, den * 2 ^ e) else (num * 2 ^ (- e), den).

(** The double nearest to the positive fraction [num / den]: the
    exponent [e] is the one for which [num / den] lies between [2^52]
    and [2^53] times [2^e]. *)
Definition ofRatio (num den : Z) : double :=
  if ((num <=? 0) || (den <=? 0))%bool then (0, 0)
  else
    let e0 := Z.log2 num - Z.log2 den - 52 in
    let '(a, b) := scale num den e0 in
    let e := if a / b <? 2 ^ 52 then e0 - 1 else e0 in
    let '(a, b) := scale num den e in
    (nearestEven a b, e).

(** [a / b] on two integers that are doubles. *)
Definition div (a b : Z) : double := ofRatio a b.

(** [x * k] for an integer [k] that is a double. *)
Definition times (x : double) (k : Z) : double :=
  let '(m, e) := x in
  if 0 <=? e then ofRatio (k * m * 2 ^ e) 1 else ofRatio (k * m) (2 ^ (- e)).

(** [Math.round(x)]: the nearest integer, a half going up; the result
    is exact. *)
Definition round (x : double) : Z :=
  let '(m, e) := x in
  if 0 <=? e then m * 2 ^ e else (2 * m + 2 ^ (- e)) / 2 ^ (- e + 1).

End Num.

(* ===================================================================== *)
(** ** World, environment and effects *)
(* ===================================================================== *)

Module Model.

Abbreviation Bytes := (list Byte.byte).

Inductive BundleStatus : Type :=
| Downloading | Pending | Failed | Success | Deleted.

(** [BundleInfo]; the constructor [Failed] is the status ['error']. *)
Record BundleInfo : Type := mkBundle {
  id : string;
  version : string;
  downloaded : string;
  checksum : string;
  status : BundleStatus
}.

Definition withStatus (s : BundleStatus) (b : BundleInfo) : BundleInfo :=
  mkBundle (id b) (version b) (downloaded b) (checksum b) s.
Definition withChecksum (c : string) (b : BundleInfo) : BundleInfo :=
  mkBundle (id b) (version b) (downloaded b) c (status b).

(** Modelled from the spec: the state held by [StorageManager]
    (storage.ts is not part of the sources at hand). Section 4.A: a
    bundle registry keyed by id, the pointers, the device identity, the
    channel ([None] for the default) and the mutable URLs. *)
Record Store : Type := mkStore {
  bundles : gmap string BundleInfo;
  currentBundleId : option string;
  nextBundleId : option string;
  channel : option string;
  customId : option string;
  deviceId : string;
  savedUpdateUrl : option string;
  savedStatsUrl : option string;
  savedChannelUrl : option string;
  savedAppId : option string
}.

Definition emptyStore : Store :=
  mkStore ∅ None None None None "" None None None None.

(** The system calls that may fail. [OpSave n] is the [n]-th call of
    [save()], counted from 0. *)
Inductive IOOp : Type :=
| OpMkdir (p : string)
| OpWrite (p : string)
| OpUnlink (p : string)
| OpRm (p : string)
| OpSave (n : nat)
| OpLoad
| OpLoadFile (p : string).

(** A thrown value: a JavaScript [Error] with its message, or the
    failure of a system call. *)
Inductive Error : Type :=
| JsError (message : string)
| IoError (op : IOOp).

(** [error.message] *)
Definition errorMessage (e : Error) : string :=
  match e with
  | JsError m => m
  | IoError (OpMkdir p) => "EACCES: mkdir " +:+ p
  | IoError (OpWrite p) => "EACCES: open " +:+ p
  | IoError (OpUnlink p) => "EACCES: unlink " +:+ p
  | IoError (OpRm p) => "EACCES: rm " +:+ p
  | IoError (OpSave _) => "EACCES: storage"
  | IoError OpLoad => "ENOENT: storage"
  | IoError (OpLoadFile p) => "ERR_FILE_NOT_FOUND: " +:+ p
  end.

(** A string between double quotes, as error messages show it. *)
Definition quoted (s : string) : string :=
  String (ascii_of_nat 34) (s +:+ String (ascii_of_nat 34) EmptyString).

(** [STATS_EVENTS] *)
Inductive StatsEvent : Type :=
| DOWNLOAD_COMPLETE | DOWNLOAD_FAILED | UPDATE_SUCCESS | UPDATE_FAILED.

Inductive Method : Type := GET | POST.

(** An HTTP request as it leaves the process. *)
Inductive Request : Type :=
| HttpGet (url : string)
| ChannelRequest (method : Method) (url : string)
                 (action : option string) (chan : option string)
| StatsPost (url : string) (event : StatsEvent).

(** What a [get] of the downloader observes: a response (status code,
    [Location] header, parsed [Content-Length], body chunks), an
    ['error'] event, or a ['timeout'] event. *)
Inductive HttpOutcome : Type :=
| Responded (statusCode : nat) (location : option string)
            (contentLength : nat) (chunks : list Bytes)
| RequestFailed (e : Error)
| TimedOut.

(** What a [fetch] of the channel or stats client observes: a parsed
    body of a 2xx response, a non-2xx status, or a rejection
    (connection error, abort by the timeout controller, bad JSON). *)
Inductive FetchOutcome : Type :=
| FetchOk (body : Js.object)
| FetchStatus (code : nat) (statusText : string)
| FetchRejected (message : string).

(** An entry of an archive: its name and its bytes. An entry whose
    name ends with a slash is a directory; symbolic links and
    permission bits are left out of the model. *)
Record ZipEntry : Type := mkEntry {
  fileName : string;
  content : Bytes
}.

(** [ManifestEntry]: each field is a string or null. *)
Record ManifestEntry : Type := mkManifestEntry {
  file_name : option string;
  download_url : option string;
  file_hash : option string
}.

(** [DownloadOptions] *)
Record DownloadOptions : Type := mkOptions {
  url : string;
  optVersion : string;
  optChecksum : option string;
  sessionKey : option string;
  manifest : option (list ManifestEntry)
}.

(** The [CryptoManager] interface as the download manager uses it
    (crypto.ts is not part of the sources at hand, so its functions are
    taken as given). [decryptBytes] answering [None] is [decryptFile]
    answering [false]. *)
Record Crypto : Type := mkCrypto {
  decryptChecksum : string -> string -> option string;
  verifyChecksum : Bytes -> string -> bool;
  calculateChecksum : Bytes -> string;
  decryptBytes : Bytes -> string -> option Bytes;
  tryDecompressBrotli : Bytes -> Bytes
}.

(** How a call ends: with a value, with a thrown error, or not at all. *)
Inductive Outcome (A : Type) : Type :=
| Done (a : A)
| Throw (e : Error)
| Diverge.
Arguments Done {A} a.
Arguments Throw {A} e.
Arguments Diverge {A}.

(** What the bundle manager can change: the file system, the storage
    manager, and, through the download manager, the network (its
    constructor is given the storage manager, the download manager and
    settings, not the updater, the window or the event emitter). *)
Record Reach : Type := mkReach {
  reachFiles : gmap string Bytes;
  reachDirs : gset string;
  reachStore : Store;
  reachDisk : Store;
  reachSaves : nat;
  reachNet : list Request;
  reachWarnings : nat
}.

(** An asynchronous method of the bundle manager. *)
Definition BundleOp (A : Type) : Type := Reach -> Outcome A * Reach.

(** Everything outside the classes at hand. The servers answer as a
    function of the number of requests issued so far, so that they may
    change their mind over time. [urlOk] and [protocolOf] stand for the
    URL parser of the platform ([new URL(u)] succeeds; the [protocol]
    of the parsed URL). [gateOpen], [onAppStart] and [resetKillState]
    stand for the delay manager, [keyIdOf] for the key id derived from
    the public key. [currentBundlePath], [builtinBundle],
    [markBundleSuccessful] and [applyPendingUpdate] stand for the
    bundle manager (bundle-manager.ts is not part of the sources at
    hand): the two methods are taken as given, as any operation on the
    file system, the storage manager and the network that completes,
    throws, or does not settle. *)
Record Env : Type := mkEnv {
  bundlesRoot : string;
  now : string;
  generateBundleId : string;
  crypto : Crypto;
  unzip : Bytes -> option (list ZipEntry);
  ioFails : IOOp -> bool;
  urlOk : string -> bool;
  protocolOf : string -> string;
  server : nat -> string -> HttpOutcome;
  channelServer : nat -> Request -> FetchOutcome;
  statsServer : nat -> Request -> FetchOutcome;
  gateOpen : Store -> bool;
  onAppStart : Store -> Store;
  resetKillState : Store -> Store;
  currentBundlePath : Store -> string;
  markBundleSuccessful : BundleOp unit;
  applyPendingUpdate : BundleOp bool;
  builtinBundle : BundleInfo;
  newDeviceId : string;
  keyIdOf : string -> option string
}.

Inductive DownloadProgress : Type :=
  mkProgress (percent bytesDownloaded totalBytes : nat).

(** Events sent to the host through the event emitter. *)
Inductive Event : Type :=
| EvDownload (percent : nat) (bundle : BundleInfo)
| EvDownloadFailed (version : string)
| EvDownloadComplete (bundle : BundleInfo)
| EvAppReady (bundle : BundleInfo)
| EvAppReloaded
| EvUpdateFailed (bundle : BundleInfo).

(** A progress callback, given by the events it makes the emitter send. *)
Abbreviation ProgressCallback := (DownloadProgress -> list Event).

(** [Required<ElectronUpdaterConfig>], the fields [initialize] reads. *)
Record Config : Type := mkConfig {
  appReadyTimeoutMs : Z;
  responseTimeout : Z;
  autoUpdate : bool;
  autoDeleteFailed : bool;
  autoDeletePrevious : bool;
  updateUrl : string;
  channelUrl : string;
  statsUrl : string;
  publicKey : string;
  cfgVersion : string;
  appId : string;
  defaultChannel : string;
  persistCustomId : bool;
  persistModifyUrl : bool;
  disableJSLogging : bool;
  debugMenu : bool;
  periodCheckDelay : Z
}.

(** The fields of a [StatsManager]. *)
Record StatsManager : Type := mkStats {
  smStatsUrl : string;
  smAppId : string;
  smDefaultChannel : option string;
  smKeyId : option string;
  smTimeout : Z;
  enabled : bool
}.

(** The fields of a [ChannelManager]. *)
Record ChannelManager : Type := mkChannel {
  cmChannelUrl : string;
  cmAppId : string;
  cmDefaultChannel : option string;
  cmKeyId : option string;
  cmTimeout : Z
}.

(** The components [initialize] constructs. *)
Record Components : Type := mkComponents {
  cryptoKey : option string;
  downloadTimeout : Z;
  channelManager : ChannelManager;
  statsManager : StatsManager;
  debugMenuEnabled : bool
}.

(** The fields of the [ElectronUpdater] instance. *)
Record Updater : Type := mkUpdater {
  config : Config;
  components : option Components;
  initialized : bool;
  appReadyReceived : bool;
  appReadyTimeout : option Z;
  periodCheckInterval : option Z;
  mainWindow : option string;
  builtinPath : string
}.

(** What the host process holds on behalf of the updater: listeners on
    the window and on the application, running interval timers, files
    loaded into the window, console output. *)
Record Host : Type := mkHost {
  windowListeners : list (string * string);
  appListeners : list string;
  intervals : list Z;
  timeouts : list Z;
  loaded : list string;
  logs : list string
}.

Record World : Type := mkWorld {
  files : gmap string Bytes;
  dirs : gset string;
  store : Store;          (* StorageManager, in memory *)
  disk : Store;           (* the storage file as last saved *)
  saves : nat;            (* calls of save() so far *)
  net : list Request;     (* requests issued, most recent first *)
  emitted : list Event;   (* events emitted, most recent first *)
  warnings : nat;         (* console.warn calls *)
  updater : Updater;
  host : Host
}.

Definition setFiles (f : gmap string Bytes -> gmap string Bytes) (w : World) : World :=
  mkWorld (f (files w)) (dirs w) (store w) (disk w) (saves w) (net w)
          (emitted w) (warnings w) (updater w) (host w).
Definition setDirs (f : gset string -> gset string) (w : World) : World :=
  mkWorld (files w) (f (dirs w)) (store w) (disk w) (saves w) (net w)
          (emitted w) (warnings w) (updater w) (host w).
Definition setStore (f : Store -> Store) (w : World) : World :=
  mkWorld (files w) (dirs w) (f (store w)) (disk w) (saves w) (net w)
          (emitted w) (warnings w) (updater w) (host w).
Definition addRequest (r : Request) (w : World) : World :=
  mkWorld (files w) (dirs w) (store w) (disk w) (saves w) (r :: net w)
          (emitted w) (warnings w) (updater w) (host w).
Definition addEvents (es : list Event) (w : World) : World :=
  mkWorld (files w) (dirs w) (store w) (disk w) (saves w) (net w)
          (rev es ++ emitted w) (warnings w) (updater w) (host w).
Definition addWarning (w : World) : World :=
  mkWorld (files w) (dirs w) (store w) (disk w) (saves w) (net w)
          (emitted w) (S (warnings w)) (updater w) (host w).
Definition setUpdater (f : Updater -> Updater) (w : World) : World :=
  mkWorld (files w) (dirs w) (store w) (disk w) (saves w) (net w)
          (emitted w) (warnings w) (f (updater w)) (host w).
Definition setHost (f : Host -> Host) (w : World) : World :=
  mkWorld (files w) (dirs w) (store w) (disk w) (saves w) (net w)
          (emitted w) (warnings w) (updater w) (f (host w)).

(** The world after a call of [save()] that wrote the storage file, and
    after one that failed. *)
Definition committed (w : World) : World :=
  mkWorld (files w) (dirs w) (store w) (store w) (S (saves w)) (net w)
          (emitted w) (warnings w) (updater w) (host w).
Definition attempted (w : World) : World :=
  mkWorld (files w) (dirs w) (store w) (disk w) (S (saves w)) (net w)
          (emitted w) (warnings w) (updater w) (host w).

Definition setBundles (f : gmap string BundleInfo -> gmap string BundleInfo)
  (s : Store) : Store :=
  mkStore (f (bundles s)) (currentBundleId s) (nextBundleId s) (channel s)
          (customId s) (deviceId s) (savedUpdateUrl s) (savedStatsUrl s)
          (savedChannelUrl s) (savedAppId s).
Definition withChannel (c : option string) (s : Store) : Store :=
  mkStore (bundles s) (currentBundleId s) (nextBundleId s) c
          (customId s) (deviceId s) (savedUpdateUrl s) (savedStatsUrl s)
          (savedChannelUrl s) (savedAppId s).
Definition withPointers (cur next : option string) (s : Store) : Store :=
  mkStore (bundles s) cur next (channel s)
          (customId s) (deviceId s) (savedUpdateUrl s) (savedStatsUrl s)
          (savedChannelUrl s) (savedAppId s).

(** *** The effect monad

    A computation runs on a world and finishes with a value, with a
    thrown error, or not at all ([Diverge]: the fuel given to a chain of
    requests ran out before the chain ended). *)
Definition M (A : Type) : Type := World -> Outcome A * World.

Definition ret {A} (a : A) : M A := fun w => (Done a, w).
Definition throw {A} (e : Error) : M A := fun w => (Throw e, w).
Definition diverge {A} : M A := fun w => (Diverge, w).
Definition bind {A B} (m : M A) (k : A -> M B) : M B :=
  fun w =>
    match m w with
    | (Done a, w') => k a w'
    | (Throw e, w') => (Throw e, w')
    | (Diverge, w') => (Diverge, w')
    end.
(** [try { m } catch (e) { h e }] *)
Definition tryCatch {A} (m : M A) (h : Error -> M A) : M A :=
  fun w =>
    match m w with
    | (Throw e, w') => h e w'
    | r => r
    end.
Definition modify (f : World -> World) : M unit := fun w => (Done tt, f w).
Definition gets {A} (f : World -> A) : M A := fun w => (Done (f w), w).
Definition when (b : bool) (m : M unit) : M unit := if b then m else ret tt.

Declare Scope m_scope.
Delimit Scope m_scope with M.
Notation "x <- m ;; k" := (bind m (fun x => k))
  (at level 100, m at next level, right associativity) : m_scope.
Notation "m ;;; k" := (bind m (fun _ => k))
  (at level 100, right associativity) : m_scope.
Local Open Scope m_scope.

(** [await op()] for a method of the bundle manager: it runs on what
    the bundle manager can reach and leaves the events, the updater and
    the host alone. *)
Definition reachOf (w : World) : Reach :=
  mkReach (files w) (dirs w) (store w) (disk w) (saves w) (net w) (warnings w).
Definition withReach (x : Reach) (w : World) : World :=
  mkWorld (reachFiles x) (reachDirs x) (reachStore x) (reachDisk x) (reachSaves x)
          (reachNet x) (emitted w) (reachWarnings x) (updater w) (host w).
Definition call {A} (op : BundleOp A) : M A :=
  fun w => let '(r, x) := op (reachOf w) in (r, withReach x w).

(** [for (const x of xs)] with a loop-carried variable. *)
Fixpoint forEach {A S} (body : S -> A -> M S) (xs : list A) (acc : S) : M S :=
  match xs with
  | [] => ret acc
  | x :: rest => acc' <- body acc x ;; forEach body rest acc'
  end.

Section Effects.
Context (env : Env).

(** A system call that the environment may refuse. *)
Definition io (op : IOOp) : M unit :=
  fun w => if ioFails env op then (Throw (IoError op), w) else (Done tt, w).

(** [fs.promises.mkdir(p, {recursive: true})] *)
Definition mkdir (p : string) : M unit :=
  io (OpMkdir p) ;;; modify (setDirs (fun d => {[p]} ∪ d)).

(** [fs.promises.writeFile(p, data)] *)
Definition writeFile (p : string) (data : Bytes) : M unit :=
  io (OpWrite p) ;;; modify (setFiles (fun f => <[p := data]> f)).

(** [fs.promises.access(p)] *)
Definition access (p : string) : M unit :=
  fun w =>
    if bool_decide (is_Some (files w !! p)) || bool_decide (p ∈ dirs w)
    then (Done tt, w)
    else (Throw (JsError ("ENOENT: " +:+ p)), w).

Definition readFile (p : string) : M Bytes :=
  fun w =>
    match files w !! p with
    | Some data => (Done data, w)
    | None => (Throw (JsError ("ENOENT: " +:+ p)), w)
    end.

(** [fs.promises.unlink(p)] *)
Definition unlink (p : string) : M unit :=
  io (OpUnlink p) ;;;
  _ <- readFile p ;;
  modify (setFiles (fun f => delete p f)).

(** [fs.promises.rm(p, {recursive: true, force: true})] *)
Definition rm (p : string) : M unit :=
  io (OpRm p) ;;;
  modify (fun w =>
    setDirs (fun d => filter (fun q => Path.under p q = false) d)
      (setFiles (fun f => filter (fun kv => Path.under p kv.1 = false) f) w)).

(** Modelled from the spec: [StorageManager.getBundlePath] (storage.ts
    is not part of the sources at hand); section 3 lays a bundle out
    at [<root>/capgo-bundles/<id>]. *)
Definition getBundlePath (bundleId : string) : string :=
  Path.join [bundlesRoot env; bundleId].

(** Modelled from the spec: [setBundle], [deleteBundle] and
    [setChannel] of [StorageManager] change the in-memory store;
    [save] writes it to the storage file, and an I/O error on save is
    surfaced to the caller (section 4.A). *)
Definition setBundle (bundleId : string) (b : BundleInfo) : M unit :=
  modify (setStore (setBundles (fun m => <[bundleId := b]> m))).
Definition deleteBundle (bundleId : string) : M unit :=
  modify (setStore (setBundles (fun m => delete bundleId m))).
Definition storageSetChannel (c : option string) : M unit :=
  modify (setStore (withChannel c)).
Definition save : M unit :=
  fun w =>
    if ioFails env (OpSave (saves w))
    then (Throw (IoError (OpSave (saves w))), attempted w)
    else (Done tt, committed w).

Definition emit (e : Event) : M unit := modify (addEvents [e]).
Definition warn : M unit := modify addWarning.

(** [new URL(u)] throws on a string that is not a URL. *)
Definition newURL (u : string) : M string :=
  if urlOk env u then ret u else throw (JsError "Invalid URL").

(** [await fetch(...)] followed by the test of [response.ok]: the
    request leaves; a rejection and a non-2xx status both end in a
    thrown error. *)
Definition fetch (answer : nat -> Request -> FetchOutcome) (req : Request)
  : M Js.object :=
  fun w =>
    let w' := addRequest req w in
    match answer (length (net w)) req with
    | FetchOk body => (Done body, w')
    | FetchStatus code statusText =>
        (Throw (JsError ("HTTP " +:+ pretty code +:+ ": " +:+ statusText)), w')
    | FetchRejected message => (Throw (JsError message), w')
    end.

End Effects.

End Model.

(* ===================================================================== *)
(** ** The download manager *)
(* ===================================================================== *)

Module Downloader.
Import Model.
Local Open Scope m_scope.

(** [Math.round((done / total) * 100)], in double precision: the
    quotient is rounded to a double, so is its product with 100, and
    [Math.round] takes the nearest integer. ([total] is positive
    wherever the expression is reached; for [total = 0] the value
    given here is 0.) *)
Definition percentOf (done total : nat) : nat :=
  Z.to_nat (Num.round (Num.times (Num.div (Z.of_nat done) (Z.of_nat total)) 100)).
Arguments percentOf : simpl never.

(** [isPathSafe(filePath, allowedDir)] *)
Definition isPathSafe (filePath allowedDir : string) : bool :=
  let normalizedPath := Path.normalize filePath in
  let normalizedAllowedDir := Path.normalize allowedDir in
  if negb (Path.startsWith normalizedPath (normalizedAllowedDir +:+ Path.sep))
     && negb (String.eqb normalizedPath normalizedAllowedDir)
  then false
  else if Path.includes filePath (Path.sep +:+ "..")
          || Path.includes filePath (".." +:+ Path.sep)
  then false
  else true.

(** The [onEntry] callback of [extractZipSecurely]. *)
Definition onEntry (extractPath : string) (entry : ZipEntry) : M unit :=
  let entryPath := Path.join [extractPath; fileName entry] in
  if negb (isPathSafe entryPath extractPath) then
    throw (JsError ("Zip entry has invalid path: " +:+ fileName entry))
  else if Path.isAbsolute (fileName entry) then
    throw (JsError ("Zip entry has absolute path: " +:+ fileName entry))
  else ret tt.

(** *** The archive reader

    [extractZipSecurely] hands the archive to the package [extract-zip],
    which reads it with the reader [yauzl]. Neither is part of the
    sources at hand; what follows is modelled after their behaviour,
    on a file system without symbolic links. *)

Definition backslash : ascii := ascii_of_nat 92.

(** The reader turns the backslashes of an entry name into slashes
    (its option [strictFileNames] is off). *)
Fixpoint decodeFileName (raw : string) : string :=
  match raw with
  | EmptyString => EmptyString
  | String c rest =>
      String (if Ascii.eqb c backslash then "/"%char else c) (decodeFileName rest)
  end.

Definition isLetter (c : ascii) : bool :=
  let n := nat_of_ascii c in
  (Nat.leb 65 n && Nat.leb n 90) || (Nat.leb 97 n && Nat.leb n 122).

(** A drive letter at the start of a name. *)
Definition hasDrive (fileName : string) : bool :=
  match fileName with
  | String c (String d _) => isLetter c && Ascii.eqb d ":"%char
  | _ => false
  end.

(** [validateFileName(fileName)] of the reader: the error message for a
    name it refuses. *)
Definition validateFileName (fileName : string) : option string :=
  if Path.includes fileName (String backslash EmptyString) then
    Some ("invalid characters in fileName: " +:+ fileName)
  else if hasDrive fileName || Path.isAbsolute fileName then
    Some ("absolute path: " +:+ fileName)
  else if Path.hasDotDotSegment fileName then
    Some ("invalid relative path: " +:+ fileName)
  else None.

(** The module that [protocol.get] belongs to is chosen by
    [url.startsWith('https')]; this is the protocol it serves. *)
Definition expectedProtocol (url : string) : string :=
  if Path.startsWith url "https" then "https:" else "http:".

(** The condition of the redirect branch: a status code in [300, 400)
    together with a [Location] header. *)
Definition redirectTarget (o : HttpOutcome) : option string :=
  match o with
  | Responded statusCode location _ _ =>
      if negb (Nat.eqb statusCode 0) && Nat.leb 300 statusCode && Nat.ltb statusCode 400
      then Js.present location
      else None
  | _ => None
  end.

Section WithEnv.
Context (env : Env).

(** The reader's step to the next entry: the name is decoded and
    validated, and a name that is refused ends the walk with an error
    before the entry is handed over. *)
Definition readEntry (raw : ZipEntry) : M ZipEntry :=
  let name := decodeFileName (fileName raw) in
  match validateFileName name with
  | Some message => throw (JsError message)
  | None => ret (mkEntry name (content raw))
  end.

(** [extractEntry(entry)] of the package: the [onEntry] callback runs,
    then the directory of the entry is made and its bytes are
    written. *)
Definition extractEntry (dir : string) (onEntry : ZipEntry -> M unit)
  (entry : ZipEntry) : M unit :=
  onEntry entry ;;;
  let dest := Path.join [dir; fileName entry] in
  let isDir := Path.endsWithSep (fileName entry) in
  let destDir := if isDir then dest else Path.dirname dest in
  mkdir env destDir ;;;
  if isDir then ret tt else writeFile env dest (content entry).

(** The handler of the reader's [entry] event: the entries below
    [__MACOSX/] are passed over; for any other entry the directory it
    goes to is made and must lie in [dir], and then the entry is
    extracted. *)
Definition onZipEntry (dir : string) (onEntry : ZipEntry -> M unit)
  (entry : ZipEntry) : M unit :=
  if Path.startsWith (fileName entry) "__MACOSX/" then ret tt
  else
    let destDir := Path.dirname (Path.join [dir; fileName entry]) in
    mkdir env destDir ;;;
    let relativeDestDir := Path.relative dir destDir in
    if existsb (String.eqb "..") (Path.split relativeDestDir) then
      throw (JsError ("Out of bound path " +:+ quoted destDir
                      +:+ " found while processing file " +:+ fileName entry))
    else extractEntry dir onEntry entry.

(** The walk over the entries, in archive order; the first error ends
    it. *)
Definition extractEntries (dir : string) (onEntry : ZipEntry -> M unit)
  (entries : list ZipEntry) : M unit :=
  forEach (fun _ raw => entry <- readEntry raw ;; onZipEntry dir onEntry entry)
          entries tt.

(** [extractZip(zipPath, { dir, onEntry })]: the directory must be
    absolute; it is made, and its real path (without symbolic links,
    the resolved path) is the one the entries are joined to. *)
Definition extractZip (zipPath dir : string) (onEntry : ZipEntry -> M unit)
  : M unit :=
  if negb (Path.isAbsolute dir) then
    throw (JsError "Target directory is expected to be absolute")
  else
    mkdir env dir ;;;
    let dir := Path.resolve dir in
    data <- readFile zipPath ;;
    match unzip env data with
    | None => throw (JsError "end of central directory record signature not found")
    | Some entries => extractEntries dir onEntry entries
    end.

(** [extractZipSecurely(zipPath, extractPath)] *)
Definition extractZipSecurely (zipPath extractPath : string) : M unit :=
  mkdir env extractPath ;;;
  extractZip zipPath extractPath (onEntry extractPath).

(** [protocol.get(url, ...)] parses [url] with [new URL] and refuses a
    URL whose protocol is not the one of its module; in both cases it
    throws a [TypeError] at once and no request is made. *)
Definition accepts (u : string) : bool :=
  urlOk env u && String.eqb (protocolOf env u) (expectedProtocol u).

Definition getError (u : string) : Error :=
  if urlOk env u then
    JsError ("Protocol " +:+ quoted (protocolOf env u) +:+ " not supported. Expected "
             +:+ quoted (expectedProtocol u))
  else JsError "Invalid URL".

(** Otherwise the request leaves and the server answers. *)
Definition get (u : string) : M HttpOutcome :=
  if accepts u then
    fun w => (Done (server env (length (net w)) u), addRequest (HttpGet u) w)
  else throw (getError u).

Definition report (onProgress : option ProgressCallback) (p : DownloadProgress)
  : M unit :=
  match onProgress with
  | Some callback => modify (addEvents (callback p))
  | None => ret tt
  end.

(** The ['data'] handler of [downloadFile], chunk after chunk. *)
Fixpoint receive (onProgress : option ProgressCallback)
  (totalBytes bytesDownloaded : nat) (chunks : list Bytes) : M unit :=
  match chunks with
  | [] => ret tt
  | chunk :: rest =>
      let bytesDownloaded := bytesDownloaded + length chunk in
      when (Nat.ltb 0 totalBytes)
        (report onProgress
           (mkProgress (percentOf bytesDownloaded totalBytes)
                       bytesDownloaded totalBytes)) ;;;
      receive onProgress totalBytes bytesDownloaded rest
  end.

(** [downloadFile(url, destPath, onProgress)]. The function calls
    itself on a redirect; [fuel] bounds the depth of these calls in
    the model only. *)
Fixpoint downloadFile (fuel : nat) (url destPath : string)
  (onProgress : option ProgressCallback) : M unit :=
  match fuel with
  | 0 => diverge
  | S fuel =>
      response <- get url ;;
      match response with
      | RequestFailed e => throw e
      | TimedOut => throw (JsError "Download timeout")
      | Responded statusCode _ totalBytes chunks =>
          match redirectTarget response with
          | Some location => downloadFile fuel location destPath onProgress
          | None =>
              if negb (Nat.eqb statusCode 200) then
                throw (JsError ("Download failed with status " +:+ pretty statusCode))
              else
                io env (OpWrite destPath) ;;;
                receive onProgress totalBytes 0 chunks ;;;
                modify (setFiles (fun f => <[destPath := concat chunks]> f))
          end
      end
  end.

(** [downloadToBuffer(url)] *)
Fixpoint downloadToBuffer (fuel : nat) (url : string) : M Bytes :=
  match fuel with
  | 0 => diverge
  | S fuel =>
      response <- get url ;;
      match response with
      | RequestFailed e => throw e
      | TimedOut => throw (JsError "Download timeout")
      | Responded statusCode _ _ chunks =>
          match redirectTarget response with
          | Some location => downloadToBuffer fuel location
          | None =>
              if negb (Nat.eqb statusCode 200) then
                throw (JsError ("Download failed with status " +:+ pretty statusCode))
              else ret (concat chunks)
          end
      end
  end.

(** [crypto.verifyFileChecksum(path, expected)] and
    [crypto.calculateFileChecksum(path)] read the file at [path]. *)
Definition verifyFileChecksum (p expected : string) : M bool :=
  data <- readFile p ;; ret (verifyChecksum (crypto env) data expected).
Definition calculateFileChecksum (p : string) : M string :=
  data <- readFile p ;; ret (calculateChecksum (crypto env) data).

(** [crypto.decryptFile(path, sessionKey)] decrypts in place. *)
Definition decryptFile (p key : string) : M bool :=
  data <- readFile p ;;
  match decryptBytes (crypto env) data key with
  | Some plain => modify (setFiles (fun f => <[p := plain]> f)) ;;; ret true
  | None => ret false
  end.

(** [checkFileInCache(filePath, expectedHash)] *)
Definition checkFileInCache (filePath : string) (expectedHash : option string)
  : M bool :=
  tryCatch
    (access filePath ;;;
     match Js.present expectedHash with
     | None => ret true
     | Some expectedHash => verifyFileChecksum filePath expectedHash
     end)
    (fun _ => ret false).

(** The body of the loop of [downloadManifestFiles]; [completed] is the
    loop-carried counter. *)
Definition manifestEntry (fuel total : nat) (destPath : string)
  (onProgress : option ProgressCallback)
  (completed : nat) (entry : ManifestEntry) : M nat :=
  match Js.present (file_name entry), Js.present (download_url entry) with
  | Some name, Some downloadUrl =>
      let filePath := Path.join [destPath; name] in
      if negb (isPathSafe filePath destPath) then
        throw (JsError ("Manifest entry has invalid path: " +:+ name))
      else
        let fileDir := Path.dirname filePath in
        mkdir env fileDir ;;;
        existingFile <- checkFileInCache filePath (file_hash entry) ;;
        if existingFile : bool then
          let completed := S completed in
          report onProgress
            (mkProgress (percentOf completed total) completed total) ;;;
          ret completed
        else
          fileData <- downloadToBuffer fuel downloadUrl ;;
          let fileData := tryDecompressBrotli (crypto env) fileData in
          writeFile env filePath fileData ;;;
          match Js.present (file_hash entry) with
          | Some hash =>
              valid <- verifyFileChecksum filePath hash ;;
              if negb valid then
                throw (JsError ("Hash verification failed for " +:+ name))
              else ret tt
          | None => ret tt
          end ;;;
          let completed := S completed in
          report onProgress
            (mkProgress (percentOf completed total) completed total) ;;;
          ret completed
  | _, _ => ret completed
  end.

(** [downloadManifestFiles(manifest, destPath, sessionKey, onProgress)];
    the value is the final count of completed entries (the source
    returns nothing). *)
Definition downloadManifestFiles (fuel : nat) (manifest : list ManifestEntry)
  (destPath : string) (sessionKey : option string)
  (onProgress : option ProgressCallback) : M nat :=
  let total := length manifest in
  forEach (manifestEntry fuel total destPath onProgress) manifest 0.

(** [let expectedChecksum = options.checksum], then its replacement by
    the decrypted checksum. *)
Definition expectedChecksum (options : DownloadOptions) : option string :=
  match Js.present (optChecksum options), Js.present (sessionKey options) with
  | Some expected, Some key =>
      match Js.present (decryptChecksum (crypto env) expected key) with
      | Some decryptedChecksum => Some decryptedChecksum
      | None => Some expected
      end
  | _, _ => optChecksum options
  end.

(** The progress callback handed down by [downloadBundle]: the percent
    of the inner report, with the bundle record. *)
Definition forward (onProgress : option (nat -> BundleInfo -> list Event))
  (bundleInfo : BundleInfo) : option ProgressCallback :=
  match onProgress with
  | Some callback =>
      Some (fun p => let 'mkProgress percent _ _ := p in callback percent bundleInfo)
  | None => None
  end.

(** The [try] block of [downloadBundle] up to the assignment of
    [bundleInfo.checksum]: download, then checksum verification. *)
Definition fetchAndVerify (fuel : nat) (options : DownloadOptions)
  (onProgress : option (nat -> BundleInfo -> list Event))
  (zipPath : string) (bundleInfo : BundleInfo) : M BundleInfo :=
  downloadFile fuel (url options) zipPath (forward onProgress bundleInfo) ;;;
  match Js.present (expectedChecksum options) with
  | Some expected =>
      valid <- verifyFileChecksum zipPath expected ;;
      if negb valid then throw (JsError "Checksum verification failed")
      else ret (withChecksum expected bundleInfo)
  | None =>
      computed <- calculateFileChecksum zipPath ;;
      ret (withChecksum computed bundleInfo)
  end.

(** The rest of the [try] block: decryption, extraction, the manifest
    pass, and the record marked ['success']. *)
Definition extractAndFinish (fuel : nat) (options : DownloadOptions)
  (onProgress : option (nat -> BundleInfo -> list Event))
  (bundleId bundlePath zipPath : string) (bundleInfo : BundleInfo)
  : M BundleInfo :=
  match Js.present (sessionKey options) with
  | Some key =>
      success <- decryptFile zipPath key ;;
      if negb success then throw (JsError "Failed to decrypt bundle") else ret tt
  | None => ret tt
  end ;;;
  let extractPath := Path.join [bundlePath; "www"] in
  extractZipSecurely zipPath extractPath ;;;
  unlink env zipPath ;;;
  match manifest options with
  | Some entries =>
      if Nat.ltb 0 (length entries) then
        downloadManifestFiles fuel entries extractPath (sessionKey options)
          (forward onProgress bundleInfo) ;;; ret tt
      else ret tt
  | None => ret tt
  end ;;;
  let bundleInfo := withStatus Success bundleInfo in
  setBundle bundleId bundleInfo ;;;
  save env ;;;
  ret bundleInfo.

(** The whole [try] block of [downloadBundle]. *)
Definition tryBlock (fuel : nat) (options : DownloadOptions)
  (onProgress : option (nat -> BundleInfo -> list Event))
  (bundleId bundlePath zipPath : string) (bundleInfo : BundleInfo)
  : M BundleInfo :=
  bundleInfo <- fetchAndVerify fuel options onProgress zipPath bundleInfo ;;
  extractAndFinish fuel options onProgress bundleId bundlePath zipPath bundleInfo.

(** The [catch] block of [downloadBundle]; [bundleInfo] is the record
    as the [try] block left it. *)
Definition catchBlock (bundleId bundlePath : string) (bundleInfo : BundleInfo)
  (error : Error) : M BundleInfo :=
  let bundleInfo := withStatus Failed bundleInfo in
  setBundle bundleId bundleInfo ;;;
  save env ;;;
  tryCatch
    (rm env bundlePath ;;;
     deleteBundle bundleId ;;;
     save env)
    (fun _ => ret tt) ;;;
  throw error.

(** The record [bundleInfo] is created before the [try] block. *)
Definition initialInfo (options : DownloadOptions) : BundleInfo :=
  mkBundle (generateBundleId env) (optVersion options) (now env)
           (default "" (optChecksum options)) Downloading.

(** The statements of [downloadBundle] before the [try] block: the
    bundle directory is created and the record is registered and
    saved. *)
Definition register (options : DownloadOptions) : M unit :=
  let bundleId := generateBundleId env in
  mkdir env (getBundlePath env bundleId) ;;;
  setBundle bundleId (initialInfo options) ;;;
  save env.

(** [downloadBundle(options, onProgress)]. The record [bundleInfo] is
    one object that the [try] block updates in place and the [catch]
    block reads; its checksum is assigned once, at the end of the
    verification, so the block is entered in two steps, each with the
    record as it is then. The [catch] block never completes normally,
    so the second step runs only when the first one did not throw. *)
Definition downloadBundle (fuel : nat) (options : DownloadOptions)
  (onProgress : option (nat -> BundleInfo -> list Event)) : M BundleInfo :=
  let bundleId := generateBundleId env in
  let bundlePath := getBundlePath env bundleId in
  let zipPath := Path.join [bundlePath; "bundle.zip"] in
  let bundleInfo := initialInfo options in
  register options ;;;
  verified <-
    tryCatch (fetchAndVerify fuel options onProgress zipPath bundleInfo)
             (catchBlock bundleId bundlePath bundleInfo) ;;
  tryCatch
    (extractAndFinish fuel options onProgress bundleId bundlePath zipPath verified)
    (catchBlock bundleId bundlePath verified).

End WithEnv.

End Downloader.

(* ===================================================================== *)
(** ** The channel manager *)
(* ===================================================================== *)

Module Channel.
Import Model.
Local Open Scope m_scope.

(** [ChannelRes] *)
Record ChannelRes : Type := mkChannelRes {
  status : string;
  error : option string;
  message : option string
}.

(** [GetChannelRes] *)
Record GetChannelRes : Type := mkGetChannelRes {
  channel : option string;
  allowSet : bool;
  getStatus : string;
  getError : option string;
  getMessage : option string
}.

(** [x != null ? String(x) : undefined] *)
Definition optString (x : option Js.value) : option string :=
  if Js.notNull x then Some (Js.toString (Js.nullish x Js.VNull)) else None.

Section WithEnv.
Context (env : Env).

(** [makeRequest(method, body)]. The info payload sent along only
    reads the store. *)
Definition makeRequest (cm : ChannelManager) (method : Method)
  (action chan : option string) : M Js.object :=
  url <- newURL env (cmChannelUrl cm) ;;
  fetch (channelServer env) (ChannelRequest method url action chan).

(** [setChannel(options)] *)
Definition setChannel (cm : ChannelManager) (channel : string) : M ChannelRes :=
  tryCatch
    (response <- makeRequest cm POST (Some "set") (Some channel) ;;
     let status := Js.toString (Js.nullish (response !! "status") (Js.VStr "ok")) in
     when (String.eqb status "ok" || String.eqb status "success")
       (storageSetChannel (Some channel) ;;; save env) ;;;
     ret (mkChannelRes status
            (optString (response !! "error"))
            (optString (response !! "message"))))
    (fun error =>
       let message := errorMessage error in
       ret (mkChannelRes "error" (Some message) None)).

(** [getChannel()] *)
Definition getChannel (cm : ChannelManager) : M GetChannelRes :=
  tryCatch
    (response <- makeRequest cm GET None None ;;
     stored <- gets (fun w => Model.channel (store w)) ;;
     ret (mkGetChannelRes
            (if Js.notNull (response !! "channel")
             then optString (response !! "channel")
             else Js.orElse stored (cmDefaultChannel cm))
            (if Js.notNull (response !! "allow_set")
             then Js.toBoolean (Js.nullish (response !! "allow_set") Js.VNull)
             else true)
            (Js.toString (Js.nullish (response !! "status") (Js.VStr "ok")))
            (optString (response !! "error"))
            (optString (response !! "message"))))
    (fun _ =>
       stored <- gets (fun w => Model.channel (store w)) ;;
       ret (mkGetChannelRes (Js.orElse stored (cmDefaultChannel cm))
                            true "ok" None None)).

End WithEnv.

End Channel.

(* ===================================================================== *)
(** ** The stats manager *)
(* ===================================================================== *)

Module Stats.
Import Model.
Local Open Scope m_scope.

(** [StatsPayload] *)
Record StatsPayload : Type := mkPayload {
  event : StatsEvent;
  version : option string;
  oldVersion : option string;
  bundleId : option string;
  message : option string
}.

(** The constructor: telemetry is disabled when the URL is empty. *)
Definition new (statsUrl appId : string) (defaultChannel keyId : option string)
  (timeout : Z) : StatsManager :=
  mkStats statsUrl appId defaultChannel keyId timeout
          (Nat.ltb 0 (String.length statsUrl)).

(** [setStatsUrl(url)] *)
Definition setStatsUrl (url : string) (sm : StatsManager) : StatsManager :=
  mkStats url (smAppId sm) (smDefaultChannel sm) (smKeyId sm) (smTimeout sm)
          (Nat.ltb 0 (String.length url)).

Section WithEnv.
Context (env : Env).

(** [makeRequest(payload)]. The info payload sent along only reads the
    store. *)
Definition makeRequest (sm : StatsManager) (payload : StatsPayload) : M unit :=
  url <- newURL env (smStatsUrl sm) ;;
  _ <- fetch (statsServer env) (StatsPost url (event payload)) ;;
  ret tt.

(** [sendEvent(payload)] *)
Definition sendEvent (sm : StatsManager) (payload : StatsPayload) : M unit :=
  if negb (enabled sm) then ret tt
  else tryCatch (makeRequest sm payload) (fun _ => warn).

Definition sendDownloadComplete (sm : StatsManager) (version bundleId : string)
  : M unit :=
  sendEvent sm (mkPayload DOWNLOAD_COMPLETE (Some version) None (Some bundleId) None).

Definition sendDownloadFailed (sm : StatsManager) (version message : string)
  : M unit :=
  sendEvent sm (mkPayload DOWNLOAD_FAILED (Some version) None None (Some message)).

Definition sendUpdateSuccess (sm : StatsManager) (version bundleId : string)
  : M unit :=
  sendEvent sm (mkPayload UPDATE_SUCCESS (Some version) None (Some bundleId) None).

Definition sendUpdateFailed (sm : StatsManager) (version bundleId message : string)
  : M unit :=
  sendEvent sm
    (mkPayload UPDATE_FAILED (Some version) None (Some bundleId) (Some message)).

End WithEnv.

End Stats.

(* ===================================================================== *)
(** ** The coordinator ([ElectronUpdater]) *)
(* ===================================================================== *)

Module Coordinator.
Import Model.
Local Open Scope m_scope.

Definition MIN_PERIOD_CHECK_DELAY : Z := 600.

(** [setInterval(callback, after)] of the platform: a delay that is not
    between 1 and [TIMEOUT_MAX] milliseconds is replaced by 1. *)
Definition TIMEOUT_MAX : Z := 2147483647.
Definition intervalDelay (after : Z) : Z :=
  if Z.leb 1 after && Z.leb after TIMEOUT_MAX then after else 1%Z.

Definition withWindow (window builtin : string) (u : Updater) : Updater :=
  mkUpdater (config u) (components u) (initialized u) (appReadyReceived u)
            (appReadyTimeout u) (periodCheckInterval u) (Some window) builtin.
Definition withConfig (c : Config) (u : Updater) : Updater :=
  mkUpdater c (components u) (initialized u) (appReadyReceived u)
            (appReadyTimeout u) (periodCheckInterval u) (mainWindow u) (builtinPath u).
Definition withComponents (c : Components) (u : Updater) : Updater :=
  mkUpdater (config u) (Some c) (initialized u) (appReadyReceived u)
            (appReadyTimeout u) (periodCheckInterval u) (mainWindow u) (builtinPath u).
Definition withInitialized (u : Updater) : Updater :=
  mkUpdater (config u) (components u) true (appReadyReceived u)
            (appReadyTimeout u) (periodCheckInterval u) (mainWindow u) (builtinPath u).
Definition withAppReady (received : bool) (timer : option Z) (u : Updater) : Updater :=
  mkUpdater (config u) (components u) (initialized u) received
            timer (periodCheckInterval u) (mainWindow u) (builtinPath u).
Definition withInterval (timer : option Z) (u : Updater) : Updater :=
  mkUpdater (config u) (components u) (initialized u) (appReadyReceived u)
            (appReadyTimeout u) timer (mainWindow u) (builtinPath u).

Definition addWindowListeners (ls : list (string * string)) (h : Host) : Host :=
  mkHost (windowListeners h ++ ls) (appListeners h) (intervals h) (timeouts h)
         (loaded h) (logs h).
Definition addAppListener (l : string) (h : Host) : Host :=
  mkHost (windowListeners h) (appListeners h ++ [l]) (intervals h) (timeouts h)
         (loaded h) (logs h).
Definition setIntervals (f : list Z -> list Z) (h : Host) : Host :=
  mkHost (windowListeners h) (appListeners h) (f (intervals h)) (timeouts h)
         (loaded h) (logs h).
Definition setTimeouts (f : list Z -> list Z) (h : Host) : Host :=
  mkHost (windowListeners h) (appListeners h) (intervals h) (f (timeouts h))
         (loaded h) (logs h).
Definition addLoaded (p : string) (h : Host) : Host :=
  mkHost (windowListeners h) (appListeners h) (intervals h) (timeouts h)
         (loaded h ++ [p]) (logs h).
Definition addLog (l : string) (h : Host) : Host :=
  mkHost (windowListeners h) (appListeners h) (intervals h) (timeouts h)
         (loaded h) (logs h ++ [l]).

(** Remove one occurrence of a timer. *)
Fixpoint clearTimer (t : Z) (ts : list Z) : list Z :=
  match ts with
  | [] => []
  | t' :: rest => if Z.eqb t t' then rest else t' :: clearTimer t rest
  end.

(** The overlay of the persisted URLs and app id on the configuration. *)
Definition overlay (s : Store) (c : Config) : Config :=
  mkConfig (appReadyTimeoutMs c) (responseTimeout c) (autoUpdate c)
    (autoDeleteFailed c) (autoDeletePrevious c)
    (default (updateUrl c) (Js.present (savedUpdateUrl s)))
    (default (channelUrl c) (Js.present (savedChannelUrl s)))
    (default (statsUrl c) (savedStatsUrl s))
    (publicKey c) (cfgVersion c)
    (default (appId c) (Js.present (savedAppId s)))
    (defaultChannel c) (persistCustomId c) (persistModifyUrl c)
    (disableJSLogging c) (debugMenu c) (periodCheckDelay c).

Section WithEnv.
Context (env : Env).

(** Modelled from the spec: [StorageManager.initialize] and
    [getDeviceId] (storage.ts is not part of the sources at hand).
    Section 4.A: the storage file is loaded on initialize, and an I/O
    error on load gives an empty in-memory store; the device id is
    generated on its first read. *)
Definition storageInitialize : M unit :=
  modify (fun w =>
    setStore (fun _ => if ioFails env OpLoad then emptyStore else disk w) w).
Definition getDeviceId : M string :=
  s <- gets store ;;
  if String.eqb (deviceId s) "" then
    modify (setStore (fun s =>
      mkStore (bundles s) (currentBundleId s) (nextBundleId s) (channel s)
              (customId s) (newDeviceId env) (savedUpdateUrl s) (savedStatsUrl s)
              (savedChannelUrl s) (savedAppId s))) ;;;
    ret (newDeviceId env)
  else ret (deviceId s).

(** Modelled from the spec: [BundleManager.getNextBundle] and [current]
    (bundle-manager.ts is not part of the sources at hand). Section
    4.D: the bundle at [nextBundleId] or null; the bundle at
    [currentBundleId], else the builtin descriptor. *)
Definition getNextBundle (s : Store) : option BundleInfo :=
  match nextBundleId s with
  | Some next => bundles s !! next
  | None => None
  end.
Definition current (s : Store) : BundleInfo :=
  match currentBundleId s with
  | Some cur => default (builtinBundle env) (bundles s !! cur)
  | None => builtinBundle env
  end.

(** [this.mainWindow.loadFile(path)] *)
Definition loadFile (p : string) : M unit :=
  io env (OpLoadFile p) ;;; modify (setHost (addLoaded p)).

(** [reload()]. The watchdog is armed; its firing is not part of this
    call. *)
Definition reload : M unit :=
  u <- gets updater ;;
  match mainWindow u with
  | None => ret tt
  | Some _ =>
      bundlePath <- gets (fun w => currentBundlePath env (store w)) ;;
      let delay := appReadyTimeoutMs (config u) in
      modify (setUpdater (withAppReady false (Some delay))) ;;;
      modify (setHost (setTimeouts (fun ts => (ts ++ [delay])%list))) ;;;
      emit EvAppReloaded ;;;
      loadFile bundlePath
  end.

(** [setupWindowListeners()] *)
Definition setupWindowListeners : M unit :=
  u <- gets updater ;;
  match mainWindow u with
  | None => ret tt
  | Some window =>
      modify (setHost (addWindowListeners [(window, "blur"); (window, "focus")]))
  end.

(** [checkAndApplyPendingUpdate()] *)
Definition checkAndApplyPendingUpdate : M unit :=
  nextBundle <- gets (fun w => getNextBundle (store w)) ;;
  match nextBundle with
  | None => ret tt
  | Some _ =>
      satisfied <- gets (fun w => gateOpen env (store w)) ;;
      if satisfied : bool then
        applied <- call (applyPendingUpdate env) ;;
        if applied : bool then
          modify (setStore (resetKillState env)) ;;;
          save env ;;;
          emit EvAppReloaded ;;;
          reload
        else ret tt
      else ret tt
  end.

(** [startPeriodicChecks()] *)
Definition startPeriodicChecks : M unit :=
  u <- gets updater ;;
  match periodCheckInterval u with
  | Some timer => modify (setHost (setIntervals (clearTimer timer)))
  | None => ret tt
  end ;;;
  let c := config u in
  when (Z.leb MIN_PERIOD_CHECK_DELAY (periodCheckDelay c) && autoUpdate c)
    (let timer := intervalDelay (periodCheckDelay c * 1000) in
     modify (setHost (setIntervals (fun ts => (ts ++ [timer])%list))) ;;;
     modify (setUpdater (withInterval (Some timer)))).

(** The construction of the components, in the order of [initialize]. *)
Definition buildComponents : M unit :=
  c <- gets (fun w => config (updater w)) ;;
  let publicKey := Js.present (Some (Model.publicKey c)) in
  let keyId := match publicKey with Some k => keyIdOf env k | None => None end in
  let timeout := (responseTimeout c * 1000)%Z in
  modify (setStore (onAppStart env)) ;;;
  channelDevice <- getDeviceId ;;
  let channelManager :=
    mkChannel (channelUrl c) (appId c) (Js.present (Some (defaultChannel c)))
              keyId timeout in
  statsDevice <- getDeviceId ;;
  let statsManager :=
    Stats.new (statsUrl c) (appId c) (Js.present (Some (defaultChannel c)))
              keyId timeout in
  modify (setUpdater (withComponents
    (mkComponents publicKey timeout channelManager statsManager (debugMenu c)))).

(** [initialize(mainWindow, builtinPath)] *)
Definition initialize (window builtin : string) : M unit :=
  u <- gets updater ;;
  if initialized u then ret tt
  else
    modify (setUpdater (withWindow window builtin)) ;;;
    storageInitialize ;;;
    when (persistModifyUrl (config u))
      (modify (fun w => setUpdater (withConfig (overlay (store w) (config u))) w)) ;;;
    buildComponents ;;;
    setupWindowListeners ;;;
    checkAndApplyPendingUpdate ;;;
    startPeriodicChecks ;;;
    modify (setHost (addAppListener "before-quit")) ;;;
    modify (setUpdater withInitialized) ;;;
    c <- gets (fun w => config (updater w)) ;;
    when (negb (disableJSLogging c))
      (modify (setHost (addLog "[ElectronUpdater] Initialized"))).

Definition typeError {A} : M A :=
  throw (JsError "Cannot read properties of undefined").

(** [download(options)], with the components at hand. *)
Definition downloadWith (c : Components) (fuel : nat) (options : DownloadOptions)
  : M BundleInfo :=
  tryCatch
    (bundle <- Downloader.downloadBundle env fuel options
                 (Some (fun percent bundle => [EvDownload percent bundle])) ;;
     Stats.sendDownloadComplete env (statsManager c)
       (optVersion options) (id bundle) ;;;
     ret bundle)
    (fun error =>
       let message := errorMessage error in
       Stats.sendDownloadFailed env (statsManager c)
         (optVersion options) message ;;;
       emit (EvDownloadFailed (optVersion options)) ;;;
       throw error).

(** [download(options)]; the components are undefined before
    [initialize]. *)
Definition download (fuel : nat) (options : DownloadOptions) : M BundleInfo :=
  u <- gets updater ;;
  match components u with
  | None => typeError
  | Some c => downloadWith c fuel options
  end.

(** [notifyAppReady()] *)
Definition notifyAppReady : M BundleInfo :=
  u <- gets updater ;;
  match appReadyTimeout u with
  | Some timer => modify (setHost (setTimeouts (clearTimer timer)))
  | None => ret tt
  end ;;;
  modify (setUpdater (withAppReady true None)) ;;;
  match components u with
  | None => typeError
  | Some c =>
      call (markBundleSuccessful env) ;;;
      bundle <- gets (fun w => current (store w)) ;;
      Stats.sendUpdateSuccess env (statsManager c) (version bundle) (id bundle) ;;;
      emit (EvAppReady bundle) ;;;
      ret bundle
  end.

End WithEnv.

End Coordinator.

(* ===================================================================== *)
(** ** The channel manager: unset, list, effective channel *)
(* ===================================================================== *)

Module Channels.
Import Model.
Local Open Scope m_scope.

(** [ChannelInfo] *)
Record ChannelInfo : Type := mkChannelInfo {
  id : string;
  name : string;
  public : bool;
  allow_self_set : bool
}.

(** The value of a key in a parsed JSON object; of two members with the
    same key the later one counts. *)
Fixpoint member (key : string) (fields : list (string * Js.value))
  : option Js.value :=
  match fields with
  | [] => None
  | (k, v) :: rest =>
      match member key rest with
      | Some later => Some later
      | None => if String.eqb k key then Some v else None
      end
  end.

(** [ch.key] for one of the keys read by [listChannels]: reading a
    property of [null] throws a [TypeError]; booleans, numbers, strings
    and arrays have none of these keys. *)
Definition property (ch : Js.value) (key : string) : M (option Js.value) :=
  match ch with
  | Js.VNull => throw (JsError "Cannot read properties of null")
  | Js.VObj fields => ret (member key fields)
  | _ => ret None
  end.

(** [Boolean(x)] on a property read. *)
Definition truthyValue (x : option Js.value) : bool :=
  match x with
  | Some v => Js.toBoolean v
  | None => false
  end.

(** [a ?? b] on property reads. *)
Definition firstDefined (a b : option Js.value) : option Js.value :=
  if Js.notNull a then a else b.

(** The callback of [rawChannels.map]. *)
Definition channelInfo (ch : Js.value) : M ChannelInfo :=
  chId <- property ch "id" ;;
  chName <- property ch "name" ;;
  chPublic <- property ch "public" ;;
  allowSelfSet <- property ch "allow_self_set" ;;
  allowSet <- property ch "allow_set" ;;
  ret (mkChannelInfo
         (Js.toString (Js.nullish chId (Js.VStr "")))
         (Js.toString (Js.nullish chName (Js.VStr "")))
         (truthyValue chPublic)
         (Js.toBoolean
            (Js.nullish (firstDefined allowSelfSet allowSet) (Js.VBool true)))).

(** [xs.map(f)] for a callback with effects. *)
Fixpoint mapM {A B} (f : A -> M B) (xs : list A) : M (list B) :=
  match xs with
  | [] => ret []
  | x :: rest => y <- f x ;; ys <- mapM f rest ;; ret (y :: ys)
  end.

(** [Array.isArray(response.channels) ? response.channels : []] *)
Definition rawChannels (response : Js.object) : list Js.value :=
  match response !! "channels" with
  | Some (Js.VArr items) => items
  | _ => []
  end.

Section WithEnv.
Context (env : Env).

(** [unsetChannel(options)] *)
Definition unsetChannel (cm : ChannelManager) : M unit :=
  tryCatch
    (_ <- Channel.makeRequest env cm POST (Some "unset") None ;; ret tt)
    (fun _ => ret tt) ;;;
  storageSetChannel None ;;;
  save env.

(** [listChannels()] *)
Definition listChannels (cm : ChannelManager) : M (list ChannelInfo) :=
  tryCatch
    (response <- Channel.makeRequest env cm GET (Some "list") None ;;
     mapM channelInfo (rawChannels response))
    (fun _ => ret []).

(** [getEffectiveChannel()] *)
Definition getEffectiveChannel (cm : ChannelManager) : M (option string) :=
  gets (fun w => Js.orElse (channel (store w)) (cmDefaultChannel cm)).

End WithEnv.

End Channels.

(* ===================================================================== *)
(** ** The download manager: the integrity check *)
(* ===================================================================== *)

Module Integrity.
Import Model.
Local Open Scope m_scope.

Section WithEnv.
Context (env : Env).

(** [verifyBundleIntegrity(bundleId)] *)
Definition verifyBundleIntegrity (bundleId : string) : M bool :=
  let bundlePath := getBundlePath env bundleId in
  let wwwPath := Path.join [bundlePath; "www"] in
  tryCatch
    (access wwwPath ;;;
     let indexPath := Path.join [wwwPath; "index.html"] in
     access indexPath ;;;
     ret true)
    (fun _ => ret false).

End WithEnv.

End Integrity.

(* ===================================================================== *)
(** ** The coordinator: the app-ready watchdog *)
(* ===================================================================== *)

Module Watchdog.
Import Model.
Local Open Scope m_scope.

Section WithEnv.
Context (env : Env).

(** The callback that [reload] hands to [setTimeout], run when the
    timer fires. [this.current()] goes through the bundle manager, which
    is undefined before [initialize]. The last call,
    [this.mainWindow?.loadFile(newPath)], is not awaited: a failure of
    the load is a rejected promise that nobody handles, and the
    callback completes all the same. *)
Definition onAppReadyTimeout : M unit :=
  u <- gets updater ;;
  if negb (appReadyReceived u) then
    when (negb (disableJSLogging (config u))) warn ;;;
    match components u with
    | None => Coordinator.typeError
    | Some c =>
        bundle <- gets (fun w => Coordinator.current env (store w)) ;;
        Stats.sendUpdateFailed env (statsManager c) (version bundle) (id bundle)
          "App ready timeout" ;;;
        emit (EvUpdateFailed bundle) ;;;
        newPath <- gets (fun w => currentBundlePath env (store w)) ;;
        match mainWindow u with
        | Some _ => tryCatch (Coordinator.loadFile env newPath) (fun _ => ret tt)
        | None => ret tt
        end
    end
  else ret tt.

End WithEnv.

End Watchdog.

(* ===================================================================== *)
(** ** The coordinator: the setters of the URLs and of the app id *)
(* ===================================================================== *)

Module Settings.
Import Model.
Local Open Scope m_scope.

(** The two switches of the configuration that guard the setters. *)
Record Permissions : Type := mkPermissions {
  allowModifyUrl : bool;
  allowModifyAppId : bool
}.

(** [this.config.updateUrl = url] and its siblings. *)
Definition withUpdateUrl (url : string) (c : Config) : Config :=
  mkConfig (appReadyTimeoutMs c) (responseTimeout c) (autoUpdate c)
    (autoDeleteFailed c) (autoDeletePrevious c) url (channelUrl c) (statsUrl c)
    (publicKey c) (cfgVersion c) (appId c) (defaultChannel c) (persistCustomId c)
    (persistModifyUrl c) (disableJSLogging c) (debugMenu c) (periodCheckDelay c).
Definition withChannelUrl (url : string) (c : Config) : Config :=
  mkConfig (appReadyTimeoutMs c) (responseTimeout c) (autoUpdate c)
    (autoDeleteFailed c) (autoDeletePrevious c) (updateUrl c) url (statsUrl c)
    (publicKey c) (cfgVersion c) (appId c) (defaultChannel c) (persistCustomId c)
    (persistModifyUrl c) (disableJSLogging c) (debugMenu c) (periodCheckDelay c).
Definition withStatsUrl (url : string) (c : Config) : Config :=
  mkConfig (appReadyTimeoutMs c) (responseTimeout c) (autoUpdate c)
    (autoDeleteFailed c) (autoDeletePrevious c) (updateUrl c) (channelUrl c) url
    (publicKey c) (cfgVersion c) (appId c) (defaultChannel c) (persistCustomId c)
    (persistModifyUrl c) (disableJSLogging c) (debugMenu c) (periodCheckDelay c).
Definition withAppId (a : string) (c : Config) : Config :=
  mkConfig (appReadyTimeoutMs c) (responseTimeout c) (autoUpdate c)
    (autoDeleteFailed c) (autoDeletePrevious c) (updateUrl c) (channelUrl c)
    (statsUrl c) (publicKey c) (cfgVersion c) a (defaultChannel c)
    (persistCustomId c) (persistModifyUrl c) (disableJSLogging c) (debugMenu c)
    (periodCheckDelay c).

(** [ChannelManager.setChannelUrl], [ChannelManager.setAppId] and
    [StatsManager.setAppId]. *)
Definition cmSetChannelUrl (url : string) (cm : ChannelManager) : ChannelManager :=
  mkChannel url (cmAppId cm) (cmDefaultChannel cm) (cmKeyId cm) (cmTimeout cm).
Definition cmSetAppId (a : string) (cm : ChannelManager) : ChannelManager :=
  mkChannel (cmChannelUrl cm) a (cmDefaultChannel cm) (cmKeyId cm) (cmTimeout cm).
Definition smSetAppId (a : string) (sm : StatsManager) : StatsManager :=
  mkStats (smStatsUrl sm) a (smDefaultChannel sm) (smKeyId sm) (smTimeout sm)
          (enabled sm).

Definition withChannelManager (cm : ChannelManager) (c : Components) : Components :=
  mkComponents (cryptoKey c) (downloadTimeout c) cm (statsManager c)
               (debugMenuEnabled c).
Definition withStatsManager (sm : StatsManager) (c : Components) : Components :=
  mkComponents (cryptoKey c) (downloadTimeout c) (channelManager c) sm
               (debugMenuEnabled c).

(** Modelled from the spec: the setters of the mutable URLs and of the
    app id of [StorageManager] (storage.ts is not part of the sources
    at hand). Section 4.A lists [getUpdateUrl/setUpdateUrl], and the
    same for [statsUrl], [channelUrl] and [appId], on the store in
    memory. *)
Definition saveUpdateUrl (url : string) (s : Store) : Store :=
  mkStore (bundles s) (currentBundleId s) (nextBundleId s) (channel s)
          (customId s) (deviceId s) (Some url) (savedStatsUrl s)
          (savedChannelUrl s) (savedAppId s).
Definition saveStatsUrl (url : string) (s : Store) : Store :=
  mkStore (bundles s) (currentBundleId s) (nextBundleId s) (channel s)
          (customId s) (deviceId s) (savedUpdateUrl s) (Some url)
          (savedChannelUrl s) (savedAppId s).
Definition saveChannelUrl (url : string) (s : Store) : Store :=
  mkStore (bundles s) (currentBundleId s) (nextBundleId s) (channel s)
          (customId s) (deviceId s) (savedUpdateUrl s) (savedStatsUrl s)
          (Some url) (savedAppId s).
Definition saveAppId (a : string) (s : Store) : Store :=
  mkStore (bundles s) (currentBundleId s) (nextBundleId s) (channel s)
          (customId s) (deviceId s) (savedUpdateUrl s) (savedStatsUrl s)
          (savedChannelUrl s) (Some a).

Definition setConfig (f : Config -> Config) : M unit :=
  modify (setUpdater (fun u => Coordinator.withConfig (f (config u)) u)).

Section WithEnv.
Context (env : Env) (perm : Permissions).

(** The storage manager and the other components are created by
    [initialize], the storage first and nothing that can fail in
    between: [this.storage] is undefined exactly as long as the
    components are, and a call on it then throws a [TypeError]. *)
Definition persist (f : Store -> Store) : M unit :=
  u <- gets updater ;;
  when (persistModifyUrl (config u))
    (match components u with
     | None => Coordinator.typeError
     | Some _ => modify (setStore f) ;;; save env
     end).

(** [setUpdateUrl(options)] *)
Definition setUpdateUrl (url : string) : M unit :=
  if negb (allowModifyUrl perm) then
    throw (JsError "URL modification not allowed")
  else
    setConfig (withUpdateUrl url) ;;;
    persist (saveUpdateUrl url).

(** [setStatsUrl(options)] *)
Definition setStatsUrl (url : string) : M unit :=
  if negb (allowModifyUrl perm) then
    throw (JsError "URL modification not allowed")
  else
    setConfig (withStatsUrl url) ;;;
    u <- gets updater ;;
    match components u with
    | None => Coordinator.typeError
    | Some c =>
        modify (setUpdater (Coordinator.withComponents
                  (withStatsManager (Stats.setStatsUrl url (statsManager c)) c))) ;;;
        persist (saveStatsUrl url)
    end.

(** [setChannelUrl(options)] *)
Definition setChannelUrl (url : string) : M unit :=
  if negb (allowModifyUrl perm) then
    throw (JsError "URL modification not allowed")
  else
    setConfig (withChannelUrl url) ;;;
    u <- gets updater ;;
    match components u with
    | None => Coordinator.typeError
    | Some c =>
        modify (setUpdater (Coordinator.withComponents
                  (withChannelManager (cmSetChannelUrl url (channelManager c)) c))) ;;;
        persist (saveChannelUrl url)
    end.

(** [setAppId(options)] *)
Definition setAppId (a : string) : M unit :=
  if negb (allowModifyAppId perm) then
    throw (JsError "App ID modification not allowed")
  else
    setConfig (withAppId a) ;;;
    u <- gets updater ;;
    match components u with
    | None => Coordinator.typeError
    | Some c =>
        modify (setUpdater (Coordinator.withComponents
                  (withStatsManager (smSetAppId a (statsManager c))
                     (withChannelManager (cmSetAppId a (channelManager c)) c)))) ;;;
        persist (saveAppId a)
    end.

(** [getAppId()] *)
Definition getAppId : M string := gets (fun w => appId (config (updater w))).

End WithEnv.

End Settings.

(* ===================================================================== *)
(** ** The coordinator: the update check *)
(* ===================================================================== *)

Module AutoUpdate.
Import Model.
Local Open Scope m_scope.

(** [LatestVersion], the fields that the coordinator reads. *)
Record LatestVersion : Type := mkLatest {
  lvVersion : string;
  lvUrl : option string;
  lvChecksum : option string;
  lvSessionKey : option string;
  lvManifest : option (list ManifestEntry);
  lvBreaking : option bool;
  lvError : option string
}.

(** The events of the update check: [noNeedUpdate], [updateAvailable],
    [breakingAvailable] and [majorAvailable]. *)
Inductive Notice : Type :=
| NoNeedUpdate (bundle : BundleInfo)
| UpdateAvailable (bundle : BundleInfo)
| BreakingAvailable (version : string)
| MajorAvailable (version : string).

(** The values of [config.directUpdate]. *)
Inductive DirectUpdate : Type :=
| DirectFalse | DirectTrue | DirectAlways | DirectAtInstall | DirectOnLaunch.

(** What the update check calls outside the classes at hand: the
    delivery of its events to the listeners, the POST request of
    [getLatest] up to the parsed body (it throws on a rejected [fetch]
    and on a status that is not 2xx), and [next] and [set] of the bundle
    manager. Each one is a computation on the world; nothing is assumed
    about them. *)
Record Ports : Type := mkPorts {
  notify : Notice -> M unit;
  post : string -> M LatestVersion;
  bundleNext : string -> M BundleInfo;
  bundleSet : string -> M unit
}.

(** [shouldDirectUpdate()] *)
Definition shouldDirectUpdate (directUpdate : DirectUpdate) : bool :=
  match directUpdate with
  | DirectTrue | DirectAlways => true
  | _ => false
  end.

Section WithEnv.
Context (env : Env) (ports : Ports) (directUpdate : DirectUpdate).

(** [this.current()]: the bundle manager is undefined before
    [initialize]. *)
Definition currentBundle : M BundleInfo :=
  u <- gets updater ;;
  match components u with
  | None => Coordinator.typeError
  | Some _ => gets (fun w => Coordinator.current env (store w))
  end.

(** [getLatest(options)]. The URL is parsed before the [try] block; the
    payload reads the store, and the first read of the device id
    creates it. *)
Definition getLatest (channel : option string) : M LatestVersion :=
  current <- currentBundle ;;
  u <- gets updater ;;
  channel <- match channel, components u with
             | Some c, _ => ret (Some c)
             | None, Some c => Channels.getEffectiveChannel (channelManager c)
             | None, None => Coordinator.typeError
             end ;;
  url <- newURL env (updateUrl (config u)) ;;
  deviceId <- Coordinator.getDeviceId env ;;
  tryCatch
    (post ports url)
    (fun error =>
       ret (mkLatest "" None None None None None (Some (errorMessage error)))).

(** [set(options)] of the updater: the bundle manager's [set], then
    [reload]. *)
Definition set (bundleId : string) : M unit :=
  bundleSet ports bundleId ;;;
  Coordinator.reload env.

(** [checkForUpdates()]. [fuel] bounds the depth of the redirects of
    the download, in the model only. *)
Definition checkForUpdates (fuel : nat) : M unit :=
  u <- gets updater ;;
  if negb (autoUpdate (config u)) then ret tt
  else
    tryCatch
      (latest <- getLatest None ;;
       if bool_decide (lvError latest = Some "no_new_version_available") then
         current <- currentBundle ;;
         notify ports (NoNeedUpdate current)
       else
         match Js.present (lvUrl latest), Js.present (Some (lvVersion latest)) with
         | Some url, Some version =>
             notify ports
               (UpdateAvailable
                  (mkBundle "" version "" (default "" (lvChecksum latest)) Pending)) ;;;
             if default false (lvBreaking latest) then
               notify ports (BreakingAvailable version) ;;;
               notify ports (MajorAvailable version)
             else
               bundle <- Coordinator.download env fuel
                           (mkOptions url version (lvChecksum latest)
                                      (lvSessionKey latest) (lvManifest latest)) ;;
               emit (EvDownloadComplete bundle) ;;;
               if shouldDirectUpdate directUpdate then set (id bundle)
               else (_ <- bundleNext ports (id bundle) ;; ret tt)
         | _, _ => ret tt
         end)
      (fun error =>
         u <- gets updater ;;
         when (negb (disableJSLogging (config u)))
           (modify (setHost (Coordinator.addLog
                      "[ElectronUpdater] Auto-update check failed:")))).

End WithEnv.

End AutoUpdate.

(* ===================================================================== *)
(** ** The coordinator: the key id *)
(* ===================================================================== *)

Module KeyId.

Definition KEY_ID_LENGTH : nat := 20.

(** A string is read as its sequence of code units, all below 256. Of
    these the class [\s] has the tab, the line feed, the vertical tab,
    the form feed, the carriage return, the space and the no-break
    space. *)
Definition isSpace (c : ascii) : bool :=
  let n := nat_of_ascii c in
  Nat.leb 9 n && Nat.leb n 13 || Nat.eqb n 32 || Nat.eqb n 160.

Definition isDash (c : ascii) : bool := Ascii.eqb c "-"%char.

(** The length of the longest prefix without a dash: what [[^-]+]
    takes, being greedy. *)
Fixpoint run (s : string) : nat :=
  match s with
  | EmptyString => 0
  | String c rest => if isDash c then 0 else S (run rest)
  end.

(** [s.slice(n)] and [s.slice(0, n)] *)
Fixpoint drop (n : nat) (s : string) : string :=
  match n, s with
  | S k, String _ rest => drop k rest
  | _, _ => s
  end.
Fixpoint take (n : nat) (s : string) : string :=
  match n, s with
  | S k, String c rest => String c (take k rest)
  | _, _ => EmptyString
  end.

(** The length of the match of [marker[^-]+-----] at the start of [s],
    if there is one. After the longest run without a dash the five
    dashes must follow; a shorter run is followed by a character that
    is not a dash, so that there is nothing to backtrack to. *)
Definition armorAt (marker s : string) : option nat :=
  if String.prefix marker s then
    let rest := drop (String.length marker) s in
    let n := run rest in
    if Nat.ltb 0 n && String.prefix "-----" (drop n rest)
    then Some (String.length marker + n + 5)
    else None
  else None.

(** [s.replace(/marker[^-]+-----/g, '')]: the string is scanned from
    the left, a match is dropped and the scan goes on behind it.
    [skip] counts the code units of a match that are still to drop. *)
Fixpoint stripFrom (marker : string) (skip : nat) (s : string) : string :=
  match s with
  | EmptyString => EmptyString
  | String c rest =>
      match skip with
      | S k => stripFrom marker k rest
      | 0 =>
          match armorAt marker s with
          | Some n => stripFrom marker (n - 1) rest
          | None => String c (stripFrom marker 0 rest)
          end
      end
  end.
Definition stripArmor (marker s : string) : string := stripFrom marker 0 s.

(** [s.replace(/\s+/g, '')] *)
Fixpoint removeSpaces (s : string) : string :=
  match s with
  | EmptyString => EmptyString
  | String c rest =>
      if isSpace c then removeSpaces rest else String c (removeSpaces rest)
  end.

(** [generateKeyId(publicKey)] *)
Definition generateKeyId (publicKey : option string) : option string :=
  match Js.present publicKey with
  | None => None
  | Some key =>
      let cleaned :=
        removeSpaces (stripArmor "-----END " (stripArmor "-----BEGIN " key)) in
      if Nat.eqb (String.length cleaned) 0 then None
      else Some (take KEY_ID_LENGTH cleaned)
  end.

End KeyId.

(* ===================================================================== *)
(** ** Vocabulary of the properties *)
(* ===================================================================== *)

Module Props.
Import Model.

(** A path segment that names a file or a directory. *)
Definition plain (seg : string) : Prop := seg <> ".." /\ seg <> "." /\ seg <> "".

(** The normalized path [p] is the directory [dir] or lies below it. *)
Definition inside (dir p : string) : bool :=
  Path.startsWith (Path.normalize p) (Path.normalize dir +:+ Path.sep)
  || String.eqb (Path.normalize p) (Path.normalize dir).


(** A segment without a separator in it. *)
Fixpoint noSlash (s : string) : bool :=
  match s with
  | EmptyString => true
  | String c rest => negb (Path.isSlash c) && noSlash rest
  end.

(** The segments that a normalization keeps, [..] apart. *)
Definition kept (seg : string) : bool :=
  negb (String.eqb seg "" || String.eqb seg ".").

(** [dir] is the absolute path of the plain segments [segs], of which
    there is at least one. *)
Definition rooted (dir : string) (segs : list string) : Prop :=
  dir = "/" +:+ String.concat "/" segs
  /\ segs <> []
  /\ Forall plain segs
  /\ Forall (fun seg => noSlash seg = true) segs.


(** The URL that the chain of redirects starting with a request for
    [url], sent when [t] requests have been issued, has reached after
    [k] redirects, if it gets that far: every URL before it has been
    accepted by [get] and answered with a redirect. *)
Fixpoint hop (env : Env) (k t : nat) (url : string) : option string :=
  match k with
  | 0 => Some url
  | S k =>
      if Downloader.accepts env url then
        match Downloader.redirectTarget (server env t url) with
        | Some location => hop env k (S t) location
        | None => None
        end
      else None
  end.


(** The chain breaks after [n] redirects: the [Location] reached then
    is not a URL that [get] accepts. *)
Definition breaks (env : Env) (t : nat) (url : string) (n : nat) : Prop :=
  exists last,
    hop env n t url = Some last /\ Downloader.accepts env last = false.


(** The cache test in the words of the manifest pass: the target file
    exists, and the entry either gives no hash or gives the hash of
    that file. *)
Definition cached (c : Crypto) (w : World) (target : string)
  (hash : option string) : bool :=
  match files w !! target with
  | Some data =>
      match Js.present hash with
      | None => true
      | Some h => verifyChecksum c data h
      end
  | None => false
  end.



(** A [fetch] that does not end in a parsed 2xx response. *)
Definition transportFailure (o : FetchOutcome) : bool :=
  match o with
  | FetchOk _ => false
  | FetchStatus _ _ | FetchRejected _ => true
  end.

(** Two worlds that differ at most in the log of requests and in the
    count of console warnings. *)
Definition sameButTelemetry (w w' : World) : Prop :=
  files w' = files w /\ dirs w' = dirs w /\ store w' = store w
  /\ disk w' = disk w /\ saves w' = saves w /\ emitted w' = emitted w
  /\ updater w' = updater w /\ host w' = host w.

End Props.

(* ===================================================================== *)
(** ** Scenarios: concrete environments and worlds *)
(* ===================================================================== *)

Module Scenario.
Import Model.

Definition bytes (s : string) : Bytes := list_byte_of_string s.

(** A stand-in for the crypto manager: the digest of a file is its
    content read as text, nothing is encrypted, nothing is compressed. *)
Definition plainCrypto : Crypto :=
  mkCrypto (fun _ _ => None)
           (fun data expected => String.eqb (string_of_list_byte data) expected)
           string_of_list_byte
           (fun data _ => Some data)
           (fun data => data).

Definition builtin : BundleInfo := mkBundle "builtin" "1.0.0" "" "" Success.

(** Stand-ins for the two methods of the bundle manager, after section
    4.D of the specification: a pending bundle in status ['success']
    becomes the current one, the pointer to it is cleared and the store
    is saved; there is never a previous bundle to prune. *)
Definition applyNext : BundleOp bool :=
  fun x =>
    match Coordinator.getNextBundle (reachStore x) with
    | Some next =>
        match status next with
        | Success =>
            let s := withPointers (Some (id next)) None (reachStore x) in
            (Done true,
             mkReach (reachFiles x) (reachDirs x) s s (S (reachSaves x))
                     (reachNet x) (reachWarnings x))
        | _ => (Done false, x)
        end
    | None => (Done false, x)
    end.
Definition nothingToPrune : BundleOp unit := fun x => (Done tt, x).

(** The protocol of a URL, for the URLs of the scenarios. *)
Definition schemeOf (u : string) : string :=
  if String.prefix "https:" u then "https:"
  else if String.prefix "http:" u then "http:"
  else "file:".

(** An environment given by its archive reader, its failing system
    calls and its three servers. *)
Definition envOf (unzip : Bytes -> option (list ZipEntry)) (ioFails : IOOp -> bool)
  (server : nat -> string -> HttpOutcome)
  (channelServer statsServer : nat -> Request -> FetchOutcome) : Env :=
  mkEnv "/userData/capgo-bundles" "2024-05-01T10:00:00.000Z" "b1" plainCrypto
        unzip ioFails (fun u => String.prefix "http" u) schemeOf
        server channelServer statsServer
        (fun _ => true) (fun s => s) (fun s => s)
        (fun _ => "/app/www/index.html") nothingToPrune applyNext builtin "device-1"
        (fun _ => None).

Definition noFault : IOOp -> bool := fun _ => false.
Definition offline : nat -> Request -> FetchOutcome :=
  fun _ _ => FetchRejected "fetch failed".
Definition accepting : nat -> Request -> FetchOutcome :=
  fun _ _ => FetchOk ∅.

Definition config0 : Config :=
  mkConfig 10000%Z 20%Z true true true
           "https://plugin.capgo.app/updates"
           "https://plugin.capgo.app/channel_self"
           "https://plugin.capgo.app/stats"
           "" "1.0.0" "com.example.app" "" false false false false 0%Z.

Definition updater0 : Updater :=
  mkUpdater config0 None false false None None None "".

Definition host0 : Host := mkHost [] [] [] [] [] [].

Definition store0 : Store :=
  mkStore ∅ None None None None "device-1" None None None None.

(** A fresh installation: nothing on disk but the storage file. *)
Definition world0 : World :=
  mkWorld ∅ ∅ store0 store0 0 [] [] 0 updater0 host0.

Definition www : string := "/userData/capgo-bundles/b1/www".
Definition zipPath : string := "/userData/capgo-bundles/b1/bundle.zip".

(** A world in which an archive has been downloaded. *)
Definition worldWithZip : World :=
  setFiles (fun f => <[zipPath := bytes "PK"]> f) world0.

(** An archive with one entry whose name has a [..] segment that stays
    inside the extraction directory. *)
Definition dotDotInside : list ZipEntry := [mkEntry "a/../b.js" (bytes "x")].
Definition envDotDotInside : Env :=
  envOf (fun _ => Some dotDotInside) noFault (fun _ _ => TimedOut) offline offline.

(** An archive with an entry of the resource fork of a Mac, and one
    with an entry whose name shows two dots that are no segment. *)
Definition macArchive : list ZipEntry :=
  [mkEntry "__MACOSX/._index.html" (bytes "mac"); mkEntry "index.html" (bytes "<html>")].
Definition envMac : Env :=
  envOf (fun _ => Some macArchive) noFault (fun _ _ => TimedOut) offline offline.
Definition dotsArchive : list ZipEntry := [mkEntry "a/..b" (bytes "x")].
Definition envDots : Env :=
  envOf (fun _ => Some dotsArchive) noFault (fun _ _ => TimedOut) offline offline.



(** A server that redirects to a path on the same host. *)
Definition relativeServer : nat -> string -> HttpOutcome :=
  fun _ _ => Responded 302 (Some "/v2/bundle.zip") 0 [].
Definition envRelative : Env :=
  envOf (fun _ => Some []) noFault relativeServer offline offline.


(** The server does not have the bundle. *)
Definition missingServer : nat -> string -> HttpOutcome :=
  fun _ _ => Responded 404 None 0 [].
(** The removal of the bundle directory is refused. *)
Definition rmRefused : IOOp -> bool :=
  fun op => match op with OpRm _ => true | _ => false end.
Definition envRmRefused : Env :=
  envOf (fun _ => Some []) rmRefused missingServer offline offline.
Definition envMissing : Env :=
  envOf (fun _ => Some []) noFault missingServer offline offline.

Definition options0 : DownloadOptions :=
  mkOptions "https://cdn.example/bundle.zip" "1.0.1" None None None.

Definition bundlePath : string := "/userData/capgo-bundles/b1".

(** A server that has the bundle, and an archive with one page. *)
Definition servingServer : nat -> string -> HttpOutcome :=
  fun _ u =>
    if String.eqb u "https://cdn.example/bundle.zip"
    then Responded 200 None 2 [bytes "P"; bytes "K"]
    else if String.eqb u "https://cdn.example/app.js"
    then Responded 200 None 0 [bytes "app"]
    else Responded 404 None 0 [].
Definition onePage : list ZipEntry := [mkEntry "index.html" (bytes "<html>")].
Definition envServing : Env :=
  envOf (fun _ => Some onePage) noFault servingServer offline offline.

Definition withBundleManager (mark : BundleOp unit) (apply : BundleOp bool)
  (env : Env) : Env :=
  mkEnv (bundlesRoot env) (now env) (generateBundleId env) (crypto env) (unzip env)
        (ioFails env) (urlOk env) (protocolOf env) (server env)
        (channelServer env) (statsServer env) (gateOpen env) (onAppStart env)
        (resetKillState env) (currentBundlePath env) mark apply
        (builtinBundle env) (newDeviceId env) (keyIdOf env).


(** Manifest entries: a page that the archive has already brought, a
    script to fetch, an entry without a download URL, an empty entry. *)
Definition pageEntry : ManifestEntry :=
  mkManifestEntry (Some "index.html") (Some "https://cdn.example/index.html") None.
Definition noUrlEntry : ManifestEntry := mkManifestEntry (Some "lib.js") None None.

(** The extraction directory once the archive has been unpacked. *)
Definition worldExtracted : World :=
  setFiles (fun f => <[www +:+ "/index.html" := bytes "<html>"]> f)
    (setDirs (fun d => {[www]} ∪ d) world0).



(** No server can be reached; the device has the channel [beta] stored. *)
Definition envOffline : Env :=
  envOf (fun _ => Some []) noFault (fun _ _ => TimedOut) offline offline.
Definition worldBeta : World := setStore (withChannel (Some "beta")) world0.

(** The channel endpoint answers 200 with an empty JSON object. *)
Definition envAccepting : Env :=
  envOf (fun _ => Some []) noFault (fun _ _ => TimedOut) accepting offline.

(** The channel endpoint accepts, and the storage file cannot be
    written. *)
Definition saveRefused : IOOp -> bool :=
  fun op => match op with OpSave _ => true | _ => false end.
Definition envSaveRefused : Env :=
  envOf (fun _ => Some []) saveRefused (fun _ _ => TimedOut) accepting offline.

(** The channel endpoint refuses the channel. *)
Definition refusing : nat -> Request -> FetchOutcome :=
  fun _ _ => FetchOk (<["status" := Js.VStr "error"]>
                        (<["error" := Js.VStr "channel_not_allowed"]> ∅)).
Definition envRefusing : Env :=
  envOf (fun _ => Some []) noFault (fun _ _ => TimedOut) refusing offline.

Definition channelManager0 : ChannelManager :=
  mkChannel "https://plugin.capgo.app/channel_self" "com.example.app"
            (Some "production") None 20000%Z.

Definition statsManager0 : StatsManager :=
  Stats.new "https://plugin.capgo.app/stats" "com.example.app"
            (Some "production") None 20000%Z.

(** A restart with a bundle waiting to be applied: the storage file has
    the bundle [b7] in status ['success'] as the next bundle. *)
Definition storePending : Store :=
  mkStore (<["b7" := mkBundle "b7" "1.0.2" "2024-04-30T08:00:00.000Z" "" Success]> ∅)
          None (Some "b7") None None "device-1" None None None None.
Definition worldPending : World :=
  mkWorld ∅ ∅ emptyStore storePending 0 [] [] 0 updater0 host0.

(** An updater whose components have been built. *)
Definition worldReady : World :=
  setUpdater (Coordinator.withComponents
                (mkComponents None 20000%Z channelManager0 statsManager0 false))
             world0.

End Scenario.

(* ===================================================================== *)
(** ** Further vocabulary and scenarios *)
(* ===================================================================== *)

Module Props2.
Import Model.

(** A JSON value that has properties to read: anything but [null]. *)
Definition readable (v : Js.value) : bool :=
  match v with
  | Js.VNull => false
  | _ => true
  end.

(** Every run of [m] takes a world [w] to a world related to it by
    [R], however the run ends. *)
Definition keeps {A} (R : World -> World -> Prop) (m : M A) : Prop :=
  forall w r w', m w = (r, w') -> R w w'.

(** The files outside the directory [dir] are the same in both worlds. *)
Definition outsideUntouched (dir : string) (w w' : World) : Prop :=
  forall p, Props.inside dir p = false -> files w' !! p = files w !! p.

(** No file and no directory of [w] is missing from [w']. *)
Definition nothingLost (w w' : World) : Prop :=
  (forall p, is_Some (files w !! p) -> is_Some (files w' !! p))
  /\ dirs w ⊆ dirs w'.

(** No directory of [w] is missing from [w']. *)
Definition dirsKept (w w' : World) : Prop := dirs w ⊆ dirs w'.

(** Two stores that differ at most in the record of the bundle [id]. *)
Definition sameBut (id : string) (s s' : Store) : Prop :=
  (forall i, i <> id -> bundles s' !! i = bundles s !! i)
  /\ currentBundleId s' = currentBundleId s
  /\ nextBundleId s' = nextBundleId s
  /\ channel s' = channel s
  /\ customId s' = customId s
  /\ deviceId s' = deviceId s
  /\ savedUpdateUrl s' = savedUpdateUrl s
  /\ savedStatsUrl s' = savedStatsUrl s
  /\ savedChannelUrl s' = savedChannelUrl s
  /\ savedAppId s' = savedAppId s.

(** From [w] to [w'] the store in memory changed at most in the record
    of [id], the storage file is as it was or holds such a store, and
    the updater and the host were not touched. *)
Definition ownRecordOnly (id : string) (w w' : World) : Prop :=
  sameBut id (store w) (store w')
  /\ (disk w' = disk w \/ sameBut id (store w) (disk w'))
  /\ updater w' = updater w
  /\ host w' = host w.

(** At most one periodic timer is running, and a running one is the
    timer the updater has on record. *)
Definition singleInterval (w : World) : Prop :=
  intervals (host w) = []
  \/ exists t, periodCheckInterval (updater w) = Some t /\ intervals (host w) = [t].

(** The configuration and the components of the updater are the same
    in both worlds. *)
Definition sameSetup (w w' : World) : Prop :=
  config (updater w') = config (updater w)
  /\ components (updater w') = components (updater w).

(** A new [ElectronUpdater] with the configuration [c], as the
    constructor leaves it. *)
Definition freshUpdater (c : Config) : Updater :=
  mkUpdater c None false false None None None "".

(** The files, the directories, the store, the storage file and the
    log of requests are the same in both worlds. *)
Definition sameData (w w' : World) : Prop :=
  files w' = files w /\ dirs w' = dirs w /\ store w' = store w
  /\ disk w' = disk w /\ net w' = net w.

(** The string has a dash among its code units. *)
Fixpoint hasDash (s : string) : bool :=
  match s with
  | EmptyString => false
  | String c rest => KeyId.isDash c || hasDash rest
  end.

(** The string has white space among its code units. *)
Fixpoint hasSpace (s : string) : bool :=
  match s with
  | EmptyString => false
  | String c rest => KeyId.isSpace c || hasSpace rest
  end.

(** A PEM block: the two armor lines around the body. *)
Definition pem (label body trailer : string) : string :=
  "-----BEGIN " +:+ label +:+ "-----" +:+ body
  +:+ "-----END " +:+ label +:+ "-----" +:+ trailer.

(** The path exists, as a file or as a directory. *)
Definition exists_ (w : World) (p : string) : bool :=
  bool_decide (is_Some (files w !! p)) || bool_decide (p ∈ dirs w).

End Props2.

Module Scenario2.
Import Model Scenario.

(** The channel endpoint lists two channels, the second one with the
    older key [allow_set] and no [public] member. *)
Definition listing : nat -> Request -> FetchOutcome :=
  fun _ _ =>
    FetchOk (<["channels" :=
               Js.VArr [Js.VObj [("id", Js.VNum 7); ("name", Js.VStr "production");
                                 ("public", Js.VBool true)];
                        Js.VObj [("id", Js.VNum 9); ("name", Js.VStr "beta");
                                 ("allow_set", Js.VBool false)]]]> ∅).
Definition envListing : Env :=
  envOf (fun _ => Some []) noFault (fun _ _ => TimedOut) listing offline.

(** A device that already has the bundle [b7] waiting as the next one. *)
Definition worldOther : World := setStore (fun _ => storePending) world0.

(** The record of a bundle downloaded from [envServing]. *)
Definition downloaded1 : BundleInfo :=
  mkBundle "b1" "1.0.1" "2024-05-01T10:00:00.000Z" "PK" Success.

(** The server has the bundle, whose archive is empty. *)
Definition envEmptyArchive : Env :=
  envOf (fun _ => Some []) noFault servingServer offline offline.

(** The statistics endpoint answers 200. *)
Definition envStats : Env :=
  envOf (fun _ => Some []) noFault (fun _ _ => TimedOut) offline accepting.

Definition payload0 : Stats.StatsPayload :=
  Stats.mkPayload DOWNLOAD_COMPLETE (Some "1.0.1") None (Some "b1") None.

(** The window has been set, the components are built. *)
Definition worldWindow : World :=
  setUpdater (Coordinator.withWindow "main" "/app/www") worldReady.

(** The window has been set and the bundle [b7] is waiting. *)
Definition worldWaiting : World :=
  setStore (fun _ => storePending) worldWindow.

(** A bundle manager that cannot remove the previous bundle. *)
Definition envPruneFails : Env :=
  withBundleManager (fun x => (Throw (JsError "EACCES: rm"), x)) applyNext envOffline.

(** Periodic checks every fifty days. *)
Definition configFiftyDays : Config :=
  mkConfig 10000%Z 20%Z true true true
           "https://plugin.capgo.app/updates"
           "https://plugin.capgo.app/channel_self"
           "https://plugin.capgo.app/stats"
           "" "1.0.0" "com.example.app" "" false false false false 4320000%Z.
Definition worldFiftyDays : World :=
  setUpdater (Coordinator.withConfig configFiftyDays) world0.

(** Periodic checks every hour. *)
Definition configHourly : Config :=
  mkConfig 10000%Z 20%Z true true true
           "https://plugin.capgo.app/updates"
           "https://plugin.capgo.app/channel_self"
           "https://plugin.capgo.app/stats"
           "" "1.0.0" "com.example.app" "" false false false false 3600%Z.
Definition worldHourly : World :=
  setUpdater (Coordinator.withConfig configHourly) world0.

(** The setters are allowed, and what they set is persisted. *)
Definition allowAll : Settings.Permissions := Settings.mkPermissions true true.
Definition configPersist : Config :=
  mkConfig 10000%Z 20%Z true true true
           "https://plugin.capgo.app/updates"
           "https://plugin.capgo.app/channel_self"
           "https://plugin.capgo.app/stats"
           "" "1.0.0" "com.example.app" "" false true false false 0%Z.
Definition worldPersist : World :=
  setUpdater (Coordinator.withConfig configPersist) worldReady.

(** The process starts again on the storage file that [w] left. *)
Definition restarted (w : World) : World :=
  mkWorld (files w) (dirs w) emptyStore (disk w) 0 [] [] 0
          (Props2.freshUpdater configPersist) host0.

(** The update endpoint cannot be reached; the listeners do nothing. *)
Definition portsOffline : AutoUpdate.Ports :=
  AutoUpdate.mkPorts (fun _ => ret tt)
                     (fun _ => throw (JsError "fetch failed"))
                     (fun _ => throw (JsError "Bundle not found"))
                     (fun _ => ret tt).

(** The update endpoint announces a breaking version. *)
Definition latestBreaking : AutoUpdate.LatestVersion :=
  AutoUpdate.mkLatest "2.0.0" (Some "https://cdn.example/bundle.zip") None None None
                      (Some true) None.
Definition portsBreaking : AutoUpdate.Ports :=
  AutoUpdate.mkPorts (fun _ => ret tt)
                     (fun _ => ret latestBreaking)
                     (fun _ => throw (JsError "Bundle not found"))
                     (fun _ => ret tt).

(** Automatic updates are switched off. *)
Definition configManual : Config :=
  mkConfig 10000%Z 20%Z false true true
           "https://plugin.capgo.app/updates"
           "https://plugin.capgo.app/channel_self"
           "https://plugin.capgo.app/stats"
           "" "1.0.0" "com.example.app" "" false false false false 0%Z.
Definition worldManual : World :=
  setUpdater (Coordinator.withConfig configManual) worldReady.

(** The update URL of the configuration is not a URL. *)
Definition configBadUrl : Config :=
  mkConfig 10000%Z 20%Z true true true
           "not a url"
           "https://plugin.capgo.app/channel_self"
           "https://plugin.capgo.app/stats"
           "" "1.0.0" "com.example.app" "" false false false false 0%Z.
Definition worldBadUrl : World :=
  setUpdater (Coordinator.withConfig configBadUrl) worldReady.

(** A public key in PEM armor, its lines ended by line feeds. *)
Definition newline : string := String "010"%char "".
Definition pemBody : string :=
  newline +:+ "MIIBIjANBgkqhkiG9w0BAQEFAAOCAQ8A" +:+ newline
  +:+ "MIIBCgKCAQEAu1SU1LfVLPHCozMxH2Mo" +:+ newline.

End Scenario2.

(* ===================================================================== *)
(** ** Properties *)
(* ===================================================================== *)

Section PathFacts.
Import Props.

Example normalize_resolves_dotdot :
  Path.normalize "/a/b/../c" = "/a/c"
  /\ Path.normalize "a/../../b/" = "../b/"
  /\ Path.normalize "/.." = "/"
  /\ Path.normalize "a//b/./c" = "a/b/c"
  /\ Path.normalize "" = ".".
Proof. repeat split. Qed.

Example join_examples :
  Path.join ["/data/www"; "a/../b.js"] = "/data/www/b.js"
  /\ Path.join ["/data/www"; "../../evil.sh"] = "/evil.sh"
  /\ Path.join ["/data/www"; "/etc/passwd"] = "/data/www/etc/passwd"
  /\ Path.join ["/data/www"; "a/..b"] = "/data/www/a/..b"
  /\ Path.join ["/data/www"; ""] = "/data/www".
Proof. repeat split. Qed.

Example dirname_examples :
  Path.dirname "/a/b/c.js" = "/a/b"
  /\ Path.dirname "a" = "."
  /\ Path.dirname "/a" = "/"
  /\ Path.dirname "/a/" = "/".
Proof. repeat split. Qed.

Example percentOf_examples :
  Downloader.percentOf 1 3 = 33
  /\ Downloader.percentOf 2 3 = 67
  /\ Downloader.percentOf 1 2 = 50
  /\ Downloader.percentOf 200 201 = 100.
Proof. repeat split; vm_compute; reflexivity. Qed.

Lemma eqb_false_plain seg :
  String.eqb seg "" || String.eqb seg "." = false ->
  String.eqb seg ".." = false ->
  plain seg.
Proof.
  intros H1 H2. apply orb_false_iff in H1 as [H0 H1].
  apply String.eqb_neq in H0, H1, H2. repeat split; assumption.
Qed.

(** Below the root nothing climbs: the segments that [normalizeString]
    keeps for an absolute path are all plain, so that a normalized
    absolute path that begins with a directory and the separator names
    something below that directory. *)
Lemma normalizeString_plain segs : forall res,
  Forall plain res -> Forall plain (Path.normalizeString false segs res).
Proof.
  induction segs as [| seg rest IH]; intros res Hres; simpl.
  - now apply Forall_rev.
  - destruct (String.eqb seg "" || String.eqb seg ".") eqn:E1; [now apply IH |].
    destruct (String.eqb seg "..") eqn:E2.
    + destruct res as [| top res']; [now apply IH |].
      destruct (String.eqb top ".."); [now apply IH |].
      apply IH. now inversion Hres.
    + apply IH. constructor; [now apply eqb_false_plain | exact Hres].
Qed.

End PathFacts.

Section MonadFacts.
Import Model.

Lemma bind_done {A B} (m : M A) (k : A -> M B) w a w1 :
  m w = (Done a, w1) -> bind m k w = k a w1.
Proof. intros H. unfold bind. now rewrite H. Qed.

Lemma bind_throw {A B} (m : M A) (k : A -> M B) w e w1 :
  m w = (Throw e, w1) -> bind m k w = (Throw e, w1).
Proof. intros H. unfold bind. now rewrite H. Qed.

Lemma bind_diverge {A B} (m : M A) (k : A -> M B) w w1 :
  m w = (Diverge, w1) -> bind m k w = (Diverge, w1).
Proof. intros H. unfold bind. now rewrite H. Qed.

Lemma bind_inv {A B} (m : M A) (k : A -> M B) w r w' :
  bind m k w = (r, w') ->
  (exists a w1, m w = (Done a, w1) /\ k a w1 = (r, w'))
  \/ (exists e, m w = (Throw e, w') /\ r = Throw e)
  \/ (m w = (Diverge, w') /\ r = Diverge).
Proof.
  unfold bind. destruct (m w) as [[a | e |] w1]; intros H.
  - left. eauto.
  - right. left. inversion H. eauto.
  - right. right. inversion H. eauto.
Qed.

Lemma bind_done_inv {A B} (m : M A) (k : A -> M B) w b w' :
  bind m k w = (Done b, w') ->
  exists a w1, m w = (Done a, w1) /\ k a w1 = (Done b, w').
Proof.
  intros H. apply bind_inv in H as [H | [[e [_ H]] | [_ H]]]; [exact H | discriminate ..].
Qed.

Lemma when_false (m : M unit) w : when false m w = (Done tt, w).
Proof. reflexivity. Qed.

End MonadFacts.

Section PrimitiveFacts.
Import Model.
Context (env : Env).

Lemma io_inv op w r w' :
  io env op w = (r, w') ->
  w' = w /\ (r = Done tt /\ ioFails env op = false
             \/ r = Throw (IoError op) /\ ioFails env op = true).
Proof.
  unfold io. destruct (ioFails env op); intros H; inversion H; auto.
Qed.

Lemma mkdir_inv p w r w' :
  mkdir env p w = (r, w') ->
  r = Done tt /\ w' = setDirs (fun d => {[p]} ∪ d) w
  \/ r = Throw (IoError (OpMkdir p)) /\ w' = w.
Proof.
  unfold mkdir, bind, io, modify. destruct (ioFails env _); intros H; inversion H; auto.
Qed.

Lemma writeFile_inv p data w r w' :
  writeFile env p data w = (r, w') ->
  r = Done tt /\ w' = setFiles (fun f => <[p := data]> f) w
  \/ r = Throw (IoError (OpWrite p)) /\ w' = w.
Proof.
  unfold writeFile, bind, io, modify. destruct (ioFails env _); intros H; inversion H; auto.
Qed.

Lemma readFile_inv p w r w' :
  readFile p w = (r, w') ->
  w' = w /\ ((exists data, r = Done data /\ files w !! p = Some data)
             \/ (files w !! p = None /\ exists e, r = Throw e)).
Proof.
  unfold readFile. destruct (files w !! p) as [data |]; intros H; inversion H;
    split; eauto.
Qed.

Lemma mkdir_ok p w :
  ioFails env (OpMkdir p) = false ->
  mkdir env p w = (Done tt, setDirs (fun d => {[p]} ∪ d) w).
Proof. intros H. unfold mkdir, bind, io. now rewrite H. Qed.

Lemma writeFile_ok p data w :
  ioFails env (OpWrite p) = false ->
  writeFile env p data w = (Done tt, setFiles (fun f => <[p := data]> f) w).
Proof. intros H. unfold writeFile, bind, io. now rewrite H. Qed.

Lemma verifyFileChecksum_read p expected w data :
  files w !! p = Some data ->
  Downloader.verifyFileChecksum env p expected w
  = (Done (verifyChecksum (crypto env) data expected), w).
Proof.
  intros H. unfold Downloader.verifyFileChecksum, bind, readFile. now rewrite H.
Qed.


End PrimitiveFacts.

Section PathTheory.
Import Props.

Lemma append_cons c a b : String c a +:+ b = String c (a +:+ b).
Proof. reflexivity. Qed.

Lemma append_nil b : "" +:+ b = b.
Proof. reflexivity. Qed.

Lemma append_nil_r a : a +:+ "" = a.
Proof. induction a as [| c a IH]; [reflexivity |]. now rewrite append_cons, IH. Qed.


Lemma split_nonempty s : Path.split s <> [].
Proof.
  destruct s as [| c rest]; simpl; [discriminate |].
  destruct (Path.isSlash c); [discriminate |].
  destruct (Path.split rest); discriminate.
Qed.

Lemma split_slash s : Path.split (String "/" s) = "" :: Path.split s.
Proof. reflexivity. Qed.

Lemma split_app a b :
  Path.split (a +:+ String "/" b) = (Path.split a ++ Path.split b)%list.
Proof.
  induction a as [| c a IH]; [reflexivity |].
  rewrite append_cons. simpl. rewrite IH.
  destruct (Path.isSlash c); [reflexivity |].
  destruct (Path.split a) as [| h t] eqn:E; [now apply split_nonempty in E |].
  reflexivity.
Qed.

Lemma split_noSlash s : Forall (fun seg => noSlash seg = true) (Path.split s).
Proof.
  induction s as [| c rest IH]; simpl; [repeat constructor |].
  destruct (Path.isSlash c) eqn:C; [constructor; [reflexivity | exact IH] |].
  destruct (Path.split rest) as [| h t]; [repeat constructor; simpl; now rewrite C |].
  inversion IH; subst. constructor; [simpl; now rewrite C | assumption].
Qed.

Lemma split_one seg : noSlash seg = true -> Path.split seg = [seg].
Proof.
  induction seg as [| c rest IH]; [reflexivity |]. simpl.
  intros H. apply andb_true_iff in H as [C H]. apply negb_true_iff in C.
  rewrite C, (IH H). reflexivity.
Qed.

Lemma split_app_seg seg b :
  noSlash seg = true ->
  Path.split (seg +:+ String "/" b) = seg :: Path.split b.
Proof. intros H. now rewrite split_app, (split_one _ H). Qed.

(** [concat] and [split] are inverse on a list of segments. *)
Lemma split_concat segs :
  segs <> [] -> Forall (fun seg => noSlash seg = true) segs ->
  Path.split (String.concat "/" segs) = segs.
Proof.
  induction segs as [| seg rest IH]; [congruence |]. intros _ H.
  inversion H as [| ? ? Hseg Hrest]; subst.
  destruct rest as [| seg' rest'].
  - simpl. now apply split_one.
  - change (String.concat "/" (seg :: seg' :: rest'))
      with (seg +:+ String "/" (String.concat "/" (seg' :: rest'))).
    rewrite (split_app_seg _ _ Hseg), IH; [reflexivity | discriminate | assumption].
Qed.

Lemma concat_cons seg seg' rest :
  String.concat "/" (seg :: seg' :: rest)
  = seg +:+ String "/" (String.concat "/" (seg' :: rest)).
Proof. reflexivity. Qed.


(** The walk of [normalizeString] over two lists in a row. *)
Lemma normalizeString_app allow xs : forall ys res,
  Path.normalizeString allow (xs ++ ys) res
  = Path.normalizeString allow ys (rev (Path.normalizeString allow xs res)).
Proof.
  induction xs as [| x xs IH]; intros ys res; simpl.
  - now rewrite rev_involutive.
  - destruct (String.eqb x "" || String.eqb x "."); [apply IH |].
    destruct (String.eqb x "..").
    + destruct res as [| top res']; [apply IH |].
      destruct (String.eqb top ".."); apply IH.
    + apply IH.
Qed.

(** Without a [..] segment the walk only keeps or drops. *)
Lemma normalizeString_clean allow ys : forall res,
  existsb (String.eqb "..") ys = false ->
  Path.normalizeString allow ys res = (rev res ++ List.filter kept ys)%list.
Proof.
  induction ys as [| y ys IH]; intros res H; simpl.
  - now rewrite app_nil_r.
  - simpl in H. apply orb_false_iff in H as [Hy H].
    unfold kept at 1. destruct (String.eqb y "" || String.eqb y ".") eqn:E; simpl.
    + now apply IH.
    + destruct (String.eqb y "..") eqn:E2;
        [apply String.eqb_eq in E2; subst y; discriminate |].
      rewrite (IH _ H). simpl. now rewrite <- app_assoc.
Qed.

Lemma plain_clean segs :
  Forall plain segs ->
  existsb (String.eqb "..") segs = false /\ List.filter kept segs = segs.
Proof.
  induction 1 as [| seg rest (H1 & H2 & H3) _ [IH1 IH2]]; [auto |].
  cbn [existsb List.filter].
  assert (E1 : String.eqb ".." seg = false) by (apply String.eqb_neq; congruence).
  assert (E2 : kept seg = true).
  { unfold kept. apply negb_true_iff, orb_false_iff.
    split; apply String.eqb_neq; assumption. }
  rewrite E1, E2, IH1, IH2. auto.
Qed.

Lemma normalizeString_plain_id allow segs res :
  Forall plain segs ->
  Path.normalizeString allow segs res = (rev res ++ segs)%list.
Proof.
  intros H. destruct (plain_clean segs H) as [H1 H2].
  now rewrite (normalizeString_clean allow segs res H1), H2.
Qed.

Lemma normalizeString_noSlash allow segs : forall res,
  Forall (fun seg => noSlash seg = true) segs ->
  Forall (fun seg => noSlash seg = true) res ->
  Forall (fun seg => noSlash seg = true) (Path.normalizeString allow segs res).
Proof.
  induction segs as [| seg rest IH]; intros res Hs Hr; simpl.
  - now apply Forall_rev.
  - inversion Hs; subst.
    destruct (String.eqb seg "" || String.eqb seg "."); [now apply IH |].
    destruct (String.eqb seg "..").
    + destruct res as [| top res'].
      * apply IH; [assumption |]. destruct allow; repeat constructor.
      * destruct (String.eqb top "..").
        -- apply IH; [assumption |]. destruct allow; [constructor; auto | assumption].
        -- apply IH; [assumption |]. now inversion Hr.
    + apply IH; [assumption |]. now constructor.
Qed.


Lemma normalizeString_nonempty allow segs : forall res,
  Forall (fun seg => seg <> "") res ->
  Forall (fun seg => seg <> "") (Path.normalizeString allow segs res).
Proof.
  induction segs as [| seg rest IH]; intros res Hr; simpl.
  - now apply Forall_rev.
  - destruct (String.eqb seg "" || String.eqb seg ".") eqn:E; [now apply IH |].
    destruct (String.eqb seg "..").
    + destruct res as [| top res'].
      * apply IH. destruct allow; repeat constructor. discriminate.
      * destruct (String.eqb top "..").
        -- apply IH. destruct allow; [constructor; [discriminate | auto] | assumption].
        -- apply IH. now inversion Hr.
    + apply IH. constructor; [| assumption].
      apply orb_false_iff in E as [E _]. now apply String.eqb_neq in E.
Qed.

Lemma endsWithSep_app a b :
  b <> "" -> Path.endsWithSep (a +:+ b) = Path.endsWithSep b.
Proof.
  intros Hb. induction a as [| c a IH]; [reflexivity |].
  rewrite append_cons. simpl.
  destruct (a +:+ b) eqn:E; [| exact IH].
  destruct a; [rewrite append_nil in E; congruence | discriminate].
Qed.


Lemma concat_nonempty segs :
  segs <> [] -> Forall (fun seg => seg <> "") segs ->
  String.concat "/" segs <> "".
Proof.
  destruct segs as [| seg rest]; [congruence |]. intros _ H.
  inversion H; subst. destruct rest as [| seg' rest'].
  - assumption.
  - rewrite concat_cons. destruct seg; [congruence | discriminate].
Qed.



(** *** Absolute normal paths *)

Lemma rooted_split dir segs : rooted dir segs -> Path.split dir = "" :: segs.
Proof.
  intros (-> & Hne & _ & Hn). change ("/" +:+ ?x) with (String "/" x).
  now rewrite split_slash, split_concat.
Qed.



Lemma rooted_segments dir segs :
  rooted dir segs -> Path.normalizeString false (Path.split dir) [] = segs.
Proof.
  intros H. rewrite (rooted_split _ _ H). destruct H as (_ & _ & Hp & _).
  simpl. now rewrite normalizeString_plain_id.
Qed.

Lemma rooted_resolve dir segs : rooted dir segs -> Path.resolve dir = dir.
Proof.
  intros H. unfold Path.resolve. rewrite (rooted_segments _ _ H).
  now destruct H as (-> & _).
Qed.


Lemma concat_empty segs :
  Forall (fun seg => seg <> "") segs -> String.concat "/" segs = "" -> segs = [].
Proof.
  intros H E. destruct segs as [| seg rest]; [reflexivity |].
  exfalso. revert E. apply concat_nonempty; [discriminate | exact H].
Qed.

(** The shape of a normalized absolute path. *)
Lemma normalize_absolute p :
  Path.isAbsolute p = true ->
  let segs := Path.normalizeString false (Path.split p) [] in
  Path.normalize p
  = match segs with
    | [] => "/"
    | _ => "/" +:+ (String.concat "/" segs
                    +:+ (if Path.endsWithSep p then "/" else ""))
    end.
Proof.
  intros Habs segs. unfold Path.normalize.
  destruct p as [| c p']; [discriminate |].
  change (String.eqb (String c p') "") with false. cbv iota.
  rewrite Habs. cbn [negb]. fold segs.
  assert (Hne : Forall (fun seg => seg <> "") segs)
    by (apply normalizeString_nonempty; constructor).
  destruct segs as [| seg rest] eqn:E.
  - reflexivity.
  - destruct (String.eqb (String.concat Path.sep (seg :: rest)) "") eqn:B;
      [| reflexivity].
    apply String.eqb_eq in B. apply (concat_empty _ Hne) in B. discriminate.
Qed.




Lemma filter_kept_plain segs : Forall plain segs -> List.filter kept segs = segs.
Proof. intros H. now destruct (plain_clean segs H). Qed.






Lemma normalize_relative p :
  Path.isAbsolute p = false -> Path.isAbsolute (Path.normalize p) = false.
Proof.
  intros Hrel. unfold Path.normalize.
  destruct (String.eqb p ""); [reflexivity |]. rewrite Hrel. cbn [negb].
  set (segs := Path.normalizeString true (Path.split p) []).
  assert (Hne : Forall (fun seg => seg <> "") segs)
    by (apply normalizeString_nonempty; constructor).
  assert (Hns : Forall (fun seg => noSlash seg = true) segs)
    by (apply normalizeString_noSlash; [apply split_noSlash | constructor]).
  destruct (String.eqb (String.concat Path.sep segs) "") eqn:B.
  - now destruct (Path.endsWithSep p).
  - rewrite append_nil. destruct segs as [| seg rest]; [discriminate |].
    inversion Hne as [| ? ? Hseg _]; subst. inversion Hns as [| ? ? Hslash _]; subst.
    destruct seg as [| c seg']; [congruence |].
    simpl in Hslash. apply andb_true_iff in Hslash as [Hc _].
    apply negb_true_iff in Hc.
    destruct rest; [| change (String.concat Path.sep (String c seg' :: s :: rest))
                         with (String c (seg' +:+ String "/"
                                          (String.concat "/" (s :: rest))))];
      exact Hc.
Qed.

(** *** The extraction directory of a bundle *)

Lemma www_join bp :
  bp <> "" -> Path.join [bp; "www"] = Path.normalize (bp +:+ String "/" "www").
Proof. intros H. unfold Path.join. cbn [List.filter]. now destruct bp. Qed.

Lemma www_absolute bp :
  Path.isAbsolute (Path.join [bp; "www"]) = Path.isAbsolute bp.
Proof.
  destruct bp as [| c bp']; [reflexivity |].
  rewrite www_join by discriminate.
  destruct (Path.isAbsolute (String c bp')) eqn:A.
  - pose proof (normalize_absolute (String c bp' +:+ String "/" "www") A) as N.
    cbv zeta in N. rewrite N. now destruct (Path.normalizeString _ _ _).
  - now apply normalize_relative.
Qed.

Lemma www_rooted bp :
  Path.isAbsolute bp = true -> exists segs, rooted (Path.join [bp; "www"]) segs.
Proof.
  intros A. assert (Hbp : bp <> "") by (destruct bp; [discriminate | congruence]).
  rewrite (www_join _ Hbp).
  assert (A' : Path.isAbsolute (bp +:+ String "/" "www") = true)
    by (destruct bp; [congruence | exact A]).
  pose proof (normalize_absolute _ A') as N. cbv zeta in N.
  set (D := Path.normalizeString false (Path.split bp) []).
  assert (Hsegs : Path.normalizeString false
                    (Path.split (bp +:+ String "/" "www")) [] = (D ++ ["www"])%list).
  { rewrite split_app, normalizeString_app. fold D.
    change (Path.split "www") with ["www"].
    rewrite normalizeString_clean by reflexivity. now rewrite rev_involutive. }
  rewrite Hsegs, endsWithSep_app in N by discriminate.
  change (Path.endsWithSep (String "/" "www")) with false in N. cbv iota in N.
  rewrite append_nil_r in N.
  exists (D ++ ["www"])%list. split; [| split; [| split]].
  - rewrite N. now destruct (D ++ ["www"])%list eqn:E; [apply app_eq_nil in E as [_ ?] |].
  - intros E. now apply app_eq_nil in E as [_ ?].
  - apply Forall_app. split; [apply normalizeString_plain; constructor |].
    repeat constructor; discriminate.
  - apply Forall_app. split; [| repeat constructor].
    apply normalizeString_noSlash; [apply split_noSlash | constructor].
Qed.

(** *** The names as the reader decodes them *)





End PathTheory.

Section ZipSlip.
Import Model Downloader Props.
Context (env : Env).

Lemma isPathSafe_inside filePath dir :
  isPathSafe filePath dir = true -> inside dir filePath = true.
Proof.
  unfold isPathSafe, inside.
  destruct (Path.startsWith _ _), (String.eqb (Path.normalize filePath) _);
    simpl; intros H; (reflexivity || discriminate).
Qed.






(** The reader hands an entry over under its decoded name, or refuses
    the name; either way nothing has changed. *)
Lemma readEntry_inv raw w r w' :
  readEntry raw w = (r, w') ->
  let name := decodeFileName (fileName raw) in
  w' = w
  /\ (r = Done (mkEntry name (content raw)) /\ validateFileName name = None
      \/ exists message,
           r = Throw (JsError message) /\ validateFileName name = Some message).
Proof.
  unfold readEntry. cbv zeta.
  destruct (validateFileName _) as [message |]; intros H; inversion H; subst; eauto.
Qed.







End ZipSlip.

Section ZipSlipExtraction.
Import Model Downloader Props.
Context (env : Env).





End ZipSlipExtraction.


(** The reader at work: a name with a [..] segment is refused even
    when it stays inside the directory, and so is an absolute name; a
    backslash counts as a separator. *)
Example reader_examples :
  Downloader.validateFileName "a/../b.js" = Some "invalid relative path: a/../b.js"
  /\ Downloader.validateFileName "/etc/passwd" = Some "absolute path: /etc/passwd"
  /\ Downloader.validateFileName "C:/x" = Some "absolute path: C:/x"
  /\ Downloader.validateFileName "a/..b" = None
  /\ Downloader.decodeFileName
       (".." +:+ String Downloader.backslash "evil.sh") = "../evil.sh".
Proof. repeat split. Qed.

(** The extraction at work. The entry [a/../b.js] is refused by the
    reader, and nothing is written. The entries below [__MACOSX/] are
    passed over. For the entry [a/..b] the directory [www/a] is made,
    and then the callback of [extractZipSecurely] turns the entry
    down. *)
Example extraction_examples :
  (exists w',
     Downloader.extractZipSecurely Scenario.envDotDotInside
       Scenario.zipPath Scenario.www Scenario.worldWithZip
     = (Model.Throw (Model.JsError "invalid relative path: a/../b.js"), w')
     /\ Model.files w' = Model.files Scenario.worldWithZip)
  /\ (exists w',
        Downloader.extractZipSecurely Scenario.envMac
          Scenario.zipPath Scenario.www Scenario.worldWithZip = (Model.Done tt, w')
        /\ Model.files w' !! "/userData/capgo-bundles/b1/www/__MACOSX/._index.html"
           = None
        /\ Model.files w' !! "/userData/capgo-bundles/b1/www/index.html"
           = Some (Scenario.bytes "<html>"))
  /\ (exists w',
        Downloader.extractZipSecurely Scenario.envDots
          Scenario.zipPath Scenario.www Scenario.worldWithZip
        = (Model.Throw (Model.JsError "Zip entry has invalid path: a/..b"), w')
        /\ Model.files w' = Model.files Scenario.worldWithZip
        /\ "/userData/capgo-bundles/b1/www/a" ∈ Model.dirs w').
Proof.
  split; [| split].
  - eexists. split; vm_compute; reflexivity.
  - eexists. split; [vm_compute; reflexivity |]. split; vm_compute; reflexivity.
  - eexists. split; [vm_compute; reflexivity |]. split; [vm_compute; reflexivity |].
    apply (bool_decide_unpack _). vm_compute. exact I.
Qed.

Section Redirects.
Import Model Downloader Props.
Context (env : Env).















End Redirects.




(** A redirect to a path on the same host: [get] refuses the relative
    [Location], and the download fails after its one request. *)
Example relative_location_refused :
  exists w',
    Downloader.downloadFile Scenario.envRelative 5 "https://cdn.example/bundle.zip"
      Scenario.zipPath None Scenario.world0
    = (Model.Throw (Model.JsError "Invalid URL"), w')
    /\ Model.net w' = [Model.HttpGet "https://cdn.example/bundle.zip"].
Proof. eexists. split; vm_compute; reflexivity. Qed.

Section FailedDownload.
Import Model Downloader.
Context (env : Env).

Lemma tryCatch_done {A} (m : M A) h w a w1 :
  m w = (Done a, w1) -> tryCatch m h w = (Done a, w1).
Proof. intros H. unfold tryCatch. now rewrite H. Qed.

Lemma tryCatch_throw {A} (m : M A) h w e w1 :
  m w = (Throw e, w1) -> tryCatch m h w = h e w1.
Proof. intros H. unfold tryCatch. now rewrite H. Qed.

Lemma save_ok w :
  ioFails env (OpSave (saves w)) = false -> save env w = (Done tt, committed w).
Proof. intros H. unfold save. now rewrite H. Qed.

Lemma save_fails w :
  ioFails env (OpSave (saves w)) = true ->
  save env w = (Throw (IoError (OpSave (saves w))), attempted w).
Proof. intros H. unfold save. now rewrite H. Qed.

Lemma rm_gone p w :
  ioFails env (OpRm p) = false ->
  exists w',
    rm env p w = (Done tt, w')
    /\ (forall q, Path.under p q = true -> files w' !! q = None /\ q ∉ dirs w')
    /\ store w' = store w /\ disk w' = disk w /\ saves w' = saves w.
Proof.
  intros Hio. unfold rm, bind, io, modify. rewrite Hio.
  eexists. split; [reflexivity |]. split; [| auto].
  intros q Hq. simpl. split.
  - apply map_lookup_filter_None. right. intros x _. simpl. congruence.
  - intros Hin. apply elem_of_filter in Hin as [Hin _]. congruence.
Qed.

Lemma rm_refused p w :
  ioFails env (OpRm p) = true -> rm env p w = (Throw (IoError (OpRm p)), w).
Proof. intros Hio. unfold rm, bind, io. now rewrite Hio. Qed.

(** The [catch] block never completes normally. *)
Lemma catchBlock_not_done bundleId bundlePath info e w b w' :
  catchBlock env bundleId bundlePath info e w <> (Done b, w').
Proof.
  intros C. unfold catchBlock in C.
  repeat (apply bind_done_inv in C as (? & ? & _ & C)). discriminate.
Qed.

(** The [catch] block when the record can be saved and the directory
    removed: the error it was given is thrown again, and neither the
    record nor anything below the bundle directory is left. *)
Lemma catchBlock_cleans bundleId bundlePath info e w :
  ioFails env (OpSave (saves w)) = false ->
  ioFails env (OpRm bundlePath) = false ->
  ioFails env (OpSave (S (saves w))) = false ->
  exists w',
    catchBlock env bundleId bundlePath info e w = (Throw e, w')
    /\ bundles (store w') !! bundleId = None
    /\ bundles (disk w') !! bundleId = None
    /\ (forall p, Path.under bundlePath p = true ->
                  files w' !! p = None /\ p ∉ dirs w').
Proof.
  intros S1 Hrm S2. unfold catchBlock.
  erewrite bind_done; [| reflexivity].
  erewrite bind_done; [| apply save_ok; exact S1].
  match goal with |- context [tryCatch _ _] =>
    match goal with |- context [bind _ _ ?w0] => set (w1 := w0) end end.
  destruct (rm_gone bundlePath w1 Hrm) as (w2 & E & Hgone & Hs & Hd & Hn).
  erewrite bind_done.
  2:{ apply tryCatch_done. erewrite bind_done; [| exact E].
      erewrite bind_done; [| reflexivity].
      apply save_ok. cbn [saves setStore]. rewrite Hn. exact S2. }
  eexists. split; [reflexivity |]. cbn [store disk files dirs committed setStore].
  cbn [setBundles bundles].
  repeat split; try apply lookup_delete_eq; apply Hgone; assumption.
Qed.

(** The [catch] block when the record can be saved but the directory
    cannot be removed: the cleanup error is ignored, the error it was
    given is thrown again, and the record stays, in status [Failed], in
    memory and in the storage file, with the files as they were. *)
Lemma catchBlock_keeps bundleId bundlePath info e w :
  ioFails env (OpSave (saves w)) = false ->
  ioFails env (OpRm bundlePath) = true ->
  exists w',
    catchBlock env bundleId bundlePath info e w = (Throw e, w')
    /\ bundles (store w') !! bundleId = Some (withStatus Failed info)
    /\ bundles (disk w') !! bundleId = Some (withStatus Failed info)
    /\ files w' = files w /\ dirs w' = dirs w.
Proof.
  intros S1 Hrm. unfold catchBlock.
  erewrite bind_done; [| reflexivity].
  erewrite bind_done; [| apply save_ok; exact S1].
  erewrite bind_done.
  2:{ erewrite tryCatch_throw; [reflexivity |].
      apply bind_throw. apply rm_refused. exact Hrm. }
  eexists. split; [reflexivity |].
  cbn. repeat split; apply lookup_insert_eq.
Qed.

(** Whatever the cleanup does, the [catch] block throws the error it
    was given once the record marked ['error'] has been saved. *)
Lemma catchBlock_rethrows bundleId bundlePath info e w :
  ioFails env (OpSave (saves w)) = false ->
  exists w', catchBlock env bundleId bundlePath info e w = (Throw e, w').
Proof.
  intros S1. unfold catchBlock.
  erewrite bind_done; [| reflexivity].
  erewrite bind_done; [| apply save_ok; exact S1].
  match goal with |- context [bind (tryCatch ?m ?h) _ ?w0] =>
    destruct (m w0) as [[[] | e' |] w2] eqn:T end.
  - erewrite bind_done; [| apply tryCatch_done; exact T]. eauto.
  - erewrite bind_done; [| rewrite (tryCatch_throw _ _ _ _ _ T); reflexivity]. eauto.
  - exfalso.
    apply bind_inv in T as [(? & ? & _ & T) | [(? & _ & ?) | (T & _)]];
      try discriminate.
    + apply bind_inv in T as [(? & ? & _ & T) | [(? & _ & ?) | (T & _)]];
        try discriminate.
      unfold save in T.
      destruct (ioFails env (OpSave (saves _))) in T; discriminate.
    + unfold rm, bind, io, modify in T.
      destruct (ioFails env (OpRm _)) in T; discriminate.
Qed.

(** A throw of the [try] block reaches the [catch] block, with the
    record as the [try] block left it. *)
Lemma tryBlock_caught fuel options cb info w e w1 :
  let bundleId := generateBundleId env in
  let bundlePath := getBundlePath env bundleId in
  let zipPath := Path.join [bundlePath; "bundle.zip"] in
  tryBlock env fuel options cb bundleId bundlePath zipPath info w = (Throw e, w1) ->
  exists info',
    bind (tryCatch (fetchAndVerify env fuel options cb zipPath info)
                   (catchBlock env bundleId bundlePath info))
         (fun verified =>
            tryCatch (extractAndFinish env fuel options cb bundleId bundlePath
                        zipPath verified)
                     (catchBlock env bundleId bundlePath verified)) w
    = catchBlock env bundleId bundlePath info' e w1.
Proof.
  intros bundleId bundlePath zipPath H. unfold tryBlock in H.
  apply bind_inv in H as [(v & w0 & H1 & H2) | [(e' & H1 & E) | (_ & ?)]];
    [| | discriminate].
  - exists v. erewrite bind_done; [| apply tryCatch_done; exact H1].
    now apply tryCatch_throw.
  - inversion E; subst e'. exists info.
    destruct (catchBlock env bundleId bundlePath info e w1) as [[b | e' |] w2] eqn:C.
    + now apply catchBlock_not_done in C.
    + apply bind_throw. now rewrite (tryCatch_throw _ _ _ _ _ H1).
    + apply bind_diverge. now rewrite (tryCatch_throw _ _ _ _ _ H1).
Qed.

(** C2 (as amended): when the [try] block of [downloadBundle] fails
    after the record has been registered, whatever the failure, and the
    record marked ['error'] can be saved, the original error is thrown
    again to the caller; if the bundle directory can be removed and the
    store saved, the directory and all below it are gone and the record
    is deleted from the store, in memory and in the storage file; if
    the removal of the directory is refused, that error is ignored and
    the record stays in status ['error'] with the files as they were. *)
Theorem failed_download_cleaned fuel options cb w w0 e w1 :
  let bundleId := generateBundleId env in
  let bundlePath := getBundlePath env bundleId in
  let zipPath := Path.join [bundlePath; "bundle.zip"] in
  register env options w = (Done tt, w0) ->
  tryBlock env fuel options cb bundleId bundlePath zipPath
    (initialInfo env options) w0 = (Throw e, w1) ->
  ioFails env (OpSave (saves w1)) = false ->
  exists w',
    downloadBundle env fuel options cb w = (Throw e, w')
    /\ (ioFails env (OpRm bundlePath) = false ->
        ioFails env (OpSave (S (saves w1))) = false ->
        bundles (store w') !! bundleId = None
        /\ bundles (disk w') !! bundleId = None
        /\ forall p, Path.under bundlePath p = true ->
                     files w' !! p = None /\ p ∉ dirs w')
    /\ (ioFails env (OpRm bundlePath) = true ->
        files w' = files w1 /\ dirs w' = dirs w1
        /\ exists b, status b = Failed
                     /\ bundles (store w') !! bundleId = Some b
                     /\ bundles (disk w') !! bundleId = Some b).
Proof.
  intros bundleId bundlePath zipPath Hreg Htry S1.
  destruct (tryBlock_caught fuel options cb _ _ _ _ Htry) as [info' Hcatch].
  fold bundleId bundlePath zipPath in Hcatch.
  unfold downloadBundle. fold bundleId bundlePath zipPath.
  rewrite (bind_done _ _ _ _ _ Hreg), Hcatch.
  destruct (ioFails env (OpRm bundlePath)) eqn:Hrm.
  - destruct (catchBlock_keeps bundleId bundlePath info' e w1 S1 Hrm)
      as (w' & E & Hm & Hd & Hf & Hdirs).
    exists w'. split; [exact E |]. split; [discriminate |].
    intros _. repeat split; try assumption.
    exists (withStatus Failed info'). auto.
  - destruct (ioFails env (OpSave (S (saves w1)))) eqn:S2.
    + destruct (catchBlock_rethrows bundleId bundlePath info' e w1 S1) as [w' E].
      exists w'. split; [exact E |]. split; discriminate.
    + destruct (catchBlock_cleans bundleId bundlePath info' e w1 S1 Hrm S2)
        as (w' & E & Hm & Hd & Hgone).
      exists w'. split; [exact E |]. split; [auto | discriminate].
Qed.

End FailedDownload.

(** An instance: the server answers 404; the error
    reaches the caller and neither the record nor the directory is left. *)
Lemma failed_download_cleaned_witness :
  exists w',
    Downloader.downloadBundle Scenario.envMissing 5 Scenario.options0 None
      Scenario.world0
    = (Model.Throw (Model.JsError "Download failed with status 404"), w')
    /\ Model.bundles (Model.store w') !! "b1" = None
    /\ Model.bundles (Model.disk w') !! "b1" = None
    /\ Scenario.bundlePath ∉ Model.dirs w'.
Proof.
  pose (w0 := snd (Downloader.register Scenario.envMissing Scenario.options0
                     Scenario.world0)).
  pose (w1 := snd (Downloader.tryBlock Scenario.envMissing 5 Scenario.options0 None
                     "b1" Scenario.bundlePath Scenario.zipPath
                     (Downloader.initialInfo Scenario.envMissing Scenario.options0)
                     w0)).
  assert (Hreg : Downloader.register Scenario.envMissing Scenario.options0
                   Scenario.world0 = (Model.Done tt, w0))
    by (vm_compute; reflexivity).
  assert (Htry : Downloader.tryBlock Scenario.envMissing 5 Scenario.options0 None
                   "b1" Scenario.bundlePath Scenario.zipPath
                   (Downloader.initialInfo Scenario.envMissing Scenario.options0) w0
                 = (Model.Throw (Model.JsError "Download failed with status 404"), w1))
    by (vm_compute; reflexivity).
  destruct (failed_download_cleaned Scenario.envMissing 5 Scenario.options0 None
              Scenario.world0 w0 _ w1 Hreg Htry eq_refl)
    as (w' & E & Hclean & _).
  exists w'. split; [exact E |].
  destruct (Hclean eq_refl eq_refl) as (Hm & Hd & Hgone).
  repeat split; [exact Hm | exact Hd |].
  apply (Hgone Scenario.bundlePath). vm_compute. reflexivity.
Defined.

(** C2 (as stated) fails: the server answers 404 and the removal of the
    bundle directory is refused; the cleanup error is ignored, so the
    record stays in the store with status ['error'], in memory and on
    disk, and its directory stays on disk. *)
Lemma failed_bundle_keeps_directory :
  exists w',
    Downloader.downloadBundle Scenario.envRmRefused 5 Scenario.options0 None
      Scenario.world0
    = (Model.Throw (Model.JsError "Download failed with status 404"), w')
    /\ Model.status <$> Model.bundles (Model.store w') !! "b1" = Some Model.Failed
    /\ Model.status <$> Model.bundles (Model.disk w') !! "b1" = Some Model.Failed
    /\ Scenario.bundlePath ∈ Model.dirs w'.
Proof.
  eexists. split; [vm_compute; reflexivity |].
  split; [vm_compute; reflexivity |]. split; [vm_compute; reflexivity |].
  apply (bool_decide_unpack _). vm_compute. exact I.
Qed.

Section Checksum.
Import Model Downloader.
Context (env : Env).





(** A bundle that [downloadBundle] returns is the verified record marked
    [Success], and it is the record in the store. *)
Lemma extractAndFinish_done fuel options cb bundleId bundlePath zipPath v w b w' :
  tryCatch (extractAndFinish env fuel options cb bundleId bundlePath zipPath v)
           (catchBlock env bundleId bundlePath v) w = (Done b, w') ->
  b = withStatus Success v /\ bundles (store w') !! bundleId = Some b.
Proof.
  intros H. unfold tryCatch in H.
  destruct (extractAndFinish _ _ _ _ _ _ _ _ w) as [[b' | e |] w2] eqn:E;
    [| now apply catchBlock_not_done in H | discriminate].
  inversion H; subst b' w2. clear H. unfold extractAndFinish in E.
  do 4 (apply bind_done_inv in E as (? & ? & _ & E)).
  apply bind_done_inv in E as ([] & w3 & E1 & E).
  apply bind_done_inv in E as ([] & w4 & E2 & E).
  inversion E; subst. inversion E1; subst. unfold save in E2.
  destruct (ioFails env _); inversion E2; subst.
  split; [reflexivity |]. cbn. apply lookup_insert_eq.
Qed.



End Checksum.



Section ManifestPass.
Import Model Downloader Props.
Context (env : Env).

Lemma report_emitted cb p w :
  report cb p w
  = (Done tt, match cb with Some f => addEvents (f p) w | None => w end).
Proof. now destruct cb. Qed.

Lemma present_some (s : option string) name :
  Js.present s = Some name -> s = Some name.
Proof.
  unfold Js.present. destruct s as [x |]; [| discriminate].
  destruct (String.eqb x ""); [discriminate | auto].
Qed.

(** The cache test of the code answers [true] on a cached target. *)
Lemma checkFileInCache_hit target hash w :
  cached (crypto env) w target hash = true ->
  checkFileInCache env target hash w = (Done true, w).
Proof.
  unfold cached, checkFileInCache, tryCatch, bind at 1, access.
  destruct (files w !! target) as [data |] eqn:F; [| discriminate].
  intros H. rewrite bool_decide_eq_true_2 by eauto. simpl.
  destruct (Js.present hash) as [h |]; [| reflexivity].
  unfold verifyFileChecksum, bind, readFile. rewrite F. unfold ret. now rewrite H.
Qed.

(** It answers [false] on a target that is not on disk, and on a file
    whose hash is not the one the entry gives. *)
Lemma checkFileInCache_miss target hash w :
  cached (crypto env) w target hash = false ->
  target ∉ dirs w ->
  checkFileInCache env target hash w = (Done false, w).
Proof.
  unfold cached, checkFileInCache, tryCatch, bind at 1, access.
  intros H Hdir. rewrite (bool_decide_eq_false_2 (target ∈ dirs w)) by exact Hdir.
  destruct (files w !! target) as [data |] eqn:F.
  - rewrite bool_decide_eq_true_2 by eauto. simpl.
    destruct (Js.present hash) as [h |]; [| discriminate].
    unfold verifyFileChecksum, bind, readFile. rewrite F. unfold ret. now rewrite H.
  - rewrite bool_decide_eq_false_2; [reflexivity |]. intros [x Hx]. discriminate.
Qed.

(** C5 (as amended): in the manifest pass, an entry whose target file
    exists on disk, with no hash given or with the hash of that file,
    causes no request and leaves the files as they are; an entry with
    a file name and a download URL, whose target passes the path check
    and is not on disk, or is a file with another hash than the one
    given, is fetched, Brotli decompression is tried on the bytes, the
    result is written to the target, and a given hash that is not the
    one of the written file fails the download. *)
Theorem manifest_cache_and_fetch fuel total dest cb completed entry name w :
  file_name entry = Some name ->
  let target := Path.join [dest; name] in
  (cached (crypto env) w target (file_hash entry) = true ->
   forall r w',
     manifestEntry env fuel total dest cb completed entry w = (r, w') ->
     net w' = net w /\ files w' = files w)
  /\ (cached (crypto env) w target (file_hash entry) = false ->
      target ∉ dirs w -> target <> Path.dirname target ->
      forall downloadUrl body w2,
        Js.present (file_name entry) = Some name ->
        Js.present (download_url entry) = Some downloadUrl ->
        isPathSafe target dest = true ->
        ioFails env (OpMkdir (Path.dirname target)) = false ->
        ioFails env (OpWrite target) = false ->
        downloadToBuffer env fuel downloadUrl
          (setDirs (fun d => {[Path.dirname target]} ∪ d) w) = (Done body, w2) ->
        let written := tryDecompressBrotli (crypto env) body in
        let w3 := setFiles (fun f => <[target := written]> f) w2 in
        let reported :=
          snd (report cb (mkProgress (percentOf (S completed) total)
                                     (S completed) total) w3) in
        manifestEntry env fuel total dest cb completed entry w
        = match Js.present (file_hash entry) with
          | Some hash =>
              if verifyChecksum (crypto env) written hash
              then (Done (S completed), reported)
              else (Throw (JsError ("Hash verification failed for " +:+ name)), w3)
          | None => (Done (S completed), reported)
          end).
Proof.
  intros Hname target. split.
  - intros Hhit r w' H. unfold manifestEntry in H. rewrite Hname in H.
    destruct (Js.present (Some name)) as [n |] eqn:Pn;
      [| inversion H; auto].
    apply present_some in Pn. inversion Pn; subst n.
    destruct (Js.present (download_url entry)) as [u |]; [| inversion H; auto].
    fold target in H.
    destruct (isPathSafe target dest); simpl in H; [| inversion H; auto].
    apply bind_inv in H as [([] & w1 & H1 & H2) | [(e & H1 & _) | (H1 & _)]];
      apply mkdir_inv in H1 as [[? Hw] | [? Hw]]; try discriminate;
      subst; auto.
    assert (Hc : cached (crypto env)
                   (setDirs (fun d => {[Path.dirname target]} ∪ d) w)
                   target (file_hash entry) = true) by exact Hhit.
    rewrite (bind_done _ _ _ _ _ (checkFileInCache_hit _ _ _ Hc)) in H2.
    rewrite (bind_done _ _ _ _ _ (report_emitted _ _ _)) in H2.
    inversion H2. destruct cb; auto.
  - intros Hmiss Hdir Hparent u body w2 Pn Pu Hsafe Hmk Hwr Hbuf written w3 reported.
    unfold manifestEntry. rewrite Pn, Pu. fold target. rewrite Hsafe.
    cbn [negb]. cbv iota zeta. rewrite (bind_done _ _ _ _ _ (mkdir_ok env _ w Hmk)).
    erewrite bind_done.
    2:{ apply checkFileInCache_miss; [exact Hmiss |].
        simpl. intros Hin. apply elem_of_union in Hin as [Hin | Hin];
          [apply elem_of_singleton in Hin; contradiction | contradiction]. }
    cbv iota. rewrite (bind_done _ _ _ _ _ Hbuf).
    rewrite (bind_done _ _ _ _ _ (writeFile_ok env target written w2 Hwr)).
    fold w3.
    assert (Hread : files w3 !! target = Some written)
      by (subst w3; simpl; apply lookup_insert_eq).
    unfold reported. rewrite report_emitted. simpl snd.
    destruct (Js.present (file_hash entry)) as [hash |].
    + destruct (verifyChecksum (crypto env) written hash) eqn:V.
      * erewrite bind_done.
        2:{ erewrite bind_done;
              [| apply (verifyFileChecksum_read env _ _ _ _ Hread)].
            rewrite V. reflexivity. }
        now rewrite (bind_done _ _ _ _ _ (report_emitted _ _ _)).
      * apply bind_throw. erewrite bind_done;
          [| apply (verifyFileChecksum_read env _ _ _ _ Hread)].
        rewrite V. reflexivity.
    + erewrite bind_done; [| reflexivity].
      now rewrite (bind_done _ _ _ _ _ (report_emitted _ _ _)).
Qed.

End ManifestPass.

(** An instance: the page that the archive has
    brought is a cache hit; no request leaves and no file changes. *)
Lemma manifest_cache_and_fetch_witness :
  let out := Downloader.manifestEntry Scenario.envServing 5 3 Scenario.www None 0
               Scenario.pageEntry Scenario.worldExtracted in
  Model.net (snd out) = Model.net Scenario.worldExtracted
  /\ Model.files (snd out) = Model.files Scenario.worldExtracted.
Proof.
  intros out.
  destruct (manifest_cache_and_fetch Scenario.envServing 5 3 Scenario.www None 0
              Scenario.pageEntry "index.html" Scenario.worldExtracted eq_refl)
    as [Hhit _].
  apply (Hhit eq_refl (fst out) (snd out)). apply surjective_pairing.
Defined.

(** C5 (as stated) fails: the entry [lib.js] has no download URL and its
    target is not on disk, so it is none of the cache hits; yet it is not
    fetched and nothing is written for it, and the pass succeeds. *)
Lemma entry_without_url_not_fetched :
  Props.cached (Model.crypto Scenario.envServing) Scenario.worldExtracted
    (Path.join [Scenario.www; "lib.js"]) None = false
  /\ Downloader.downloadManifestFiles Scenario.envServing 5 [Scenario.noUrlEntry]
       Scenario.www None None Scenario.worldExtracted
     = (Model.Done 0, Scenario.worldExtracted)
  /\ Model.files Scenario.worldExtracted !! Path.join [Scenario.www; "lib.js"] = None
  /\ Model.net Scenario.worldExtracted = [].
Proof. repeat split; vm_compute; reflexivity. Qed.

Section ManifestProgress.
Import Model Downloader Props.
Context (env : Env).







End ManifestProgress.


(** The percent is the one of the source, computed in double precision:
    23 of 40 gives 57 (the product is 57.49999999999999), and 200 of 201
    gives 100. *)
Example percentOf_doubles :
  Downloader.percentOf 23 40 = 57
  /\ Downloader.percentOf 199 200 = 100
  /\ Downloader.percentOf 200 201 = 100
  /\ Downloader.percentOf 57 100 = 57.
Proof. repeat split; vm_compute; reflexivity. Qed.


Section ChannelFacts.
Import Model Channel Props.
Context (env : Env).

(** A transport failure makes [makeRequest] throw, with the store
    untouched. *)
Lemma makeRequest_fails cm method action chan w :
  urlOk env (cmChannelUrl cm) = false
  \/ transportFailure
       (channelServer env (length (net w))
          (ChannelRequest method (cmChannelUrl cm) action chan)) = true ->
  exists e w',
    makeRequest env cm method action chan w = (Throw e, w')
    /\ store w' = store w /\ disk w' = disk w.
Proof.
  unfold makeRequest, bind, newURL, fetch.
  destruct (urlOk env (cmChannelUrl cm)); simpl.
  - intros [? | H]; [discriminate |].
    destruct (channelServer env _ _); [discriminate | ..];
      do 2 eexists; repeat split.
  - intros _. do 2 eexists; repeat split.
Qed.

(** C8: on any transport failure (the connection fails, the timeout
    aborts the request, the response is not 2xx, or the URL cannot be
    used), [getChannel] returns the local fallback: the channel stored
    locally, or the configured default channel when none is stored,
    with [allowSet] true and status [ok]; nothing is thrown to the
    caller and the store is unchanged. *)
Theorem getChannel_fallback cm w :
  urlOk env (cmChannelUrl cm) = false
  \/ transportFailure
       (channelServer env (length (net w))
          (ChannelRequest GET (cmChannelUrl cm) None None)) = true ->
  exists w',
    getChannel env cm w
    = (Done (mkGetChannelRes
               (Js.orElse (Model.channel (store w)) (cmDefaultChannel cm))
               true "ok" None None), w')
    /\ store w' = store w /\ disk w' = disk w.
Proof.
  intros H. destruct (makeRequest_fails cm GET None None w H)
    as (e & w' & E & Hs & Hd).
  exists w'. split; [| auto]. unfold getChannel.
  erewrite tryCatch_throw; [| apply bind_throw; exact E].
  unfold bind, gets, ret. now rewrite Hs.
Qed.

Lemma setChannel_cases cm chan w :
  let req := ChannelRequest POST (cmChannelUrl cm) (Some "set") (Some chan) in
  exists res w',
    setChannel env cm chan w = (Done res, w')
    /\ (urlOk env (cmChannelUrl cm) = false
        \/ transportFailure (channelServer env (length (net w)) req) = true ->
        store w' = store w /\ disk w' = disk w
        /\ status res = "error" /\ is_Some (error res))
    /\ (forall body,
          urlOk env (cmChannelUrl cm) = true ->
          channelServer env (length (net w)) req = FetchOk body ->
          let normalized :=
            Js.toString (Js.nullish (body !! "status") (Js.VStr "ok")) in
          (normalized = "ok" \/ normalized = "success" ->
           Model.channel (store w') = Some chan
           /\ (ioFails env (OpSave (saves w)) = false ->
               disk w' = store w' /\ status res = normalized)
           /\ (ioFails env (OpSave (saves w)) = true ->
               disk w' = disk w
               /\ res = mkChannelRes "error"
                         (Some (errorMessage (IoError (OpSave (saves w))))) None))
          /\ (normalized <> "ok" -> normalized <> "success" ->
              store w' = store w /\ disk w' = disk w
              /\ status res = normalized)).
Proof.
  intros req. unfold setChannel.
  destruct (urlOk env (cmChannelUrl cm)) eqn:U.
  2:{ destruct (makeRequest_fails cm POST (Some "set") (Some chan) w (or_introl U))
        as (e & w' & E & Hs & Hd).
      erewrite tryCatch_throw; [| apply bind_throw; exact E].
      do 2 eexists. split; [reflexivity |]. split; [| discriminate].
      intros _. simpl. eauto. }
  destruct (channelServer env (length (net w)) req) as [body | code text | m] eqn:C.
  - assert (E : makeRequest env cm POST (Some "set") (Some chan) w
                = (Done body, addRequest req w)).
    { unfold makeRequest, bind, newURL, fetch. rewrite U. unfold ret.
      cbv beta iota. fold req. now rewrite C. }
    set (normalized := Js.toString (Js.nullish (body !! "status") (Js.VStr "ok"))).
    destruct (String.eqb normalized "ok" || String.eqb normalized "success") eqn:T.
    + destruct (ioFails env (OpSave (saves w))) eqn:S1.
      * erewrite tryCatch_throw.
        2:{ rewrite (bind_done _ _ _ _ _ E). cbv zeta. fold normalized. rewrite T.
            apply bind_throw. unfold when.
            erewrite bind_done; [| reflexivity].
            apply save_fails. exact S1. }
        do 2 eexists. split; [reflexivity |].
        split; [intros [? | ?]; discriminate |].
        intros body' _ Hb. inversion Hb; subst body'. fold normalized.
        split; [intros _; repeat split; discriminate |]. intros N1 N2.
        apply orb_true_iff in T as [T | T]; apply String.eqb_eq in T; contradiction.
      * erewrite tryCatch_done.
        2:{ rewrite (bind_done _ _ _ _ _ E). cbv zeta. fold normalized. rewrite T.
            erewrite bind_done; [reflexivity |]. unfold when.
            erewrite bind_done; [| reflexivity]. apply save_ok. exact S1. }
        do 2 eexists. split; [reflexivity |].
        split; [intros [? | ?]; discriminate |].
        intros body' _ Hb. inversion Hb; subst body'. fold normalized.
        split; [intros _; repeat split; discriminate |].
        intros N1 N2.
        apply orb_true_iff in T as [T | T]; apply String.eqb_eq in T; contradiction.
    + erewrite tryCatch_done.
      2:{ rewrite (bind_done _ _ _ _ _ E). cbv zeta. fold normalized. rewrite T.
          erewrite bind_done; reflexivity. }
      do 2 eexists. split; [reflexivity |].
      split; [intros [? | ?]; discriminate |].
      intros body' _ Hb. inversion Hb; subst body'. fold normalized.
      apply orb_false_iff in T as [T1 T2].
      apply String.eqb_neq in T1, T2.
      split; [intros [? | ?]; contradiction |]. intros _ _. repeat split.
  - destruct (makeRequest_fails cm POST (Some "set") (Some chan) w) as
      (e & w' & E & Hs & Hd); [right; fold req; now rewrite C |].
    erewrite tryCatch_throw; [| apply bind_throw; exact E].
    do 2 eexists. split; [reflexivity |]. split; [| discriminate].
    intros _. simpl. eauto.
  - destruct (makeRequest_fails cm POST (Some "set") (Some chan) w) as
      (e & w' & E & Hs & Hd); [right; fold req; now rewrite C |].
    erewrite tryCatch_throw; [| apply bind_throw; exact E].
    do 2 eexists. split; [reflexivity |]. split; [| discriminate].
    intros _. simpl. eauto.
Qed.

Lemma setChannel_rejected cm chan w m :
  urlOk env (cmChannelUrl cm) = true ->
  channelServer env (length (net w))
    (ChannelRequest POST (cmChannelUrl cm) (Some "set") (Some chan))
  = FetchRejected m ->
  setChannel env cm chan w
  = (Done (mkChannelRes "error" (Some m) None),
     addRequest (ChannelRequest POST (cmChannelUrl cm) (Some "set") (Some chan)) w).
Proof.
  intros U C. unfold setChannel.
  rewrite (tryCatch_throw _ _ w (JsError m)
             (addRequest (ChannelRequest POST (cmChannelUrl cm) (Some "set")
                            (Some chan)) w)); [reflexivity |].
  apply bind_throw. unfold makeRequest, bind, newURL, fetch. rewrite U.
  unfold ret. cbv beta iota. now rewrite C.
Qed.

(** C7 (as amended): [setChannel] never throws. The requested channel
    is stored exactly when the request succeeds and the normalized
    status, that is the [status] field of the response as a string, or
    [ok] when the response has no such field or has it null, is [ok]
    or [success]. The store is then saved: when the save succeeds the
    channel is persisted and the method returns the normalized status;
    when the save fails the channel stays changed in memory, the
    storage file is as it was, and the method returns the status
    [error] with the message of the save error. On any other normalized
    status and on any transport failure the store is left as it was;
    the method returns the normalized status, or the status [error]
    with the error message on a transport failure. *)
Theorem setChannel_persists cm chan w :
  let req := ChannelRequest POST (cmChannelUrl cm) (Some "set") (Some chan) in
  (exists res w',
    setChannel env cm chan w = (Done res, w')
    /\ (urlOk env (cmChannelUrl cm) = false
        \/ transportFailure (channelServer env (length (net w)) req) = true ->
        store w' = store w /\ disk w' = disk w
        /\ status res = "error" /\ is_Some (error res))
    /\ (forall body,
          urlOk env (cmChannelUrl cm) = true ->
          channelServer env (length (net w)) req = FetchOk body ->
          let normalized :=
            Js.toString (Js.nullish (body !! "status") (Js.VStr "ok")) in
          (normalized = "ok" \/ normalized = "success" ->
           Model.channel (store w') = Some chan
           /\ (ioFails env (OpSave (saves w)) = false ->
               disk w' = store w' /\ status res = normalized)
           /\ (ioFails env (OpSave (saves w)) = true ->
               disk w' = disk w
               /\ res = mkChannelRes "error"
                         (Some (errorMessage (IoError (OpSave (saves w))))) None))
          /\ (normalized <> "ok" -> normalized <> "success" ->
              store w' = store w /\ disk w' = disk w
              /\ status res = normalized)))
  /\ (forall m,
        urlOk env (cmChannelUrl cm) = true ->
        channelServer env (length (net w)) req = FetchRejected m ->
        setChannel env cm chan w
        = (Done (mkChannelRes "error" (Some m) None), addRequest req w)).
Proof.
  intros req. split.
  - apply setChannel_cases.
  - intros m U C. now apply setChannel_rejected.
Qed.

End ChannelFacts.

(** An instance: the channel endpoint cannot be
    reached and the device has [beta] stored. *)
Lemma getChannel_fallback_witness :
  exists w',
    Channel.getChannel Scenario.envOffline Scenario.channelManager0 Scenario.worldBeta
    = (Model.Done (Channel.mkGetChannelRes (Some "beta") true "ok" None None), w')
    /\ Model.store w' = Model.store Scenario.worldBeta
    /\ Model.disk w' = Model.disk Scenario.worldBeta.
Proof.
  apply (getChannel_fallback Scenario.envOffline Scenario.channelManager0
           Scenario.worldBeta).
  right. reflexivity.
Defined.

(** An instance: the endpoint answers with the status
    [error]; the stored channel stays [beta]. *)
Lemma setChannel_persists_witness :
  exists res w',
    Channel.setChannel Scenario.envRefusing Scenario.channelManager0 "staging"
      Scenario.worldBeta = (Model.Done res, w')
    /\ Channel.status res = "error"
    /\ Model.channel (Model.store w') = Some "beta".
Proof.
  destruct (setChannel_persists Scenario.envRefusing Scenario.channelManager0
              "staging" Scenario.worldBeta) as [(res & w' & E & _ & Hbody) _].
  exists res, w'. split; [exact E |].
  destruct (Hbody _ eq_refl eq_refl) as [_ Hother].
  destruct Hother as (Hs & _ & Hst); [discriminate | discriminate |].
  split; [exact Hst | now rewrite Hs].
Defined.

(** C7 (as stated) fails: the endpoint answers 200 with a body that has
    no [status] field, so the status field is neither [ok] nor
    [success]; yet the requested channel is stored and saved. *)
Lemma channel_stored_without_status_field :
  (∅ : Js.object) !! "status" = None
  /\ exists res w',
       Channel.setChannel Scenario.envAccepting Scenario.channelManager0 "staging"
         Scenario.worldBeta = (Model.Done res, w')
       /\ Model.channel (Model.store w') = Some "staging"
       /\ Model.channel (Model.disk w') = Some "staging".
Proof.
  split; [reflexivity |].
  do 2 eexists. split; [vm_compute; reflexivity |]. split; reflexivity.
Qed.

(** The endpoint accepts and the save is refused: the method reports
    the status [error], the channel is changed in memory, and the
    storage file still has the old one. *)
Example setChannel_save_refused :
  exists w',
    Channel.setChannel Scenario.envSaveRefused Scenario.channelManager0 "staging"
      Scenario.worldBeta
    = (Model.Done (Channel.mkChannelRes "error" (Some "EACCES: storage") None), w')
    /\ Model.channel (Model.store w') = Some "staging"
    /\ Model.channel (Model.disk w') = None.
Proof. eexists. split; [vm_compute; reflexivity |]. split; reflexivity. Qed.

Section Telemetry.
Import Model Props.
Context (env : Env).

Lemma sameButTelemetry_refl w : sameButTelemetry w w.
Proof. repeat split. Qed.

Lemma sameButTelemetry_trans w1 w2 w3 :
  sameButTelemetry w1 w2 -> sameButTelemetry w2 w3 -> sameButTelemetry w1 w3.
Proof.
  unfold sameButTelemetry. intros H1 H2.
  destruct H1 as (? & ? & ? & ? & ? & ? & ? & ?).
  destruct H2 as (? & ? & ? & ? & ? & ? & ? & ?).
  repeat split; congruence.
Qed.

(** Whatever happens to the request, [sendEvent] completes normally and
    touches nothing but the request log and the console. *)
Lemma sendEvent_quiet sm payload w :
  exists w', Stats.sendEvent env sm payload w = (Done tt, w')
             /\ sameButTelemetry w w'.
Proof.
  unfold Stats.sendEvent. destruct (enabled sm); simpl.
  2:{ exists w. split; [reflexivity | apply sameButTelemetry_refl]. }
  unfold tryCatch, Stats.makeRequest, bind at 1, newURL.
  destruct (urlOk env (smStatsUrl sm)).
  - unfold ret at 1, bind, fetch.
    destruct (statsServer env _ _);
      eexists; (split; [reflexivity | repeat split]).
  - eexists. split; [reflexivity | repeat split].
Qed.

Lemma sendEvent_disabled appId defaultChannel keyId timeout payload w :
  Stats.sendEvent env (Stats.new "" appId defaultChannel keyId timeout) payload w
  = (Done tt, w).
Proof. reflexivity. Qed.

Lemma download_isolated fuel options w c :
  components (updater w) = Some c ->
  let onProgress := Some (fun percent bundle => [EvDownload percent bundle]) in
  (forall b w1,
      Downloader.downloadBundle env fuel options onProgress w = (Done b, w1) ->
      exists w', Coordinator.download env fuel options w = (Done b, w')
                 /\ sameButTelemetry w1 w')
  /\ (forall e w1,
        Downloader.downloadBundle env fuel options onProgress w = (Throw e, w1) ->
        exists w', Coordinator.download env fuel options w = (Throw e, w')
                   /\ files w' = files w1 /\ store w' = store w1
                   /\ disk w' = disk w1
                   /\ emitted w' = EvDownloadFailed (optVersion options) :: emitted w1).
Proof.
  intros Hc onProgress.
  assert (Hu : Coordinator.download env fuel options w
               = Coordinator.downloadWith env c fuel options w).
  { unfold Coordinator.download, bind, gets. now rewrite Hc. }
  rewrite Hu. unfold Coordinator.downloadWith. split.
  - intros b w1 H.
    destruct (sendEvent_quiet (statsManager c)
                (Stats.mkPayload DOWNLOAD_COMPLETE (Some (optVersion options)) None
                                 (Some (id b)) None) w1) as (w' & E & Hsame).
    exists w'. split; [| exact Hsame].
    apply tryCatch_done. rewrite (bind_done _ _ _ _ _ H).
    unfold Stats.sendDownloadComplete. now rewrite (bind_done _ _ _ _ _ E).
  - intros e w1 H.
    destruct (sendEvent_quiet (statsManager c)
                (Stats.mkPayload DOWNLOAD_FAILED (Some (optVersion options)) None
                                 None (Some (errorMessage e))) w1)
      as (w' & E & Hsame).
    destruct Hsame as (Hf & _ & Hs & Hd & _ & He & _).
    eexists. split.
    + erewrite tryCatch_throw; [| apply bind_throw; exact H].
      unfold Stats.sendDownloadFailed. rewrite (bind_done _ _ _ _ _ E).
      reflexivity.
    + simpl. rewrite He. auto.
Qed.

(** [notifyAppReady] up to the call of the bundle manager: the
    watchdog is disarmed, which changes the updater and the host
    only. *)
Lemma notifyAppReady_start w c :
  components (updater w) = Some c ->
  exists w2,
    reachOf w2 = reachOf w /\ emitted w2 = emitted w
    /\ Coordinator.notifyAppReady env w
       = bind (call (markBundleSuccessful env))
           (fun _ =>
              bind (gets (fun w => Coordinator.current env (store w)))
                (fun bundle =>
                   bind (Stats.sendUpdateSuccess env (statsManager c)
                           (version bundle) (id bundle))
                     (fun _ => bind (emit (EvAppReady bundle))
                                 (fun _ => ret bundle)))) w2.
Proof.
  intros Hc. unfold Coordinator.notifyAppReady, bind at 1, gets at 1.
  set (w1 := snd ((match appReadyTimeout (updater w) with
                   | Some timer =>
                       modify (setHost (Coordinator.setTimeouts
                                          (Coordinator.clearTimer timer)))
                   | None => ret tt
                   end) w)).
  exists (setUpdater (Coordinator.withAppReady true None) w1).
  assert (Hw1 : reachOf w1 = reachOf w /\ emitted w1 = emitted w)
    by (subst w1; destruct (appReadyTimeout (updater w)); auto).
  destruct Hw1 as (Hr1 & He1).
  split; [exact Hr1 |]. split; [exact He1 |].
  erewrite bind_done with (w1 := w1);
    [| subst w1; destruct (appReadyTimeout (updater w)); reflexivity].
  erewrite bind_done; [| reflexivity]. now rewrite Hc.
Qed.

(** [notifyAppReady] ends as [markBundleSuccessful] lets it: when that
    call completes, so does [notifyAppReady], with the current bundle
    and the event [appReady]; when it throws or does not settle,
    neither does [notifyAppReady], and no event is emitted and no stats
    request made. *)
Lemma notifyAppReady_isolated w c r x :
  components (updater w) = Some c ->
  markBundleSuccessful env (reachOf w) = (r, x) ->
  exists w',
    store w' = reachStore x /\ disk w' = reachDisk x
    /\ match r with
       | Done _ =>
           let bundle := Coordinator.current env (reachStore x) in
           Coordinator.notifyAppReady env w = (Done bundle, w')
           /\ emitted w' = EvAppReady bundle :: emitted w
       | Throw e =>
           Coordinator.notifyAppReady env w = (Throw e, w')
           /\ emitted w' = emitted w /\ net w' = reachNet x
       | Diverge =>
           Coordinator.notifyAppReady env w = (Diverge, w')
           /\ emitted w' = emitted w /\ net w' = reachNet x
       end.
Proof.
  intros Hc Hmark.
  destruct (notifyAppReady_start w c Hc) as (w2 & Hr & He & ->).
  assert (Hcall : call (markBundleSuccessful env) w2 = (r, withReach x w2)).
  { unfold call. now rewrite Hr, Hmark. }
  destruct r as [[] | e |].
  - rewrite (bind_done _ _ _ _ _ Hcall).
    erewrite bind_done; [| reflexivity].
    cbn [store withReach].
    match goal with |- context [bind (Stats.sendUpdateSuccess _ ?sm ?v ?b) _ ?w0] =>
      destruct (sendEvent_quiet sm
                  (Stats.mkPayload UPDATE_SUCCESS (Some v) None (Some b) None) w0)
        as (w' & E & Hsame) end.
    destruct Hsame as (_ & _ & Hs & Hd & _ & Hev & _).
    unfold Stats.sendUpdateSuccess. rewrite (bind_done _ _ _ _ _ E).
    eexists. split; [| split; [| split; [reflexivity |]]]; simpl.
    + now rewrite Hs.
    + now rewrite Hd.
    + rewrite Hev. cbn [emitted withReach]. now rewrite He.
  - rewrite (bind_throw _ _ _ _ _ Hcall).
    eexists. split; [| split; [| split; [reflexivity |]]]; simpl; auto.
  - rewrite (bind_diverge _ _ _ _ Hcall).
    eexists. split; [| split; [| split; [reflexivity |]]]; simpl; auto.
Qed.

(** C6: a stats manager built with an empty [statsUrl], or given one by
    [setStatsUrl], sends no request at all; whatever becomes of the
    stats request (a transport error, a non-2xx response, a URL that
    cannot be used), [sendEvent] and its four wrappers complete
    normally and change neither the store, nor the storage file, nor
    the events emitted; the result, the store and the events of
    [download] are those that the download decides, and the result,
    the store and the events of [notifyAppReady] are those that the
    bundle manager decides, by completing or by failing, whatever the
    stats endpoint does. *)
Theorem telemetry_isolated :
  (forall appId defaultChannel keyId timeout sm payload w,
      Stats.sendEvent env (Stats.new "" appId defaultChannel keyId timeout) payload w
      = (Done tt, w)
      /\ Stats.sendEvent env (Stats.setStatsUrl "" sm) payload w = (Done tt, w))
  /\ (forall sm payload w,
        exists w', Stats.sendEvent env sm payload w = (Done tt, w')
                   /\ sameButTelemetry w w')
  /\ (forall sm version bundleId message w,
        (exists w', Stats.sendDownloadComplete env sm version bundleId w
                    = (Done tt, w') /\ sameButTelemetry w w')
        /\ (exists w', Stats.sendDownloadFailed env sm version message w
                       = (Done tt, w') /\ sameButTelemetry w w')
        /\ (exists w', Stats.sendUpdateSuccess env sm version bundleId w
                       = (Done tt, w') /\ sameButTelemetry w w')
        /\ (exists w', Stats.sendUpdateFailed env sm version bundleId message w
                       = (Done tt, w') /\ sameButTelemetry w w'))
  /\ (forall fuel options w c,
        components (updater w) = Some c ->
        let onProgress := Some (fun percent bundle => [EvDownload percent bundle]) in
        (forall b w1,
            Downloader.downloadBundle env fuel options onProgress w = (Done b, w1) ->
            exists w', Coordinator.download env fuel options w = (Done b, w')
                       /\ sameButTelemetry w1 w')
        /\ (forall e w1,
              Downloader.downloadBundle env fuel options onProgress w
              = (Throw e, w1) ->
              exists w', Coordinator.download env fuel options w = (Throw e, w')
                         /\ files w' = files w1 /\ store w' = store w1
                         /\ disk w' = disk w1
                         /\ emitted w'
                            = EvDownloadFailed (optVersion options) :: emitted w1))
  /\ (forall w c r x,
        components (updater w) = Some c ->
        markBundleSuccessful env (reachOf w) = (r, x) ->
        exists w',
          store w' = reachStore x /\ disk w' = reachDisk x
          /\ match r with
             | Done _ =>
                 let bundle := Coordinator.current env (reachStore x) in
                 Coordinator.notifyAppReady env w = (Done bundle, w')
                 /\ emitted w' = EvAppReady bundle :: emitted w
             | Throw e =>
                 Coordinator.notifyAppReady env w = (Throw e, w')
                 /\ emitted w' = emitted w /\ net w' = reachNet x
             | Diverge =>
                 Coordinator.notifyAppReady env w = (Diverge, w')
                 /\ emitted w' = emitted w /\ net w' = reachNet x
             end).
Proof.
  split; [| split; [| split; [| split]]].
  - intros. split; reflexivity.
  - apply sendEvent_quiet.
  - intros. repeat split; apply sendEvent_quiet.
  - apply download_isolated.
  - apply notifyAppReady_isolated.
Qed.

End Telemetry.

(** An instance: the stats endpoint cannot be reached
    while a download fails; the caller gets the download error, and the
    only event is [downloadFailed]. *)
Lemma telemetry_isolated_witness :
  exists w',
    Coordinator.download Scenario.envMissing 5 Scenario.options0 Scenario.worldReady
    = (Model.Throw (Model.JsError "Download failed with status 404"), w')
    /\ Model.emitted w' = [Model.EvDownloadFailed "1.0.1"]
    /\ Model.bundles (Model.store w') = ∅.
Proof.
  destruct (telemetry_isolated Scenario.envMissing) as (_ & _ & _ & Hdl & _).
  destruct (Hdl 5 Scenario.options0 Scenario.worldReady _ eq_refl) as [_ Hfail].
  pose (w1 := snd (Downloader.downloadBundle Scenario.envMissing 5 Scenario.options0
                     (Some (fun percent bundle => [Model.EvDownload percent bundle]))
                     Scenario.worldReady)).
  destruct (Hfail (Model.JsError "Download failed with status 404") w1)
    as (w' & E & _ & Hs & _ & He); [vm_compute; reflexivity |].
  exists w'. split; [exact E |]. split; [rewrite He | rewrite Hs]; reflexivity.
Defined.

Section Initialization.
Import Model Coordinator.
Context (env : Env).

(** A call of [initialize] that completes leaves the flag set. *)
Lemma initialize_sets_flag window builtin w w1 :
  initialize env window builtin w = (Done tt, w1) ->
  initialized (updater w1) = true.
Proof.
  intros H. unfold initialize in H.
  apply bind_done_inv in H as (u & w0 & Hu & H). inversion Hu; subst u w0.
  destruct (initialized (updater w)) eqn:I.
  - inversion H; subst. exact I.
  - do 8 (apply bind_done_inv in H as (? & ? & _ & H)).
    apply bind_done_inv in H as ([] & w9 & H9 & H). inversion H9; subst w9.
    apply bind_done_inv in H as (c & w10 & H10 & H). inversion H10; subst.
    destruct (negb _); inversion H; reflexivity.
Qed.

(** Once the flag is set, [initialize] returns at once. *)
Lemma initialize_returns_at_once window builtin w :
  initialized (updater w) = true ->
  initialize env window builtin w = (Done tt, w).
Proof.
  intros I. unfold initialize, bind, gets. now rewrite I.
Qed.

(** C9: after a call of [initialize] has completed, every further call,
    with the same or with other arguments, returns at once and leaves
    everything as it is: no component is created again, no window or
    quit listener is registered again, no pending update is applied
    again and the periodic check is not scheduled again; two calls in
    sequence have the effect of one. *)
Theorem initialize_idempotent window builtin w w1 :
  initialize env window builtin w = (Done tt, w1) ->
  initialized (updater w1) = true
  /\ (forall window' builtin',
        initialize env window' builtin' w1 = (Done tt, w1))
  /\ bind (initialize env window builtin)
          (fun _ => initialize env window builtin) w
     = initialize env window builtin w.
Proof.
  intros H. pose proof (initialize_sets_flag _ _ _ _ H) as I.
  split; [exact I |]. split.
  - intros window' builtin'. now apply initialize_returns_at_once.
  - rewrite (bind_done _ _ _ _ _ H), H. now apply initialize_returns_at_once.
Qed.

End Initialization.

(** An instance: on a restart with a bundle waiting, the first call
    registers the two window listeners and the quit listener, applies
    the pending bundle and loads it; the second call returns at once:
    nothing is registered, applied or loaded again. *)
Lemma initialize_idempotent_witness :
  exists w1,
    Coordinator.initialize Scenario.envOffline "main" "/app/www/index.html"
      Scenario.worldPending = (Model.Done tt, w1)
    /\ Model.windowListeners (Model.host w1) = [("main", "blur"); ("main", "focus")]
    /\ Model.appListeners (Model.host w1) = ["before-quit"]
    /\ Model.loaded (Model.host w1) = ["/app/www/index.html"]
    /\ Model.currentBundleId (Model.store w1) = Some "b7"
    /\ Coordinator.initialize Scenario.envOffline "main" "/app/www/index.html" w1
       = (Model.Done tt, w1).
Proof.
  pose (w1 := snd (Coordinator.initialize Scenario.envOffline "main"
                     "/app/www/index.html" Scenario.worldPending)).
  assert (H : Coordinator.initialize Scenario.envOffline "main" "/app/www/index.html"
                Scenario.worldPending = (Model.Done tt, w1))
    by (vm_compute; reflexivity).
  exists w1. split; [exact H |].
  do 4 (split; [vm_compute; reflexivity |]).
  pose proof (initialize_idempotent Scenario.envOffline "main" "/app/www/index.html"
                Scenario.worldPending w1 H) as (_ & Hagain & _).
  exact (Hagain _ _).
Defined.

(* ===================================================================== *)
(** ** Further properties *)
(* ===================================================================== *)

Section ChannelOps.
Import Model Channels Props Props2.
Context (env : Env).

Lemma makeRequest_ok cm method action chan w body :
  urlOk env (cmChannelUrl cm) = true ->
  channelServer env (length (net w))
    (ChannelRequest method (cmChannelUrl cm) action chan) = FetchOk body ->
  Channel.makeRequest env cm method action chan w
  = (Done body, addRequest (ChannelRequest method (cmChannelUrl cm) action chan) w).
Proof.
  intros U C. unfold Channel.makeRequest, bind, newURL, fetch. rewrite U.
  unfold ret. cbv beta iota. now rewrite C.
Qed.

(** Every run of [makeRequest] leaves the store and the storage file. *)
Lemma makeRequest_store cm method action chan w r w' :
  Channel.makeRequest env cm method action chan w = (r, w') ->
  store w' = store w /\ disk w' = disk w /\ saves w' = saves w.
Proof.
  unfold Channel.makeRequest, bind, newURL, fetch.
  destruct (urlOk env (cmChannelUrl cm)); unfold ret, throw.
  - destruct (channelServer env _ _); intros H; inversion H; auto.
  - intros H; inversion H; auto.
Qed.

Lemma makeRequest_not_diverge cm method action chan w w' :
  Channel.makeRequest env cm method action chan w <> (Diverge, w').
Proof.
  unfold Channel.makeRequest, bind, newURL, fetch.
  destruct (urlOk env (cmChannelUrl cm)); unfold ret, throw.
  - destruct (channelServer env _ _); discriminate.
  - discriminate.
Qed.

(** X1: [unsetChannel] clears the locally stored channel whatever the
    channel endpoint does (it may be unreachable, refuse, or answer
    anything): the in-memory store ends with no channel and is otherwise
    unchanged; the call completes and the storage file has no channel
    when the save succeeds, and it throws the save error, with the
    storage file as it was, when the save fails. *)
Theorem unsetChannel_always_clears cm w :
  exists r w',
    unsetChannel env cm w = (r, w')
    /\ store w' = withChannel None (store w)
    /\ (ioFails env (OpSave (saves w)) = false ->
        r = Done tt /\ disk w' = withChannel None (store w))
    /\ (ioFails env (OpSave (saves w)) = true ->
        r = Throw (IoError (OpSave (saves w))) /\ disk w' = disk w).
Proof.
  unfold unsetChannel.
  assert (exists w1,
             tryCatch (_ <- Channel.makeRequest env cm POST (Some "unset") None ;; ret tt)%M
                      (fun _ => ret tt) w = (Done tt, w1)
             /\ store w1 = store w /\ disk w1 = disk w /\ saves w1 = saves w)
    as (w1 & E & Hs & Hd & Hn).
  { destruct (Channel.makeRequest env cm POST (Some "unset") None w)
      as [[body | e |] w1] eqn:R.
    - exists w1. split; [| exact (makeRequest_store _ _ _ _ _ _ _ R)].
      apply tryCatch_done. now rewrite (bind_done _ _ _ _ _ R).
    - exists w1. split; [| exact (makeRequest_store _ _ _ _ _ _ _ R)].
      erewrite tryCatch_throw; [reflexivity |]. apply bind_throw. exact R.
    - now apply makeRequest_not_diverge in R. }
  rewrite (bind_done _ _ _ _ _ E).
  erewrite bind_done; [| reflexivity].
  destruct (ioFails env (OpSave (saves w))) eqn:S1.
  - erewrite save_fails; [| simpl; rewrite Hn; exact S1].
    do 2 eexists. split; [reflexivity |]. simpl. rewrite Hs, Hd, Hn.
    split; [reflexivity |]. split; [discriminate | auto].
  - erewrite save_ok; [| simpl; rewrite Hn; exact S1].
    do 2 eexists. split; [reflexivity |]. simpl. rewrite Hs.
    split; [reflexivity |]. split; [auto | discriminate].
Qed.

Lemma property_readable ch key w :
  readable ch = true -> exists v, property ch key w = (Done v, w).
Proof. destruct ch; try discriminate; intros _; eexists; reflexivity. Qed.

Lemma channelInfo_readable ch w :
  readable ch = true -> exists info, channelInfo ch w = (Done info, w).
Proof.
  intros H. unfold channelInfo.
  destruct (property_readable ch "id" w H) as [v1 E1].
  destruct (property_readable ch "name" w H) as [v2 E2].
  destruct (property_readable ch "public" w H) as [v3 E3].
  destruct (property_readable ch "allow_self_set" w H) as [v4 E4].
  destruct (property_readable ch "allow_set" w H) as [v5 E5].
  rewrite (bind_done _ _ _ _ _ E1), (bind_done _ _ _ _ _ E2),
    (bind_done _ _ _ _ _ E3), (bind_done _ _ _ _ _ E4), (bind_done _ _ _ _ _ E5).
  eexists. reflexivity.
Qed.

Lemma channelInfo_null w :
  exists e, channelInfo Js.VNull w = (Throw e, w).
Proof. eexists. reflexivity. Qed.

(** The map over the channels: one record per element, in order, when
    every element is readable; a thrown error as soon as one is not. *)
Lemma mapM_channelInfo items : forall w,
  (forallb readable items = true ->
   exists infos, mapM channelInfo items w = (Done infos, w)
                 /\ length infos = length items)
  /\ (forallb readable items = false ->
      exists e, mapM channelInfo items w = (Throw e, w)).
Proof.
  induction items as [| ch rest IH]; intros w; simpl.
  - split; [| discriminate]. intros _. exists []. auto.
  - destruct (IH w) as [IHok IHbad]. destruct (readable ch) eqn:R; simpl.
    + destruct (channelInfo_readable ch w R) as [info E]. split.
      * intros H. destruct (IHok H) as (infos & E' & L).
        exists (info :: infos). rewrite (bind_done _ _ _ _ _ E).
        rewrite (bind_done _ _ _ _ _ E'). simpl. auto.
      * intros H. destruct (IHbad H) as (e & E').
        exists e. rewrite (bind_done _ _ _ _ _ E). now apply bind_throw.
    + split; [discriminate |]. intros _. destruct ch; try discriminate.
      destruct (channelInfo_null w) as [e E]. exists e. now apply bind_throw.
Qed.

(** X2: [listChannels] never throws and never touches the store. It
    answers the empty list on any transport failure, when the response
    has no array under [channels], and when one element of that array is
    [null] (reading its properties throws, and the error is caught);
    otherwise it answers one channel per element of the array. *)
Theorem listChannels_total cm w :
  let req := ChannelRequest GET (cmChannelUrl cm) (Some "list") None in
  exists infos w',
    listChannels env cm w = (Done infos, w')
    /\ store w' = store w /\ disk w' = disk w
    /\ (urlOk env (cmChannelUrl cm) = false
        \/ transportFailure (channelServer env (length (net w)) req) = true ->
        infos = [])
    /\ (forall body,
          urlOk env (cmChannelUrl cm) = true ->
          channelServer env (length (net w)) req = FetchOk body ->
          (forallb readable (rawChannels body) = true ->
           length infos = length (rawChannels body))
          /\ (forallb readable (rawChannels body) = false -> infos = [])).
Proof.
  intros req. unfold listChannels.
  destruct (urlOk env (cmChannelUrl cm)) eqn:U.
  2:{ destruct (makeRequest_fails env cm GET (Some "list") None w (or_introl U))
        as (e & w' & E & Hs & Hd).
      erewrite tryCatch_throw; [| apply bind_throw; exact E].
      do 2 eexists. split; [reflexivity |]. repeat split; auto; discriminate. }
  destruct (channelServer env (length (net w)) req) as [body | code text | m] eqn:C.
  - pose proof (makeRequest_ok cm GET (Some "list") None w body U C) as E.
    fold req in E.
    destruct (mapM_channelInfo (rawChannels body) (addRequest req w)) as [Hok Hbad].
    destruct (forallb readable (rawChannels body)) eqn:R.
    + destruct (Hok eq_refl) as (infos & E' & L).
      erewrite tryCatch_done; [| rewrite (bind_done _ _ _ _ _ E); exact E'].
      exists infos. eexists. split; [reflexivity |].
      split; [reflexivity |]. split; [reflexivity |].
      split; [intros [? | ?]; discriminate |].
      intros body' _ Hb. inversion Hb; subst body'. rewrite R.
      split; [auto | discriminate].
    + destruct (Hbad eq_refl) as (e & E').
      erewrite tryCatch_throw; [| rewrite (bind_done _ _ _ _ _ E); exact E'].
      do 2 eexists. split; [reflexivity |].
      split; [reflexivity |]. split; [reflexivity |].
      split; [intros [? | ?]; discriminate |].
      intros body' _ Hb. inversion Hb; subst body'. rewrite R.
      split; [discriminate | auto].
  - destruct (makeRequest_fails env cm GET (Some "list") None w)
      as (e & w' & E & Hs & Hd); [right; fold req; now rewrite C |].
    erewrite tryCatch_throw; [| apply bind_throw; exact E].
    do 2 eexists. split; [reflexivity |]. repeat split; auto; discriminate.
  - destruct (makeRequest_fails env cm GET (Some "list") None w)
      as (e & w' & E & Hs & Hd); [right; fold req; now rewrite C |].
    erewrite tryCatch_throw; [| apply bind_throw; exact E].
    do 2 eexists. split; [reflexivity |]. repeat split; auto; discriminate.
Qed.

Lemma unsetChannel_store cm w r w' :
  unsetChannel env cm w = (r, w') -> store w' = withChannel None (store w).
Proof.
  intros H. unfold unsetChannel in H.
  assert (T : exists w1,
             tryCatch (bind (Channel.makeRequest env cm POST (Some "unset") None)
                            (fun _ => ret tt)) (fun _ => ret tt) w = (Done tt, w1)
             /\ store w1 = store w).
  { destruct (Channel.makeRequest env cm POST (Some "unset") None w)
      as [[body | e |] w1] eqn:Rq.
    - exists w1. split; [| exact (proj1 (makeRequest_store _ _ _ _ _ _ _ Rq))].
      apply tryCatch_done. now rewrite (bind_done _ _ _ _ _ Rq).
    - exists w1. split; [| exact (proj1 (makeRequest_store _ _ _ _ _ _ _ Rq))].
      erewrite tryCatch_throw; [reflexivity |]. apply bind_throw. exact Rq.
    - now apply makeRequest_not_diverge in Rq. }
  destruct T as (w1 & T & Hs).
  rewrite (bind_done _ _ _ _ _ T) in H.
  erewrite bind_done in H; [| reflexivity].
  unfold save in H. destruct (ioFails env _); inversion H; subst; simpl;
    now rewrite Hs.
Qed.

(** A call of [setChannel] that reports [ok] or [success] has stored the
    channel and saved the store. *)
Lemma setChannel_ok_stored cm chan w res w1 :
  Channel.setChannel env cm chan w = (Done res, w1) ->
  Channel.status res = "ok" \/ Channel.status res = "success" ->
  Model.channel (store w1) = Some chan /\ disk w1 = store w1.
Proof.
  intros H Hst. unfold Channel.setChannel, tryCatch in H.
  destruct (Channel.makeRequest env cm POST (Some "set") (Some chan) w)
    as [[body | e |] wr] eqn:Rq.
  - rewrite (bind_done _ _ _ _ _ Rq) in H. cbv zeta in H.
    set (normalized := Js.toString (Js.nullish (body !! "status") (Js.VStr "ok")))
      in H.
    destruct (String.eqb normalized "ok" || String.eqb normalized "success") eqn:T.
    + unfold when in H.
      destruct (ioFails env (OpSave (saves wr))) eqn:S1.
      * erewrite bind_throw in H.
        2:{ erewrite bind_done; [| reflexivity]. apply save_fails. exact S1. }
        inversion H; subst res. simpl in Hst. destruct Hst; discriminate.
      * erewrite bind_done in H.
        2:{ erewrite bind_done; [| reflexivity]. apply save_ok. exact S1. }
        inversion H; subst. auto.
    + unfold when in H. erewrite bind_done in H; [| reflexivity].
      inversion H; subst res. simpl in Hst.
      apply orb_false_iff in T as [T1 T2]. apply String.eqb_neq in T1, T2.
      destruct Hst; contradiction.
  - rewrite (bind_throw _ _ _ _ _ Rq) in H.
    inversion H; subst res. simpl in Hst. destruct Hst; discriminate.
  - rewrite (bind_diverge _ _ _ _ Rq) in H. discriminate.
Qed.

(** X3: the local channel makes a round trip through the store: after a
    [setChannel] that reports [ok] or [success], the effective channel
    is the one that was set; after any [unsetChannel], whatever the
    endpoint and the save do, the effective channel is the configured
    default again. *)
Theorem effective_channel_round_trip cm chan w res w1 :
  Channel.setChannel env cm chan w = (Done res, w1) ->
  Channel.status res = "ok" \/ Channel.status res = "success" ->
  getEffectiveChannel cm w1 = (Done (Some chan), w1)
  /\ forall r w2,
       unsetChannel env cm w1 = (r, w2) ->
       getEffectiveChannel cm w2 = (Done (cmDefaultChannel cm), w2).
Proof.
  intros H Hst. destruct (setChannel_ok_stored cm chan w res w1 H Hst) as [Hc _].
  split.
  - unfold getEffectiveChannel, gets. now rewrite Hc.
  - intros r w2 Hu. apply unsetChannel_store in Hu.
    unfold getEffectiveChannel, gets. now rewrite Hu.
Qed.

(** X4: [getChannel] only reads. Whatever the endpoint answers, the
    call completes without an error and leaves the store and the
    storage file as they are, so the channel the server reports is
    never stored; and when the answer carries no channel (the key is
    missing or [null]), the channel returned is the effective local
    one, as on a failure. *)
Theorem getChannel_read_only cm w :
  exists res w',
    Channel.getChannel env cm w = (Done res, w')
    /\ store w' = store w
    /\ disk w' = disk w
    /\ (forall body,
          urlOk env (cmChannelUrl cm) = true ->
          channelServer env (length (net w))
            (ChannelRequest GET (cmChannelUrl cm) None None) = FetchOk body ->
          Js.notNull (body !! "channel") = false ->
          getEffectiveChannel cm w' = (Done (Channel.channel res), w')).
Proof.
  unfold Channel.getChannel.
  destruct (Channel.makeRequest env cm GET None None w) as [[body | e |] w1] eqn:Rq.
  - pose proof (makeRequest_store _ _ _ _ _ _ _ Rq) as (Hs & Hd & _).
    erewrite tryCatch_done.
    2:{ rewrite (bind_done _ _ _ _ _ Rq). erewrite bind_done; reflexivity. }
    do 2 eexists. split; [reflexivity |]. split; [exact Hs |]. split; [exact Hd |].
    intros body' U C N. rewrite (makeRequest_ok cm GET None None w body' U C) in Rq.
    inversion Rq; subst body' w1. simpl. rewrite N.
    unfold getEffectiveChannel, gets. reflexivity.
  - pose proof (makeRequest_store _ _ _ _ _ _ _ Rq) as (Hs & Hd & _).
    erewrite tryCatch_throw; [| apply bind_throw; exact Rq].
    do 2 eexists. split; [reflexivity |]. split; [exact Hs |]. split; [exact Hd |].
    intros body' U C N. rewrite (makeRequest_ok cm GET None None w body' U C) in Rq.
    discriminate.
  - now apply makeRequest_not_diverge in Rq.
Qed.

End ChannelOps.

(** An instance: the endpoint answers with an empty object; the device
    has the channel [beta] stored. *)
Lemma getChannel_read_only_witness :
  exists res w',
    Channel.getChannel Scenario.envAccepting Scenario.channelManager0
      Scenario.worldBeta = (Model.Done res, w')
    /\ Channel.channel res = Some "beta"
    /\ Model.channel (Model.store w') = Some "beta".
Proof.
  destruct (getChannel_read_only Scenario.envAccepting Scenario.channelManager0
              Scenario.worldBeta) as (res & w' & E & Hs & _ & Hch).
  exists res, w'. split; [exact E |].
  specialize (Hch _ eq_refl eq_refl eq_refl).
  unfold Channels.getEffectiveChannel, Model.gets in Hch. rewrite Hs in Hch.
  split; [| rewrite Hs; reflexivity].
  assert (H : Model.Done (Some "beta") = Model.Done (Channel.channel res))
    by exact (f_equal fst Hch).
  now inversion H.
Defined.

(** An instance: the endpoint cannot be reached; the stored channel
    [beta] is cleared all the same. *)
Lemma unsetChannel_always_clears_witness :
  exists w',
    Channels.unsetChannel Scenario.envOffline Scenario.channelManager0
      Scenario.worldBeta = (Model.Done tt, w')
    /\ Model.channel (Model.store w') = None
    /\ Model.channel (Model.disk w') = None.
Proof.
  destruct (unsetChannel_always_clears Scenario.envOffline Scenario.channelManager0
              Scenario.worldBeta) as (r & w' & E & Hs & Hok & _).
  destruct (Hok eq_refl) as [-> Hd].
  exists w'. split; [exact E |]. rewrite Hs, Hd. split; reflexivity.
Defined.

(** An instance: the endpoint lists two channels. *)
Lemma listChannels_total_witness :
  exists infos w',
    Channels.listChannels Scenario2.envListing Scenario.channelManager0
      Scenario.world0 = (Model.Done infos, w')
    /\ length infos = 2.
Proof.
  destruct (listChannels_total Scenario2.envListing Scenario.channelManager0
              Scenario.world0) as (infos & w' & E & _ & _ & _ & Hbody).
  exists infos, w'. split; [exact E |].
  destruct (Hbody _ eq_refl eq_refl) as [Hlen _]. now rewrite Hlen.
Defined.

(** An instance: the endpoint accepts [staging]; the effective channel
    is [staging], and [production] after the channel has been unset. *)
Lemma effective_channel_round_trip_witness :
  exists res w1 r w2,
    Channel.setChannel Scenario.envAccepting Scenario.channelManager0 "staging"
      Scenario.worldBeta = (Model.Done res, w1)
    /\ Channels.getEffectiveChannel Scenario.channelManager0 w1
       = (Model.Done (Some "staging"), w1)
    /\ Channels.unsetChannel Scenario.envAccepting Scenario.channelManager0 w1
       = (r, w2)
    /\ Channels.getEffectiveChannel Scenario.channelManager0 w2
       = (Model.Done (Some "production"), w2).
Proof.
  pose (out := Channel.setChannel Scenario.envAccepting Scenario.channelManager0
                 "staging" Scenario.worldBeta).
  pose (res := Channel.mkChannelRes "ok" None None).
  assert (H : out = (Model.Done res, snd out)) by (vm_compute; reflexivity).
  destruct (effective_channel_round_trip Scenario.envAccepting
              Scenario.channelManager0 "staging" Scenario.worldBeta res (snd out) H)
    as [Hset Hunset]; [left; reflexivity |].
  pose (out2 := Channels.unsetChannel Scenario.envAccepting Scenario.channelManager0
                  (snd out)).
  exists res, (snd out), (fst out2), (snd out2).
  split; [exact H |]. split; [exact Hset |].
  split; [apply surjective_pairing |].
  apply (Hunset (fst out2) (snd out2)). apply surjective_pairing.
Defined.

(* ===================================================================== *)
(** ** What a computation leaves alone *)
(* ===================================================================== *)

Section Keeping.
Import Model Props2.
Local Open Scope m_scope.
Context (env : Env).
Context (R : World -> World -> Prop).
Hypothesis Rrefl : forall w, R w w.
Hypothesis Rtrans : forall a b c, R a b -> R b c -> R a c.

(** [get] leaves the world as it is or adds a request to it. *)
Lemma get_world u w r w' :
  Downloader.get env u w = (r, w') -> w' = w \/ w' = addRequest (HttpGet u) w.
Proof.
  unfold Downloader.get. destruct (Downloader.accepts env u);
    intros H; inversion H; auto.
Qed.

Lemma keeps_ret {A} (a : A) : keeps R (ret a).
Proof. intros w r w' H. inversion H; subst. apply Rrefl. Qed.

Lemma keeps_throw {A} e : keeps R (@throw A e).
Proof. intros w r w' H. inversion H; subst. apply Rrefl. Qed.

Lemma keeps_diverge {A} : keeps R (@diverge A).
Proof. intros w r w' H. inversion H; subst. apply Rrefl. Qed.

Lemma keeps_gets {A} (f : World -> A) : keeps R (gets f).
Proof. intros w r w' H. inversion H; subst. apply Rrefl. Qed.

Lemma keeps_bind {A B} (m : M A) (k : A -> M B) :
  keeps R m -> (forall a, keeps R (k a)) -> keeps R (bind m k).
Proof.
  intros Hm Hk w r w' H. unfold bind in H.
  destruct (m w) as [[a | e |] w1] eqn:E.
  - eapply Rtrans; [eapply Hm; eauto | eapply Hk; eauto].
  - inversion H; subst. eapply Hm; eauto.
  - inversion H; subst. eapply Hm; eauto.
Qed.

Lemma keeps_bind_throw {A B} e (k : A -> M B) : keeps R (bind (throw e) k).
Proof. intros w r w' H. inversion H; subst. apply Rrefl. Qed.

Lemma keeps_tryCatch {A} (m : M A) h :
  keeps R m -> (forall e, keeps R (h e)) -> keeps R (tryCatch m h).
Proof.
  intros Hm Hh w r w' H. unfold tryCatch in H.
  destruct (m w) as [[a | e |] w1] eqn:E.
  - inversion H; subst. eapply Hm; eauto.
  - eapply Rtrans; [eapply Hm; eauto | eapply Hh; eauto].
  - inversion H; subst. eapply Hm; eauto.
Qed.

Lemma keeps_when b m : keeps R m -> keeps R (when b m).
Proof. intros Hm. destruct b; simpl; [exact Hm | apply keeps_ret]. Qed.

Lemma keeps_forEach {A S} (body : S -> A -> M S) xs :
  (forall acc x, keeps R (body acc x)) -> forall acc, keeps R (forEach body xs acc).
Proof.
  intros Hb. induction xs as [| x rest IH]; intros acc; simpl.
  - apply keeps_ret.
  - apply keeps_bind; auto.
Qed.

Lemma keeps_io op : keeps R (io env op).
Proof.
  intros w r w' H. unfold io in H.
  destruct (ioFails env op); inversion H; subst; apply Rrefl.
Qed.

Lemma keeps_readFile p : keeps R (readFile p).
Proof.
  intros w r w' H. unfold readFile in H.
  destruct (files w !! p); inversion H; subst; apply Rrefl.
Qed.

Lemma keeps_access p : keeps R (access p).
Proof.
  intros w r w' H. unfold access in H.
  destruct (_ || _); inversion H; subst; apply Rrefl.
Qed.

End Keeping.

(** One step through a computation built from the pieces above. *)
Ltac keeps_step :=
  intros; cbv beta zeta;
  lazymatch goal with
  | |- Props2.keeps _ (Model.bind (Model.throw _) _) => apply keeps_bind_throw
  | |- Props2.keeps _ (Model.bind _ _) => apply keeps_bind
  | |- Props2.keeps _ (Model.tryCatch _ _) => apply keeps_tryCatch
  | |- Props2.keeps _ (Model.when _ _) => apply keeps_when
  | |- Props2.keeps _ (Model.forEach _ _ _) => apply keeps_forEach
  | |- Props2.keeps _ (Model.ret _) => apply keeps_ret
  | |- Props2.keeps _ (Model.throw _) => apply keeps_throw
  | |- Props2.keeps _ Model.diverge => apply keeps_diverge
  | |- Props2.keeps _ (Model.gets _) => apply keeps_gets
  | |- Props2.keeps _ (Model.io _ _) => apply keeps_io
  | |- Props2.keeps _ (Model.readFile _) => apply keeps_readFile
  | |- Props2.keeps _ (Model.access _) => apply keeps_access
  | |- Props2.keeps _ (match ?x with _ => _ end) => destruct x eqn:?
  end.
Ltac keeps_go := repeat first [assumption | solve [auto] | keeps_step].

(* ===================================================================== *)
(** ** The download manager: what each step may touch *)
(* ===================================================================== *)

Section DownloaderFrames.
Import Model Downloader Props Props2.
Local Open Scope m_scope.
Context (env : Env).
Context (R : World -> World -> Prop).
Hypothesis Rrefl : forall w, R w w.
Hypothesis Rtrans : forall a b c, R a b -> R b c -> R a c.
(** The paths at which [R] lets a file be written. *)
Context (P : string -> Prop).
Hypothesis Hget : forall u, keeps R (get env u).
Hypothesis Hevents : forall es, keeps R (modify (addEvents es)).
Hypothesis Hdirs : forall p, keeps R (modify (setDirs (fun d => {[p]} ∪ d))).
Hypothesis Hput :
  forall p data, P p -> keeps R (modify (setFiles (fun f => <[p := data]> f))).

Lemma report_keeps cb p : keeps R (report cb p).
Proof. destruct cb; simpl; keeps_go. Qed.

Lemma mkdir_keeps p : keeps R (mkdir env p).
Proof. unfold mkdir. keeps_go. Qed.

Lemma writeFile_keeps p data : P p -> keeps R (writeFile env p data).
Proof. intros Hp. unfold writeFile. keeps_go. Qed.

Lemma receive_keeps cb total chunks : forall done,
  keeps R (receive cb total done chunks).
Proof.
  induction chunks as [| chunk rest IH]; intros done; simpl.
  - keeps_go.
  - keeps_go. apply report_keeps.
Qed.

Lemma downloadFile_keeps dest cb : P dest ->
  forall fuel url, keeps R (downloadFile env fuel url dest cb).
Proof.
  intros Hp. induction fuel as [| fuel IH]; intros url; simpl.
  - keeps_go.
  - keeps_go. apply receive_keeps.
Qed.

Lemma downloadToBuffer_keeps : forall fuel url,
  keeps R (downloadToBuffer env fuel url).
Proof.
  induction fuel as [| fuel IH]; intros url; simpl; keeps_go.
Qed.

Lemma verifyFileChecksum_keeps p expected : keeps R (verifyFileChecksum env p expected).
Proof. unfold verifyFileChecksum. keeps_go. Qed.

Lemma calculateFileChecksum_keeps p : keeps R (calculateFileChecksum env p).
Proof. unfold calculateFileChecksum. keeps_go. Qed.

Lemma checkFileInCache_keeps p hash : keeps R (checkFileInCache env p hash).
Proof. unfold checkFileInCache. keeps_go. apply verifyFileChecksum_keeps. Qed.

Lemma decryptFile_keeps p key : P p -> keeps R (decryptFile env p key).
Proof. intros Hp. unfold decryptFile. keeps_go. Qed.

Lemma manifestEntry_keeps fuel total dest cb completed entry :
  (forall p, inside dest p = true -> P p) ->
  keeps R (manifestEntry env fuel total dest cb completed entry).
Proof.
  intros Hin. unfold manifestEntry.
  destruct (Js.present (file_name entry)) as [name |]; [| keeps_go].
  destruct (Js.present (download_url entry)) as [downloadUrl |]; [| keeps_go].
  cbv zeta.
  destruct (isPathSafe (Path.join [dest; name]) dest) eqn:Safe; simpl;
    [| keeps_go].
  pose proof (Hin _ (isPathSafe_inside _ _ Safe)) as Hp.
  pose proof mkdir_keeps. pose proof checkFileInCache_keeps.
  pose proof report_keeps. pose proof downloadToBuffer_keeps.
  pose proof verifyFileChecksum_keeps. pose proof (fun data => writeFile_keeps _ data Hp).
  keeps_go.
Qed.

Lemma downloadManifestFiles_keeps fuel manifest dest key cb :
  (forall p, inside dest p = true -> P p) ->
  keeps R (downloadManifestFiles env fuel manifest dest key cb).
Proof.
  intros Hin. unfold downloadManifestFiles. cbv zeta.
  apply keeps_forEach; auto. intros. now apply manifestEntry_keeps.
Qed.

Lemma onEntry_keeps dir e : keeps R (onEntry dir e).
Proof.
  unfold onEntry. cbv zeta.
  destruct (negb (isPathSafe _ _)); [apply keeps_throw; auto |].
  destruct (Path.isAbsolute _); [apply keeps_throw | apply keeps_ret]; auto.
Qed.

Lemma readEntry_keeps raw : keeps R (readEntry raw).
Proof.
  unfold readEntry. cbv zeta.
  destruct (validateFileName _); [apply keeps_throw | apply keeps_ret]; auto.
Qed.

(** The extraction, when [R] lets a file be written anywhere. *)
Lemma extractEntry_keeps dir0 dir e :
  (forall p, P p) -> keeps R (extractEntry env dir (onEntry dir0) e).
Proof.
  intros Hp. unfold extractEntry. cbv zeta.
  pose proof mkdir_keeps. pose proof (fun p data => writeFile_keeps p data (Hp p)).
  pose proof onEntry_keeps.
  destruct (Path.endsWithSep _); keeps_go.
Qed.

Lemma onZipEntry_keeps dir0 dir e :
  (forall p, P p) -> keeps R (onZipEntry env dir (onEntry dir0) e).
Proof.
  intros Hp. unfold onZipEntry. cbv zeta.
  pose proof mkdir_keeps. pose proof (fun e => extractEntry_keeps dir0 dir e Hp).
  destruct (Path.startsWith _ _); [keeps_go |].
  destruct (existsb _ _); keeps_go.
Qed.

Lemma extractEntries_keeps dir0 dir entries :
  (forall p, P p) -> keeps R (extractEntries env dir (onEntry dir0) entries).
Proof.
  intros Hp. unfold extractEntries.
  pose proof readEntry_keeps. pose proof (fun e => onZipEntry_keeps dir0 dir e Hp).
  apply keeps_forEach; auto. intros. keeps_go.
Qed.

Lemma extractZip_keeps zipPath dir :
  (forall p, P p) -> keeps R (extractZip env zipPath dir (onEntry dir)).
Proof.
  intros Hp. unfold extractZip. cbv zeta.
  pose proof mkdir_keeps.
  pose proof (fun entries => extractEntries_keeps dir (Path.resolve dir) entries Hp).
  destruct (negb (Path.isAbsolute dir)); keeps_go.
Qed.

Lemma extractZipSecurely_keeps zipPath dir :
  (forall p, P p) -> keeps R (extractZipSecurely env zipPath dir).
Proof.
  intros Hp. unfold extractZipSecurely.
  pose proof mkdir_keeps. pose proof (extractZip_keeps zipPath dir Hp).
  keeps_go.
Qed.

End DownloaderFrames.

Section BundleFrames.
Import Model Downloader Props Props2.
Local Open Scope m_scope.
Context (env : Env).
Context (R : World -> World -> Prop).
Hypothesis Rrefl : forall w, R w w.
Hypothesis Rtrans : forall a b c, R a b -> R b c -> R a c.
(** [R] does not look at the file system, at the requests or at the
    events; it bears with a save and with a change of the record of the
    bundle being downloaded. *)
Hypothesis Hget : forall u, keeps R (get env u).
Hypothesis Hevents : forall es, keeps R (modify (addEvents es)).
Hypothesis Hdirs : forall p, keeps R (modify (setDirs (fun d => {[p]} ∪ d))).
Hypothesis Hfiles : forall f, keeps R (modify (setFiles f)).
Hypothesis Hrm : forall p, keeps R (rm env p).
Hypothesis Hset : forall b, keeps R (setBundle (generateBundleId env) b).
Hypothesis Hdelete : keeps R (deleteBundle (generateBundleId env)).
Hypothesis Hsave : keeps R (save env).

Lemma unlink_keeps p : keeps R (unlink env p).
Proof. unfold unlink. keeps_go. Qed.

Lemma catchBlock_frame info e :
  keeps R (catchBlock env (generateBundleId env)
             (getBundlePath env (generateBundleId env)) info e).
Proof. unfold catchBlock. cbv zeta. keeps_go. Qed.

Lemma fetchAndVerify_keeps fuel options cb zipPath info :
  keeps R (fetchAndVerify env fuel options cb zipPath info).
Proof.
  unfold fetchAndVerify.
  pose proof (fun url => downloadFile_keeps env R Rrefl Rtrans (fun _ => True)
                Hget Hevents (fun p data _ => Hfiles _) zipPath
                (forward cb info) I fuel url).
  pose proof (verifyFileChecksum_keeps env R Rrefl Rtrans).
  pose proof (calculateFileChecksum_keeps env R Rrefl Rtrans).
  keeps_go.
Qed.

Lemma extractAndFinish_keeps fuel options cb zipPath info :
  keeps R (extractAndFinish env fuel options cb (generateBundleId env)
             (getBundlePath env (generateBundleId env)) zipPath info).
Proof.
  unfold extractAndFinish. cbv zeta.
  pose proof (fun p key => decryptFile_keeps env R Rrefl Rtrans (fun _ => True)
                (fun p data _ => Hfiles _) p key I).
  pose proof (fun zipPath dir => extractZipSecurely_keeps env R Rrefl Rtrans
                (fun _ => True) Hdirs (fun p data _ => Hfiles _)
                zipPath dir (fun _ => I)).
  pose proof (fun manifest dest key cb => downloadManifestFiles_keeps env R Rrefl Rtrans
                (fun _ => True) Hget Hevents Hdirs
                (fun p data _ => Hfiles _) fuel manifest dest key cb (fun _ _ => I)).
  pose proof unlink_keeps.
  keeps_go.
Qed.

Lemma downloadBundle_keeps fuel options cb :
  keeps R (downloadBundle env fuel options cb).
Proof.
  unfold downloadBundle, register. cbv zeta.
  pose proof (mkdir_keeps env R Rrefl Rtrans Hdirs).
  pose proof catchBlock_frame. pose proof fetchAndVerify_keeps.
  pose proof extractAndFinish_keeps.
  keeps_go.
Qed.

End BundleFrames.

Section ManifestConfined.
Import Model Downloader Props Props2.
Local Open Scope m_scope.
Context (env : Env).

Lemma outsideUntouched_refl dir w : outsideUntouched dir w w.
Proof. intros p _. reflexivity. Qed.

Lemma outsideUntouched_trans dir a b c :
  outsideUntouched dir a b -> outsideUntouched dir b c -> outsideUntouched dir a c.
Proof. intros H1 H2 p Hp. now rewrite (H2 p Hp), (H1 p Hp). Qed.

Lemma nothingLost_refl w : nothingLost w w.
Proof. split; [auto | set_solver]. Qed.

Lemma nothingLost_trans a b c : nothingLost a b -> nothingLost b c -> nothingLost a c.
Proof. intros [F1 D1] [F2 D2]. split; [auto | set_solver]. Qed.

(** The manifest pass, seen through a relation that bears with
    requests, events, new directories and files written below [dest]. *)
Lemma manifest_pass_outside fuel manifest dest key cb :
  keeps (outsideUntouched dest) (downloadManifestFiles env fuel manifest dest key cb).
Proof.
  apply (downloadManifestFiles_keeps env _ (outsideUntouched_refl dest)
           (outsideUntouched_trans dest) (fun p => inside dest p = true)).
  - intros u w r w' H. apply get_world in H as [-> | ->]; intros p _; reflexivity.
  - intros es w r w' H. inversion H; subst. intros p _. reflexivity.
  - intros d w r w' H. inversion H; subst. intros p _. reflexivity.
  - intros q data Hq w r w' H. inversion H; subst. intros p Hp. simpl.
    apply lookup_insert_ne. intros <-. congruence.
  - auto.
Qed.

Lemma nothingLost_get u : keeps nothingLost (get env u).
Proof.
  intros w r w' H. apply get_world in H as [-> | ->]; (split; [auto | set_solver]).
Qed.

Lemma nothingLost_events es : keeps nothingLost (modify (addEvents es)).
Proof. intros w r w' H. inversion H; subst. split; [auto | set_solver]. Qed.

Lemma nothingLost_dirs p : keeps nothingLost (modify (setDirs (fun d => {[p]} ∪ d))).
Proof. intros w r w' H. inversion H; subst. split; [auto | simpl; set_solver]. Qed.

Lemma nothingLost_put p data :
  True -> keeps nothingLost (modify (setFiles (fun f => <[p := data]> f))).
Proof.
  intros _ w r w' H. inversion H; subst. split; [| set_solver].
  intros q Hq. simpl. apply lookup_insert_is_Some.
  destruct (decide (p = q)); auto.
Qed.

Lemma manifest_pass_nothingLost fuel manifest dest key cb :
  keeps nothingLost (downloadManifestFiles env fuel manifest dest key cb).
Proof.
  apply (downloadManifestFiles_keeps env _ nothingLost_refl nothingLost_trans
           (fun _ => True) nothingLost_get nothingLost_events nothingLost_dirs
           nothingLost_put).
  auto.
Qed.



End ManifestConfined.

Section OwnRecord.
Import Model Downloader Props Props2.
Local Open Scope m_scope.
Context (env : Env).

Lemma sameBut_refl id s : sameBut id s s.
Proof. repeat split; auto. Qed.

Lemma sameBut_trans id a b c : sameBut id a b -> sameBut id b c -> sameBut id a c.
Proof.
  intros (B1 & ? & ? & ? & ? & ? & ? & ? & ? & ?) (B2 & ? & ? & ? & ? & ? & ? & ? & ? & ?).
  repeat split; try congruence.
  intros i Hi. now rewrite (B2 i Hi), (B1 i Hi).
Qed.

Lemma ownRecordOnly_refl id w : ownRecordOnly id w w.
Proof. repeat split; auto. Qed.

Lemma ownRecordOnly_trans id a b c :
  ownRecordOnly id a b -> ownRecordOnly id b c -> ownRecordOnly id a c.
Proof.
  intros (S1 & D1 & U1 & H1) (S2 & D2 & U2 & H2).
  split; [eapply sameBut_trans; eauto |].
  split; [| split; congruence].
  destruct D2 as [D2 | D2].
  - rewrite D2. exact D1.
  - right. eapply sameBut_trans; eauto.
Qed.

(** X6: a download changes the store at most in the record of the
    bundle it downloads. However [downloadBundle] ends, the records of
    all other bundles, the current and next pointers, the channel, the
    ids and the saved URLs are as before; the storage file is untouched
    or holds such a store; the updater and the host are untouched. *)
Theorem downloadBundle_own_record_only fuel options cb w r w' :
  downloadBundle env fuel options cb w = (r, w') ->
  ownRecordOnly (generateBundleId env) w w'.
Proof.
  revert w r w'. fold (keeps (ownRecordOnly (generateBundleId env))
                         (downloadBundle env fuel options cb)).
  apply (downloadBundle_keeps env _ (ownRecordOnly_refl _) (ownRecordOnly_trans _)).
  - intros u w r w' H. apply get_world in H as [-> | ->]; repeat split; auto.
  - intros es w r w' H. inversion H; subst. repeat split; auto.
  - intros f w r w' H. inversion H; subst. repeat split; auto.
  - intros f w r w' H. inversion H; subst. repeat split; auto.
  - intros p w r w' H. unfold rm, bind, io in H.
    destruct (ioFails env (OpRm p)); inversion H; subst; repeat split; auto.
  - intros b w r w' H. inversion H; subst.
    repeat split; auto. intros i Hi. simpl. now apply lookup_insert_ne.
  - intros w r w' H. inversion H; subst.
    repeat split; auto. intros i Hi. simpl. now apply lookup_delete_ne.
  - intros w r w' H. unfold save in H.
    destruct (ioFails env (OpSave (saves w))); inversion H; subst.
    + repeat split; auto.
    + split; [apply sameBut_refl |]. split; [right; apply sameBut_refl |]. auto.
Qed.

End OwnRecord.

Section DownloadSuccess.
Import Model Downloader Props Props2.
Local Open Scope m_scope.
Context (env : Env).

Lemma tryCatch_done_inv {A} (m : M A) h w a w' :
  tryCatch m h w = (Done a, w') ->
  m w = (Done a, w')
  \/ exists e w1, m w = (Throw e, w1) /\ h e w1 = (Done a, w').
Proof.
  unfold tryCatch. destruct (m w) as [[x | e |] w1]; intros H;
    [left; exact H | right; eauto | discriminate].
Qed.

Lemma fetchAndVerify_shape fuel options cb zipPath info w v w1 :
  fetchAndVerify env fuel options cb zipPath info w = (Done v, w1) ->
  exists c, v = withChecksum c info.
Proof.
  unfold fetchAndVerify. intros H.
  apply bind_done_inv in H as ([] & w0 & _ & H).
  destruct (Js.present _).
  - apply bind_done_inv in H as (valid & w2 & _ & H).
    destruct valid; simpl in H; [inversion H; eauto | discriminate].
  - apply bind_done_inv in H as (c & w2 & _ & H). inversion H; eauto.
Qed.

Lemma unlink_done p w w' :
  unlink env p w = (Done tt, w') -> w' = setFiles (fun f => delete p f) w.
Proof.
  unfold unlink. intros H.
  apply bind_done_inv in H as ([] & w0 & Hio & H). apply io_inv in Hio as [-> _].
  apply bind_done_inv in H as (data & w1 & Hr & H). apply readFile_inv in Hr as [-> _].
  now inversion H.
Qed.

Lemma dirsKept_refl w : dirsKept w w.
Proof. unfold dirsKept. set_solver. Qed.

Lemma dirsKept_trans a b c : dirsKept a b -> dirsKept b c -> dirsKept a c.
Proof. unfold dirsKept. set_solver. Qed.

Lemma dirsKept_get u : keeps dirsKept (get env u).
Proof.
  intros a r c E. apply get_world in E as [-> | ->]; unfold dirsKept; simpl;
    set_solver.
Qed.

Lemma dirsKept_events es : keeps dirsKept (modify (addEvents es)).
Proof. intros a r c E. inversion E; subst. unfold dirsKept. simpl. set_solver. Qed.

Lemma dirsKept_dirs p : keeps dirsKept (modify (setDirs (fun d => {[p]} ∪ d))).
Proof. intros a r c E. inversion E; subst. unfold dirsKept. simpl. set_solver. Qed.

Lemma dirsKept_files f : keeps dirsKept (modify (setFiles f)).
Proof. intros a r c E. inversion E; subst. unfold dirsKept. simpl. set_solver. Qed.

Lemma fetchAndVerify_dirs fuel options cb zipPath info :
  keeps dirsKept (fetchAndVerify env fuel options cb zipPath info).
Proof.
  apply (fetchAndVerify_keeps env dirsKept dirsKept_refl dirsKept_trans
           dirsKept_get dirsKept_events dirsKept_files).
Qed.

Lemma decryptFile_dirs p key : keeps dirsKept (decryptFile env p key).
Proof.
  apply (decryptFile_keeps env dirsKept dirsKept_refl dirsKept_trans (fun _ => True)
           (fun p data _ => dirsKept_files _) p key I).
Qed.

Lemma extractZip_dirs zipPath dir :
  keeps dirsKept (extractZip env zipPath dir (onEntry dir)).
Proof.
  apply (extractZip_keeps env dirsKept dirsKept_refl dirsKept_trans (fun _ => True)
           dirsKept_dirs (fun p data _ => dirsKept_files _) zipPath dir
           (fun _ => I)).
Qed.

Lemma downloadBundle_done fuel options cb w b w' :
  let bundleId := generateBundleId env in
  let bundlePath := getBundlePath env bundleId in
  let zipPath := Path.join [bundlePath; "bundle.zip"] in
  let extractPath := Path.join [bundlePath; "www"] in
  downloadBundle env fuel options cb w = (Done b, w') ->
  (exists c, b = withStatus Success (withChecksum c (initialInfo env options)))
  /\ bundles (store w') !! bundleId = Some b
  /\ disk w' = store w'
  /\ bundlePath ∈ dirs w'
  /\ extractPath ∈ dirs w'
  /\ (inside extractPath zipPath = false -> files w' !! zipPath = None).
Proof.
  intros bundleId bundlePath zipPath extractPath H.
  unfold downloadBundle in H. cbv zeta in H.
  apply bind_done_inv in H as ([] & w0 & Hreg & H).
  apply bind_done_inv in H as (v & w1 & Hv & H).
  apply tryCatch_done_inv in Hv as [Hv | (e & w2 & _ & C)];
    [| now apply catchBlock_not_done in C].
  destruct (fetchAndVerify_shape _ _ _ _ _ _ _ _ Hv) as [c ->].
  pose proof (extractAndFinish_done env _ _ _ _ _ _ _ _ _ _ H) as [-> Hrec].
  apply tryCatch_done_inv in H as [H | (e & w2 & _ & C)];
    [| now apply catchBlock_not_done in C].
  (* the registration *)
  assert (D0 : bundlePath ∈ dirs w0).
  { unfold register in Hreg. cbv zeta in Hreg.
    apply bind_done_inv in Hreg as ([] & wa & Hmk & Hreg).
    apply mkdir_inv in Hmk as [[_ ->] | [? _]]; [| discriminate].
    apply bind_done_inv in Hreg as ([] & wb & Hset & Hsave).
    inversion Hset; subst wb. unfold save in Hsave.
    destruct (ioFails env _); inversion Hsave; subst w0.
    simpl. set_solver. }
  (* the download and the verification *)
  pose proof (fetchAndVerify_dirs _ _ _ _ _ _ _ _ Hv) as D1.
  (* decryption, extraction, removal of the archive, manifest, record *)
  unfold extractAndFinish in H. cbv zeta in H.
  apply bind_done_inv in H as ([] & w2 & Hdec & H).
  apply bind_done_inv in H as ([] & w3 & Hex & H).
  apply bind_done_inv in H as ([] & w4 & Hun & H).
  apply bind_done_inv in H as ([] & w5 & Hman & H).
  apply bind_done_inv in H as ([] & w6 & Hset & H).
  apply bind_done_inv in H as ([] & w7 & Hsave & H).
  inversion H; subst w7. clear H. inversion Hset; subst w6. clear Hset.
  assert (D2 : dirsKept w1 w2).
  { destruct (Js.present (sessionKey options)) as [key |];
      [| inversion Hdec; subst; apply dirsKept_refl].
    apply bind_done_inv in Hdec as (success & wa & Hd & E).
    destruct success; simpl in E; inversion E; subst wa.
    exact (decryptFile_dirs _ _ _ _ _ Hd). }
  assert (D3 : extractPath ∈ dirs w3 /\ dirsKept w2 w3).
  { unfold extractZipSecurely in Hex.
    apply bind_done_inv in Hex as ([] & wa & Hmk & Hex).
    apply mkdir_inv in Hmk as [[_ ->] | [? _]]; [| discriminate].
    pose proof (extractZip_dirs _ _ _ _ _ Hex) as K.
    unfold dirsKept in *. simpl in K. split; set_solver. }
  apply unlink_done in Hun. subst w4.
  assert (D5 : dirsKept (setFiles (fun f => delete zipPath f) w3) w5
               /\ outsideUntouched extractPath
                    (setFiles (fun f => delete zipPath f) w3) w5).
  { destruct (manifest options) as [entries |];
      [| inversion Hman; subst; split; [apply dirsKept_refl | apply outsideUntouched_refl]].
    destruct (Nat.ltb 0 (length entries));
      [| inversion Hman; subst; split; [apply dirsKept_refl | apply outsideUntouched_refl]].
    apply bind_done_inv in Hman as (n & wa & Hman & E). inversion E; subst wa.
    split.
    - apply (manifest_pass_nothingLost env _ _ _ _ _ _ _ _ Hman).
    - apply (manifest_pass_outside env _ _ _ _ _ _ _ _ Hman). }
  destruct D5 as [D5 O5]. destruct D3 as [D3 D3'].
  unfold save in Hsave.
  destruct (ioFails env _); inversion Hsave; subst w'. clear Hsave.
  unfold dirsKept in *. simpl in *.
  split; [eauto |]. repeat split; auto; try set_solver.
  intros Hout. rewrite (O5 zipPath Hout). simpl. apply lookup_delete_eq.
Qed.

(** X7: what a successful download leaves behind. The record returned
    carries the generated id, the version of the options, the download
    time and the status [success]; it is the record of that id in the
    store, and the store has been written to the storage file; the
    bundle directory and its [www] directory exist; the archive has
    been removed (the manifest pass cannot bring it back when its path
    is not below [www]). *)
Theorem downloadBundle_success fuel options cb w b w' :
  let bundleId := generateBundleId env in
  let bundlePath := getBundlePath env bundleId in
  let zipPath := Path.join [bundlePath; "bundle.zip"] in
  let extractPath := Path.join [bundlePath; "www"] in
  downloadBundle env fuel options cb w = (Done b, w') ->
  id b = bundleId
  /\ version b = optVersion options
  /\ downloaded b = now env
  /\ status b = Success
  /\ bundles (store w') !! bundleId = Some b
  /\ disk w' = store w'
  /\ bundlePath ∈ dirs w'
  /\ extractPath ∈ dirs w'
  /\ (inside extractPath zipPath = false -> files w' !! zipPath = None).
Proof.
  intros bundleId bundlePath zipPath extractPath H.
  destruct (downloadBundle_done fuel options cb w b w' H)
    as ((c & Hb) & Hrec & Hdisk & Hdir & Hwww & Hzip).
  subst b. simpl. repeat split; auto.
Qed.

End DownloadSuccess.


(** An instance: a download on a device that has the bundle [b7]
    waiting; the record of [b7] and the next pointer are as before. *)
Lemma downloadBundle_own_record_only_witness :
  exists w',
    Downloader.downloadBundle Scenario.envServing 5 Scenario.options0 None
      Scenario2.worldOther = (Model.Done Scenario2.downloaded1, w')
    /\ Model.bundles (Model.store w') !! "b7"
       = Model.bundles Scenario.storePending !! "b7"
    /\ Model.nextBundleId (Model.store w') = Some "b7".
Proof.
  pose (out := Downloader.downloadBundle Scenario.envServing 5 Scenario.options0 None
                 Scenario2.worldOther).
  assert (H : out = (Model.Done Scenario2.downloaded1, snd out))
    by (vm_compute; reflexivity).
  destruct (downloadBundle_own_record_only Scenario.envServing 5 Scenario.options0
              None Scenario2.worldOther _ (snd out) H)
    as ((Hb & _ & Hn & _) & _).
  exists (snd out). split; [exact H |].
  split; [apply Hb; discriminate | rewrite Hn; reflexivity].
Defined.

(** An instance: the bundle of [envServing], downloaded on a fresh
    installation. *)
Lemma downloadBundle_success_witness :
  exists w',
    Downloader.downloadBundle Scenario.envServing 5 Scenario.options0 None
      Scenario.world0 = (Model.Done Scenario2.downloaded1, w')
    /\ Model.disk w' = Model.store w'
    /\ Scenario.www ∈ Model.dirs w'
    /\ Model.files w' !! Scenario.zipPath = None.
Proof.
  pose (out := Downloader.downloadBundle Scenario.envServing 5 Scenario.options0 None
                 Scenario.world0).
  assert (H : out = (Model.Done Scenario2.downloaded1, snd out))
    by (vm_compute; reflexivity).
  destruct (downloadBundle_success Scenario.envServing 5 Scenario.options0 None
              Scenario.world0 _ (snd out) H)
    as (_ & _ & _ & _ & _ & Hd & _ & Hw & Hz).
  exists (snd out). split; [exact H |].
  split; [exact Hd |]. split; [exact Hw |].
  apply Hz. vm_compute. reflexivity.
Defined.


(* ===================================================================== *)
(** ** The cache test and the integrity check *)
(* ===================================================================== *)

Section CacheAndIntegrity.
Import Model Downloader Integrity Props Props2.
Local Open Scope m_scope.
Context (env : Env).

Lemma access_run p w :
  access p w = (if exists_ w p then Done tt else Throw (JsError ("ENOENT: " +:+ p)), w).
Proof. unfold access, exists_. now destruct (_ || _). Qed.

(** X8: [checkFileInCache] never throws and changes nothing. Without a
    hash to compare with (none given, or the empty string) it answers
    whether the path exists, and a directory counts; with a hash it
    answers [true] exactly for a file whose checksum the crypto manager
    accepts, so a directory, which cannot be read, is never a hit. *)
Theorem checkFileInCache_decides filePath expectedHash w :
  checkFileInCache env filePath expectedHash w
  = (Done (match Js.present expectedHash with
           | None => exists_ w filePath
           | Some hash =>
               match files w !! filePath with
               | Some data => verifyChecksum (crypto env) data hash
               | None => false
               end
           end), w).
Proof.
  unfold checkFileInCache, tryCatch, bind. rewrite access_run.
  destruct (exists_ w filePath) eqn:E.
  - destruct (Js.present expectedHash) as [hash |]; [| reflexivity].
    unfold verifyFileChecksum, bind, readFile.
    now destruct (files w !! filePath).
  - destruct (Js.present expectedHash) as [hash |]; [| reflexivity].
    unfold exists_ in E. apply orb_false_iff in E as [E _].
    apply bool_decide_eq_false in E.
    destruct (files w !! filePath) as [data |] eqn:F; [| reflexivity].
    exfalso. apply E. eauto.
Qed.

(** [verifyBundleIntegrity] in one equation. *)
Lemma verifyBundleIntegrity_run bundleId w :
  let wwwPath := Path.join [getBundlePath env bundleId; "www"] in
  verifyBundleIntegrity env bundleId w
  = (Done (exists_ w wwwPath && exists_ w (Path.join [wwwPath; "index.html"])), w).
Proof.
  intros wwwPath. unfold verifyBundleIntegrity, tryCatch, bind. cbv zeta.
  fold wwwPath. rewrite !access_run.
  destruct (exists_ w wwwPath); [| reflexivity].
  now destruct (exists_ w (Path.join [wwwPath; "index.html"])).
Qed.

(** Extraction only adds files and directories. *)
Lemma extractEntries_nothingLost dir0 dir entries :
  keeps nothingLost (extractEntries env dir (onEntry dir0) entries).
Proof.
  apply (extractEntries_keeps env nothingLost nothingLost_refl nothingLost_trans
           (fun _ => True) nothingLost_dirs nothingLost_put dir0 dir entries
           (fun _ => I)).
Qed.

(** An extraction that completes has written every file entry of the
    archive, the resource forks apart, under its decoded name. *)
Lemma extractEntries_written dir0 dir e : forall entries w w',
  extractEntries env dir (onEntry dir0) entries w = (Done tt, w') ->
  In e entries ->
  let name := decodeFileName (fileName e) in
  Path.startsWith name "__MACOSX/" = false ->
  Path.endsWithSep name = false ->
  is_Some (files w' !! Path.join [dir; name]).
Proof.
  induction entries as [| x rest IH]; intros w w' H Hin name Hmac Hfile;
    [destruct Hin |].
  unfold extractEntries in H. simpl in H.
  apply bind_done_inv in H as ([] & w1 & Hx & Hrest).
  destruct Hin as [-> | Hin]; [| exact (IH _ _ Hrest Hin Hmac Hfile)].
  apply bind_done_inv in Hx as (entry & w0 & Hread & Hx).
  apply readEntry_inv in Hread as [-> [[Hentry _] | (? & ? & _)]];
    [| discriminate].
  inversion Hentry; subst entry. fold name in Hx.
  unfold onZipEntry in Hx. cbn [fileName] in Hx. rewrite Hmac in Hx.
  cbv zeta in Hx.
  apply bind_done_inv in Hx as ([] & wa & _ & Hx).
  destruct (existsb _ _); [discriminate |].
  unfold extractEntry in Hx. cbn [fileName content] in Hx. rewrite Hfile in Hx.
  apply bind_done_inv in Hx as ([] & wb & _ & Hx).
  apply bind_done_inv in Hx as ([] & wc & _ & Hwr).
  apply writeFile_inv in Hwr as [[_ ->] | [? _]]; [| discriminate].
  apply (extractEntries_nothingLost dir0 dir rest _ _ _ Hrest).
  simpl. rewrite lookup_insert_eq. eauto.
Qed.

(** X9: a bundle whose archive has an entry [index.html] passes the
    integrity check once the archive has been extracted into the [www]
    directory of the bundle. *)
Theorem extracted_bundle_passes bundleId zipPath w w' data entries e :
  extractZipSecurely env zipPath (Path.join [getBundlePath env bundleId; "www"]) w
  = (Done tt, w') ->
  files w !! zipPath = Some data ->
  unzip env data = Some entries ->
  In e entries ->
  fileName e = "index.html" ->
  verifyBundleIntegrity env bundleId w' = (Done true, w').
Proof.
  intros H Hzip Hunzip Hin Hname.
  set (wwwPath := Path.join [getBundlePath env bundleId; "www"]) in *.
  unfold extractZipSecurely in H.
  apply bind_done_inv in H as ([] & w1 & Hmk & H).
  apply mkdir_inv in Hmk as [[_ ->] | [? _]]; [| discriminate].
  unfold extractZip in H.
  destruct (Path.isAbsolute wwwPath) eqn:A; [| discriminate]. cbn [negb] in H.
  assert (Hres : Path.resolve wwwPath = wwwPath).
  { subst wwwPath. rewrite www_absolute in A.
    destruct (www_rooted _ A) as [segs Hroot]. exact (rooted_resolve _ _ Hroot). }
  rewrite Hres in H.
  apply bind_done_inv in H as ([] & w2 & Hmk & H).
  apply mkdir_inv in Hmk as [[_ ->] | [? _]]; [| discriminate].
  apply bind_done_inv in H as (data' & w3 & Hr & H).
  apply readFile_inv in Hr as [-> [(d & Hd & Hf) | [Hf _]]];
    [| simpl in Hf; congruence].
  inversion Hd; subst d. simpl in Hf. rewrite Hzip in Hf.
  inversion Hf; subst data'. rewrite Hunzip in H.
  pose proof (extractEntries_written wwwPath wwwPath e entries _ _ H Hin) as Hindex.
  cbv zeta in Hindex. rewrite Hname in Hindex.
  specialize (Hindex eq_refl eq_refl).
  change (decodeFileName "index.html") with "index.html" in Hindex.
  pose proof (extractEntries_nothingLost wwwPath wwwPath entries _ _ _ H) as [_ Hdirs].
  rewrite verifyBundleIntegrity_run. cbv zeta. fold wwwPath.
  assert (E1 : exists_ w' wwwPath = true).
  { unfold exists_. apply orb_true_iff. right. apply bool_decide_eq_true.
    apply Hdirs. simpl. set_solver. }
  assert (E2 : exists_ w' (Path.join [wwwPath; "index.html"]) = true).
  { unfold exists_. apply orb_true_iff. left. now apply bool_decide_eq_true. }
  now rewrite E1, E2.
Qed.

(** X10: the integrity check never throws and changes nothing; on the
    world left by a successful download of the bundle it is decided by
    the presence of [www/index.html] alone, so a download can succeed
    for a bundle that then fails the check. *)
Theorem integrity_after_download fuel options cb w b w' :
  let wwwPath := Path.join [getBundlePath env (generateBundleId env); "www"] in
  downloadBundle env fuel options cb w = (Done b, w') ->
  verifyBundleIntegrity env (id b) w'
  = (Done (exists_ w' (Path.join [wwwPath; "index.html"])), w').
Proof.
  intros wwwPath H.
  destruct (downloadBundle_done env fuel options cb w b w' H)
    as ((c & ->) & _ & _ & _ & Hwww & _).
  simpl id. rewrite verifyBundleIntegrity_run. cbv zeta. fold wwwPath.
  assert (E : exists_ w' wwwPath = true).
  { unfold exists_. apply orb_true_iff. right. now apply bool_decide_eq_true. }
  now rewrite E.
Qed.

End CacheAndIntegrity.

(** An instance: the archive of [envServing] has the page
    [index.html]. *)
Lemma extracted_bundle_passes_witness :
  exists w',
    Downloader.extractZipSecurely Scenario.envServing Scenario.zipPath
      (Path.join [Model.getBundlePath Scenario.envServing "b1"; "www"])
      Scenario.worldWithZip = (Model.Done tt, w')
    /\ Integrity.verifyBundleIntegrity Scenario.envServing "b1" w'
       = (Model.Done true, w').
Proof.
  pose (out := Downloader.extractZipSecurely Scenario.envServing Scenario.zipPath
                 (Path.join [Model.getBundlePath Scenario.envServing "b1"; "www"])
                 Scenario.worldWithZip).
  assert (H : out = (Model.Done tt, snd out)) by (vm_compute; reflexivity).
  exists (snd out). split; [exact H |].
  refine (extracted_bundle_passes Scenario.envServing "b1" Scenario.zipPath
            Scenario.worldWithZip (snd out) (Scenario.bytes "PK") Scenario.onePage
            (Model.mkEntry "index.html" (Scenario.bytes "<html>")) H _ _ _ _).
  - vm_compute. reflexivity.
  - reflexivity.
  - simpl. auto.
  - reflexivity.
Defined.

(** An instance: the server delivers an empty archive; the download
    succeeds, and the bundle fails the integrity check. *)
Lemma integrity_after_download_witness :
  exists w',
    Downloader.downloadBundle Scenario2.envEmptyArchive 5 Scenario.options0 None
      Scenario.world0 = (Model.Done Scenario2.downloaded1, w')
    /\ Integrity.verifyBundleIntegrity Scenario2.envEmptyArchive "b1" w'
       = (Model.Done false, w').
Proof.
  pose (out := Downloader.downloadBundle Scenario2.envEmptyArchive 5 Scenario.options0
                 None Scenario.world0).
  assert (H : out = (Model.Done Scenario2.downloaded1, snd out))
    by (vm_compute; reflexivity).
  exists (snd out). split; [exact H |].
  pose proof (integrity_after_download Scenario2.envEmptyArchive 5 Scenario.options0
                None Scenario.world0 _ (snd out) H) as E.
  simpl Model.id in E. rewrite E. vm_compute. reflexivity.
Defined.

(* ===================================================================== *)
(** ** Telemetry: the switch *)
(* ===================================================================== *)

Section StatsSwitch.
Import Model Props.
Local Open Scope m_scope.
Context (env : Env).

(** X11: [setStatsUrl] is the switch of the telemetry. After
    [setStatsUrl("")] an event does nothing at all. After
    [setStatsUrl(url)] with a non-empty [url], whatever the manager was
    before, an event completes and sends exactly one POST, to [url],
    when [url] parses, and none when it does not; a warning is logged
    exactly when the URL does not parse or the request fails. *)
Theorem stats_url_switch sm url payload w :
  let sm' := Stats.setStatsUrl url sm in
  let req := StatsPost url (Stats.event payload) in
  (url = "" -> Stats.sendEvent env sm' payload w = (Done tt, w))
  /\ (url <> "" ->
      exists w',
        Stats.sendEvent env sm' payload w = (Done tt, w')
        /\ net w' = (if urlOk env url then req :: net w else net w)
        /\ warnings w'
           = (if urlOk env url
                 && negb (transportFailure (statsServer env (length (net w)) req))
              then warnings w else S (warnings w))).
Proof.
  intros sm' req. split.
  - intros ->. reflexivity.
  - intros Hurl. unfold Stats.sendEvent. subst sm'.
    assert (E : enabled (Stats.setStatsUrl url sm) = true).
    { destruct url; [contradiction | reflexivity]. }
    rewrite E. cbn [negb]. cbv iota.
    unfold tryCatch, Stats.makeRequest, bind, newURL, fetch.
    change (smStatsUrl (Stats.setStatsUrl url sm)) with url.
    destruct (urlOk env url).
    + unfold ret at 1. fold req.
      destruct (statsServer env (length (net w)) req);
        eexists; (split; [reflexivity | split; reflexivity]).
    + eexists. split; [reflexivity | split; reflexivity].
Qed.

End StatsSwitch.

(** An instance: the statistics are sent to a new endpoint. *)
Lemma stats_url_switch_witness :
  exists w',
    Stats.sendEvent Scenario2.envStats
      (Stats.setStatsUrl "https://stats.example/v1" Scenario.statsManager0)
      Scenario2.payload0 Scenario.world0 = (Model.Done tt, w')
    /\ Model.net w'
       = [Model.StatsPost "https://stats.example/v1" Model.DOWNLOAD_COMPLETE]
    /\ Model.warnings w' = 0.
Proof.
  destruct (stats_url_switch Scenario2.envStats Scenario.statsManager0
              "https://stats.example/v1" Scenario2.payload0 Scenario.world0)
    as [_ Hon].
  destruct Hon as (w' & E & Hn & Hw); [discriminate |].
  exists w'. split; [exact E |]. split; [exact Hn | exact Hw].
Defined.

(* ===================================================================== *)
(** ** The coordinator: timers and the watchdog *)
(* ===================================================================== *)

Section Timers.
Import Model Coordinator Watchdog Props Props2.
Local Open Scope m_scope.
Context (env : Env).

Lemma sendEvent_updater sm payload w r w' :
  Stats.sendEvent env sm payload w = (r, w') ->
  r = Done tt /\ sameButTelemetry w w'.
Proof.
  intros H. destruct (sendEvent_quiet env sm payload w) as (w1 & E & S).
  rewrite E in H. inversion H; subst. auto.
Qed.

(** The watchdog fires on an initialized updater with a window that
    has not heard from the app. *)
Lemma onAppReadyTimeout_fires c window w :
  appReadyReceived (updater w) = false ->
  components (updater w) = Some c ->
  mainWindow (updater w) = Some window ->
  let p := currentBundlePath env (store w) in
  exists w',
    onAppReadyTimeout env w = (Done tt, w')
    /\ store w' = store w
    /\ disk w' = disk w
    /\ emitted w' = EvUpdateFailed (current env (store w)) :: emitted w
    /\ loaded (host w')
       = (if ioFails env (OpLoadFile p) then loaded (host w)
          else loaded (host w) ++ [p])%list.
Proof.
  intros Ready C Win p. unfold onAppReadyTimeout.
  erewrite bind_done; [| reflexivity]. rewrite Ready. cbn [negb]. cbv iota.
  assert (W : exists w0,
             when (negb (disableJSLogging (config (updater w)))) warn w = (Done tt, w0)
             /\ sameButTelemetry w w0).
  { destruct (disableJSLogging _); simpl;
      eexists; (split; [reflexivity | repeat split]). }
  destruct W as (w0 & W & S0). rewrite (bind_done _ _ _ _ _ W). rewrite C.
  erewrite bind_done; [| reflexivity].
  destruct (sendEvent_quiet env (statsManager c)
              (Stats.mkPayload UPDATE_FAILED
                 (Some (version (current env (store w0))))
                 None (Some (id (current env (store w0))))
                 (Some "App ready timeout")) w0) as (w1 & E1 & S1).
  unfold Stats.sendUpdateFailed. rewrite (bind_done _ _ _ _ _ E1).
  erewrite bind_done; [| reflexivity].
  erewrite bind_done; [| reflexivity]. rewrite Win.
  destruct S0 as (_ & _ & Hs0 & Hd0 & _ & He0 & _ & Hh0).
  destruct S1 as (_ & _ & Hs1 & Hd1 & _ & He1 & _ & Hh1).
  unfold tryCatch, loadFile, bind, io. simpl. rewrite Hs1, Hs0. fold p.
  destruct (ioFails env (OpLoadFile p)); eexists; (split; [reflexivity |]); simpl;
    rewrite ?Hs1, ?Hs0, ?Hd1, ?Hd0, ?He1, ?He0, ?Hh1, ?Hh0; auto.
Qed.

Lemma onAppReadyTimeout_frame :
  keeps (fun w w' => store w' = store w /\ disk w' = disk w) (onAppReadyTimeout env).
Proof.
  assert (Rrefl : forall w : World, store w = store w /\ disk w = disk w) by auto.
  assert (Rtrans : forall a b c : World,
             store b = store a /\ disk b = disk a ->
             store c = store b /\ disk c = disk b ->
             store c = store a /\ disk c = disk a).
  { intros a b c [-> ->] [-> ->]. auto. }
  assert (Ks : forall sm pl,
             keeps (fun w w' => store w' = store w /\ disk w' = disk w)
                   (Stats.sendEvent env sm pl)).
  { intros sm pl w r w' H. apply sendEvent_updater in H as [_ S].
    destruct S as (_ & _ & -> & -> & _). auto. }
  assert (Km : forall f,
             (forall w : World, store (f w) = store w /\ disk (f w) = disk w) ->
             keeps (fun w w' => store w' = store w /\ disk w' = disk w) (modify f)).
  { intros f Hf w r w' H. inversion H; subst. apply Hf. }
  unfold onAppReadyTimeout, warn, emit, loadFile, typeError, Stats.sendUpdateFailed.
  repeat first [assumption | apply Ks | apply Km; intros; split; reflexivity
               | keeps_step | progress intros].
Qed.

(** X12: the callback of the app-ready watchdog does not roll anything
    back. However it ends, the store in memory and the storage file are
    as they were. Once [notifyAppReady] has been received it does
    nothing. Otherwise, on an initialized updater with a window, it
    completes, sends the [updateFailed] event with the current bundle,
    and loads the current bundle path of the unchanged store into the
    window (nothing when the load is refused). *)
Theorem watchdog_keeps_the_store w r w' :
  onAppReadyTimeout env w = (r, w') ->
  store w' = store w
  /\ disk w' = disk w
  /\ (appReadyReceived (updater w) = true -> r = Done tt /\ w' = w)
  /\ (appReadyReceived (updater w) = false ->
      forall c window,
        components (updater w) = Some c ->
        mainWindow (updater w) = Some window ->
        let p := currentBundlePath env (store w) in
        r = Done tt
        /\ emitted w' = EvUpdateFailed (current env (store w)) :: emitted w
        /\ loaded (host w')
           = (if ioFails env (OpLoadFile p) then loaded (host w)
              else loaded (host w) ++ [p])%list).
Proof.
  intros H. destruct (onAppReadyTimeout_frame w r w' H) as [Hs Hd].
  split; [exact Hs |]. split; [exact Hd |]. split.
  - intros Ready. unfold onAppReadyTimeout, bind, gets in H. rewrite Ready in H.
    simpl in H. inversion H; auto.
  - intros Ready c window C Win p.
    destruct (onAppReadyTimeout_fires c window w Ready C Win) as (w1 & E & _ & _ & He & Hl).
    rewrite E in H. inversion H; subst. auto.
Qed.

Lemma reload_done window w :
  mainWindow (updater w) = Some window ->
  let p := currentBundlePath env (store w) in
  let d := appReadyTimeoutMs (config (updater w)) in
  let armed :=
    addEvents [EvAppReloaded]
      (setHost (setTimeouts (fun ts => (ts ++ [d])%list))
         (setUpdater (withAppReady false (Some d)) w)) in
  reload env w
  = if ioFails env (OpLoadFile p) then (Throw (IoError (OpLoadFile p)), armed)
    else (Done tt, setHost (addLoaded p) armed).
Proof.
  intros Win p d armed. unfold reload, bind, gets, modify, emit, loadFile, bind, io.
  rewrite Win. simpl. fold p. now destruct (ioFails env (OpLoadFile p)).
Qed.

(** X13: [reload] arms a watchdog without cancelling one that is
    already armed, so two reloads in a row leave two timers running;
    and a reload that is never acknowledged ends with the watchdog
    loading the very path that the reload loaded, with the store
    unchanged. *)
Theorem unacknowledged_reload_loads_same_bundle window c w w1 r w2 :
  mainWindow (updater w) = Some window ->
  components (updater w) = Some c ->
  reload env w = (Done tt, w1) ->
  onAppReadyTimeout env w1 = (r, w2) ->
  let p := currentBundlePath env (store w) in
  let d := appReadyTimeoutMs (config (updater w)) in
  timeouts (host w1) = (timeouts (host w) ++ [d])%list
  /\ (forall w1', reload env w1 = (Done tt, w1') ->
                  timeouts (host w1') = (timeouts (host w) ++ [d; d])%list)
  /\ r = Done tt
  /\ store w2 = store w
  /\ loaded (host w2) = (loaded (host w) ++ [p; p])%list.
Proof.
  intros Win C Hre Hto p d.
  pose proof (reload_done window w Win) as E. cbv zeta in E. rewrite E in Hre.
  clear E. fold p d in Hre.
  destruct (ioFails env (OpLoadFile p)) eqn:L; [discriminate |].
  inversion Hre; subst w1. clear Hre.
  split; [reflexivity |]. split.
  - intros w1' Hre.
    match type of Hre with reload env ?w1 = _ =>
      pose proof (reload_done window w1 Win) as E end.
    cbv zeta in E. rewrite E in Hre. clear E.
    simpl in Hre. fold p d in Hre. rewrite L in Hre. inversion Hre; subst w1'.
    simpl. now rewrite <- app_assoc.
  - match type of Hto with onAppReadyTimeout env ?w1 = _ =>
      destruct (onAppReadyTimeout_fires c window w1 eq_refl C Win)
        as (w2' & E & Hs & _ & _ & Hl) end.
    rewrite E in Hto. inversion Hto; subst r w2. clear Hto E.
    cbv zeta in Hl. simpl in Hs, Hl. fold p in Hl. rewrite L in Hl.
    split; [reflexivity |]. split; [exact Hs |].
    rewrite Hl. now rewrite <- app_assoc.
Qed.

(** X14: [notifyAppReady] disarms the watchdog, however it ends: the
    flag [appReadyReceived] is set and the timer on record is cancelled
    before anything that can fail, so a watchdog that fires afterwards
    (one left over from an earlier reload included) does nothing. This
    holds when [markBundleSuccessful] throws, in which case
    [notifyAppReady] throws the same error, and before [initialize],
    when the call throws with the flag set all the same. *)
Theorem notifyAppReady_disarms w r w1 :
  notifyAppReady env w = (r, w1) ->
  appReadyReceived (updater w1) = true
  /\ appReadyTimeout (updater w1) = None
  /\ timeouts (host w1)
     = match appReadyTimeout (updater w) with
       | Some timer => clearTimer timer (timeouts (host w))
       | None => timeouts (host w)
       end
  /\ onAppReadyTimeout env w1 = (Done tt, w1)
  /\ (components (updater w) = None -> exists e, r = Throw e)
  /\ (forall e x,
        components (updater w) <> None ->
        markBundleSuccessful env (reachOf w) = (Throw e, x) ->
        r = Throw e).
Proof.
  intros H. unfold notifyAppReady in H.
  erewrite bind_done in H; [| reflexivity].
  set (w0 := snd ((match appReadyTimeout (updater w) with
                   | Some timer => modify (setHost (setTimeouts (clearTimer timer)))
                   | None => ret tt
                   end) w)).
  erewrite bind_done with (w1 := w0) in H;
    [| subst w0; destruct (appReadyTimeout (updater w)); reflexivity].
  assert (Hw0 : updater w0 = updater w
                /\ timeouts (host w0)
                   = match appReadyTimeout (updater w) with
                     | Some timer => clearTimer timer (timeouts (host w))
                     | None => timeouts (host w)
                     end
                /\ reachOf w0 = reachOf w)
    by (subst w0; destruct (appReadyTimeout (updater w)); auto).
  destruct Hw0 as (Hu0 & Ht0 & Hr0). clearbody w0.
  erewrite bind_done in H; [| reflexivity].
  destruct (components (updater w)) as [c |] eqn:C.
  - unfold bind at 1, call in H.
    change (reachOf (setUpdater (withAppReady true None) w0)) with (reachOf w0) in H.
    rewrite Hr0 in H.
    destruct (markBundleSuccessful env (reachOf w)) as [[[] | e |] x] eqn:Mk.
    + erewrite bind_done in H; [| reflexivity].
      unfold Stats.sendUpdateSuccess in H.
      match type of H with context [bind (Stats.sendEvent _ ?sm ?pl) _ ?wx] =>
        destruct (sendEvent_quiet env sm pl wx) as (w' & E & Hsame) end.
      rewrite (bind_done _ _ _ _ _ E) in H.
      destruct Hsame as (_ & _ & _ & _ & _ & _ & Hu & Hh).
      erewrite bind_done in H; [| reflexivity].
      inversion H; subst r w1. clear H. simpl in Hu, Hh. simpl.
      rewrite Hu, Hh. simpl.
      repeat split; auto; try discriminate.
      unfold onAppReadyTimeout, bind, gets. simpl. rewrite Hu. reflexivity.
    + inversion H; subst r w1. clear H. simpl.
      repeat split; auto; try discriminate.
      intros e' x' _ [= -> _]. reflexivity.
    + inversion H; subst r w1. clear H. simpl.
      repeat split; auto; discriminate.
  - inversion H; subst r w1. clear H. simpl.
    repeat split; eauto. intros e x Hc. congruence.
Qed.

(** X15: the periodic check is a single timer. From a state with at
    most one such timer running, [startPeriodicChecks] completes and
    leaves at most one running again: with [autoUpdate] set and
    [periodCheckDelay] at least 600 seconds the old timer is replaced
    by one whose period is [periodCheckDelay] times 1000 milliseconds
    when that is at most 2147483647, the longest delay of a timer, and
    1 millisecond when it is more; otherwise the old timer is cancelled
    and none is armed. The store is untouched. *)
Theorem periodic_checks_single_timer w :
  singleInterval w ->
  let c := config (updater w) in
  let period := intervalDelay (periodCheckDelay c * 1000) in
  let armed := Z.leb MIN_PERIOD_CHECK_DELAY (periodCheckDelay c) && autoUpdate c in
  exists w',
    startPeriodicChecks w = (Done tt, w')
    /\ singleInterval w'
    /\ intervals (host w') = (if armed then [period] else [])
    /\ store w' = store w
    /\ (armed = true ->
        period = if Z.leb (periodCheckDelay c * 1000) TIMEOUT_MAX
                 then (periodCheckDelay c * 1000)%Z else 1%Z).
Proof.
  intros Inv c period armed. unfold startPeriodicChecks.
  erewrite bind_done; [| reflexivity].
  set (w0 := snd ((match periodCheckInterval (updater w) with
                   | Some timer => modify (setHost (setIntervals (clearTimer timer)))
                   | None => ret tt
                   end) w)).
  erewrite bind_done with (w1 := w0);
    [| subst w0; destruct (periodCheckInterval (updater w)); reflexivity].
  assert (Hw0 : updater w0 = updater w /\ store w0 = store w
                /\ intervals (host w0) = []).
  { subst w0. destruct Inv as [Inv | (t & Ht & Inv)].
    - destruct (periodCheckInterval (updater w)); simpl; rewrite ?Inv; auto.
    - rewrite Ht. simpl. rewrite Inv. simpl. now rewrite Z.eqb_refl. }
  destruct Hw0 as (Hu0 & Hs0 & Hi0). clearbody w0.
  assert (Hperiod : armed = true ->
            period = if Z.leb (periodCheckDelay c * 1000) TIMEOUT_MAX
                     then (periodCheckDelay c * 1000)%Z else 1%Z).
  { intros Ha. subst armed period. apply andb_true_iff in Ha as [Ha _].
    apply Z.leb_le in Ha. unfold MIN_PERIOD_CHECK_DELAY in Ha.
    unfold intervalDelay.
    assert (L : Z.leb 1 (periodCheckDelay c * 1000) = true)
      by (apply Z.leb_le; lia).
    now rewrite L. }
  cbv zeta. fold c. fold period. fold armed.
  destruct armed; simpl.
  - eexists. split; [reflexivity |]. unfold singleInterval. simpl. rewrite Hi0.
    simpl. split; [right; exists period; auto |].
    split; [reflexivity |]. split; [exact Hs0 | exact Hperiod].
  - exists w0. split; [reflexivity |]. split; [now left |].
    split; [exact Hi0 |]. split; [exact Hs0 | discriminate].
Qed.

(** X16: a pending update is applied at the gate, or not at all.
    [checkAndApplyPendingUpdate] changes nothing when no bundle is
    pending and when the delay conditions are not satisfied. Otherwise
    it calls [applyPendingUpdate] of the bundle manager. When that
    call answers that nothing was applied, nothing more is done; when
    it throws, the error is passed on and nothing is reloaded. When it
    answers that the update was applied, the kill state is reset and
    the store is saved: if the save fails, the call fails with nothing
    reloaded; if it succeeds and the window loads, the window has
    loaded the path of the current bundle with the watchdog armed, and
    [appReloaded] has been emitted twice, once by this function and
    once by [reload]. *)
Theorem pending_update_gate w r w' :
  checkAndApplyPendingUpdate env w = (r, w') ->
  (getNextBundle (store w) = None \/ gateOpen env (store w) = false ->
   r = Done tt /\ w' = w)
  /\ (forall next o x,
        getNextBundle (store w) = Some next ->
        gateOpen env (store w) = true ->
        applyPendingUpdate env (reachOf w) = (o, x) ->
        let w1 := withReach x w in
        let reset := resetKillState env (store w1) in
        (o = Done false -> r = Done tt /\ w' = w1)
        /\ (forall e, o = Throw e -> r = Throw e /\ w' = w1)
        /\ (o = Done true ->
            (ioFails env (OpSave (saves w1)) = true ->
             r = Throw (IoError (OpSave (saves w1)))
             /\ store w' = reset /\ disk w' = disk w1
             /\ emitted w' = emitted w /\ host w' = host w)
            /\ (forall window,
                  ioFails env (OpSave (saves w1)) = false ->
                  mainWindow (updater w) = Some window ->
                  let p := currentBundlePath env reset in
                  ioFails env (OpLoadFile p) = false ->
                  r = Done tt
                  /\ store w' = reset
                  /\ disk w' = reset
                  /\ emitted w' = EvAppReloaded :: EvAppReloaded :: emitted w
                  /\ loaded (host w') = (loaded (host w) ++ [p])%list
                  /\ timeouts (host w')
                     = (timeouts (host w)
                        ++ [appReadyTimeoutMs (config (updater w))])%list
                  /\ appReadyReceived (updater w') = false))).
Proof.
  intros H. unfold checkAndApplyPendingUpdate in H.
  erewrite bind_done in H; [| reflexivity].
  destruct (getNextBundle (store w)) as [next |] eqn:N.
  2:{ inversion H; subst. split; [auto |]. intros next o x [=]. }
  erewrite bind_done in H; [| reflexivity].
  destruct (gateOpen env (store w)) eqn:G.
  2:{ inversion H; subst. split; [auto |]. intros next' o x _ [=]. }
  split; [intros [[=] | [=]] |].
  intros next' o x _ _ A w1 reset.
  assert (Hcall : call (applyPendingUpdate env) w = (o, w1))
    by (unfold call; now rewrite A).
  split; [| split].
  - intros ->. rewrite (bind_done _ _ _ _ _ Hcall) in H. inversion H; auto.
  - intros e ->. rewrite (bind_throw _ _ _ _ _ Hcall) in H. inversion H; auto.
  - intros ->. rewrite (bind_done _ _ _ _ _ Hcall) in H. cbv iota in H.
    assert (Hw1 : emitted w1 = emitted w /\ host w1 = host w
                  /\ updater w1 = updater w) by (subst w1; auto).
    destruct Hw1 as (He1 & Hh1 & Hu1). clearbody w1.
    unfold bind at 1 in H. unfold modify at 1 in H.
    unfold bind at 1 in H. unfold save at 1 in H. simpl saves in H.
    destruct (ioFails env (OpSave (saves w1))) eqn:S1.
    + inversion H; subst. split; [| discriminate]. intros _. simpl. auto.
    + split; [discriminate |]. intros window _ Win p L. rewrite <- Hu1 in Win.
      unfold bind at 1 in H. unfold emit at 1, modify at 1 in H.
      match type of H with reload env ?wa = _ =>
        pose proof (reload_done window wa Win) as E end.
      cbv zeta in E. rewrite E in H. clear E. simpl in H.
      fold reset in H. fold p in H. rewrite L in H.
      inversion H; subst. simpl. fold reset. fold p.
      rewrite He1, Hh1, Hu1. auto 10.
Qed.

End Timers.

(** An instance: the watchdog fires on an updater that was never told
    that the app is ready; the store is the one before. *)
Lemma watchdog_keeps_the_store_witness :
  exists w',
    Watchdog.onAppReadyTimeout Scenario.envOffline Scenario2.worldWindow
    = (Model.Done tt, w')
    /\ Model.store w' = Scenario.store0
    /\ Model.loaded (Model.host w') = ["/app/www/index.html"].
Proof.
  pose (out := Watchdog.onAppReadyTimeout Scenario.envOffline Scenario2.worldWindow).
  assert (H : out = (Model.Done tt, snd out)) by (vm_compute; reflexivity).
  destruct (watchdog_keeps_the_store Scenario.envOffline Scenario2.worldWindow
              (Model.Done tt) (snd out) H) as (Hs & _ & _ & Hfire).
  destruct (Hfire eq_refl _ "main" eq_refl eq_refl) as (_ & _ & Hl).
  exists (snd out). split; [exact H |]. split; [exact Hs | exact Hl].
Defined.

(** An instance: a reload that is never acknowledged loads the same
    page twice. *)
Lemma unacknowledged_reload_loads_same_bundle_witness :
  exists w1 w2,
    Coordinator.reload Scenario.envOffline Scenario2.worldWindow = (Model.Done tt, w1)
    /\ Watchdog.onAppReadyTimeout Scenario.envOffline w1 = (Model.Done tt, w2)
    /\ Model.timeouts (Model.host w1) = [10000%Z]
    /\ Model.loaded (Model.host w2)
       = ["/app/www/index.html"; "/app/www/index.html"].
Proof.
  pose (out1 := Coordinator.reload Scenario.envOffline Scenario2.worldWindow).
  assert (H1 : out1 = (Model.Done tt, snd out1)) by (vm_compute; reflexivity).
  pose (out2 := Watchdog.onAppReadyTimeout Scenario.envOffline (snd out1)).
  assert (H2 : out2 = (Model.Done tt, snd out2)) by (vm_compute; reflexivity).
  destruct (unacknowledged_reload_loads_same_bundle Scenario.envOffline "main" _
              Scenario2.worldWindow (snd out1) (Model.Done tt) (snd out2)
              eq_refl eq_refl H1 H2) as (Ht & _ & _ & _ & Hl).
  exists (snd out1), (snd out2).
  split; [exact H1 |]. split; [exact H2 |]. split; [exact Ht | exact Hl].
Defined.

(** An instance: the app reports ready after a reload, and the bundle
    manager fails to remove the previous bundle; [notifyAppReady]
    throws that error, with the watchdog disarmed. *)
Lemma notifyAppReady_disarms_witness :
  exists w1 w2,
    Coordinator.reload Scenario2.envPruneFails Scenario2.worldWindow
    = (Model.Done tt, w1)
    /\ Coordinator.notifyAppReady Scenario2.envPruneFails w1
       = (Model.Throw (Model.JsError "EACCES: rm"), w2)
    /\ Model.timeouts (Model.host w1) = [10000%Z]
    /\ Model.timeouts (Model.host w2) = []
    /\ Watchdog.onAppReadyTimeout Scenario2.envPruneFails w2 = (Model.Done tt, w2).
Proof.
  pose (out1 := Coordinator.reload Scenario2.envPruneFails Scenario2.worldWindow).
  assert (H1 : out1 = (Model.Done tt, snd out1)) by (vm_compute; reflexivity).
  pose (out2 := Coordinator.notifyAppReady Scenario2.envPruneFails (snd out1)).
  assert (H2 : out2 = (fst out2, snd out2)) by apply surjective_pairing.
  destruct (notifyAppReady_disarms Scenario2.envPruneFails (snd out1) _ (snd out2) H2)
    as (_ & _ & Ht & Hw & _ & Hfail).
  exists (snd out1), (snd out2).
  split; [exact H1 |]. split; [| split; [vm_compute; reflexivity | split]].
  - assert (Hr : fst out2 = Model.Throw (Model.JsError "EACCES: rm")).
    { apply (Hfail (Model.JsError "EACCES: rm") (Model.reachOf (snd out1)));
        [discriminate | reflexivity]. }
    unfold out2 in H2 at 1. rewrite H2, Hr. reflexivity.
  - rewrite Ht. vm_compute. reflexivity.
  - exact Hw.
Defined.

(** An instance: hourly checks, started twice. *)
Lemma periodic_checks_single_timer_witness :
  exists w1 w2,
    Coordinator.startPeriodicChecks Scenario2.worldHourly = (Model.Done tt, w1)
    /\ Coordinator.startPeriodicChecks w1 = (Model.Done tt, w2)
    /\ Model.intervals (Model.host w2) = [3600000%Z].
Proof.
  destruct (periodic_checks_single_timer Scenario2.worldHourly)
    as (w1 & E1 & Inv1 & I1 & _); [left; reflexivity |].
  destruct (periodic_checks_single_timer w1 Inv1) as (w2 & E2 & _ & I2 & _).
  exists w1, w2. split; [exact E1 |]. split; [exact E2 |].
  rewrite I2.
  assert (Hc : Model.config (Model.updater w1) = Scenario2.configHourly).
  { vm_compute in E1. inversion E1. reflexivity. }
  rewrite Hc. reflexivity.
Defined.

(** A delay of fifty days is more than a timer can hold: the check
    runs every millisecond. *)
Example fifty_days_is_one_millisecond :
  exists w',
    Coordinator.startPeriodicChecks Scenario2.worldFiftyDays = (Model.Done tt, w')
    /\ Model.intervals (Model.host w') = [1%Z].
Proof. eexists. split; vm_compute; reflexivity. Qed.

(* ===================================================================== *)
(** ** The coordinator: what [initialize] builds, and the setters *)
(* ===================================================================== *)

Section Setup.
Import Model Coordinator Settings Props Props2.
Local Open Scope m_scope.
Context (env : Env).

Lemma keeps_modify (R : World -> World -> Prop) f :
  (forall w, R w (f w)) -> keeps R (modify f).
Proof. intros Hf w r w' H. inversion H; subst. apply Hf. Qed.

Lemma sameSetup_refl w : sameSetup w w.
Proof. split; reflexivity. Qed.

Lemma sameSetup_trans a b c : sameSetup a b -> sameSetup b c -> sameSetup a c.
Proof. intros [? ?] [? ?]. split; congruence. Qed.

Lemma sameSetup_save : keeps sameSetup (save env).
Proof.
  intros w r w' H. unfold save in H.
  destruct (ioFails env _); inversion H; subst; split; reflexivity.
Qed.

Lemma sameSetup_call {A} (op : BundleOp A) : keeps sameSetup (call op).
Proof.
  intros w r w' H. unfold call in H.
  destruct (op (reachOf w)); inversion H; subst. split; reflexivity.
Qed.

Ltac setup_go :=
  repeat first
    [ assumption
    | exact sameSetup_refl
    | exact sameSetup_trans
    | exact sameSetup_save
    | apply sameSetup_call
    | apply keeps_modify; intros; split; reflexivity
    | keeps_step
    | progress intros ].

Lemma sameSetup_reload : keeps sameSetup (reload env).
Proof. unfold reload, emit, loadFile. setup_go. Qed.

Lemma sameSetup_checkAndApplyPendingUpdate :
  keeps sameSetup (checkAndApplyPendingUpdate env).
Proof.
  pose proof sameSetup_reload.
  unfold checkAndApplyPendingUpdate, emit. setup_go.
Qed.

Lemma sameSetup_setupWindowListeners : keeps sameSetup setupWindowListeners.
Proof. unfold setupWindowListeners. setup_go. Qed.

Lemma sameSetup_startPeriodicChecks : keeps sameSetup startPeriodicChecks.
Proof. unfold startPeriodicChecks. setup_go. Qed.

Lemma getDeviceId_run w :
  exists d w', getDeviceId env w = (Done d, w') /\ updater w' = updater w.
Proof.
  unfold getDeviceId, bind, gets.
  destruct (String.eqb (deviceId (store w)) ""); do 2 eexists; split; reflexivity.
Qed.

(** The managers that [initialize] constructs from a configuration. *)
Lemma buildComponents_run w :
  let c := config (updater w) in
  exists comps w',
    buildComponents env w = (Done tt, w')
    /\ config (updater w') = c
    /\ components (updater w') = Some comps
    /\ channelManager comps
       = mkChannel (channelUrl c) (appId c) (Js.present (Some (defaultChannel c)))
                   (cmKeyId (channelManager comps)) (responseTimeout c * 1000)%Z
    /\ statsManager comps
       = Stats.new (statsUrl c) (appId c) (Js.present (Some (defaultChannel c)))
                   (smKeyId (statsManager comps)) (responseTimeout c * 1000)%Z.
Proof.
  intros c. unfold buildComponents.
  erewrite bind_done; [| reflexivity]. cbv zeta.
  erewrite bind_done; [| reflexivity].
  match goal with |- context [bind (getDeviceId env) _ ?w0] =>
    destruct (getDeviceId_run w0) as (d1 & w1 & E1 & U1) end.
  rewrite (bind_done _ _ _ _ _ E1).
  destruct (getDeviceId_run w1) as (d2 & w2 & E2 & U2).
  rewrite (bind_done _ _ _ _ _ E2).
  do 2 eexists. split; [reflexivity |]. simpl. rewrite U2, U1. simpl.
  fold c. repeat split; reflexivity.
Qed.

(** What a first call of [initialize] that completes has set up. *)
Lemma initialize_setup window builtin w w1 :
  initialized (updater w) = false ->
  initialize env window builtin w = (Done tt, w1) ->
  let s := if ioFails env OpLoad then emptyStore else disk w in
  let c := if persistModifyUrl (config (updater w))
           then overlay s (config (updater w)) else config (updater w) in
  config (updater w1) = c
  /\ exists comps,
       components (updater w1) = Some comps
       /\ channelManager comps
          = mkChannel (channelUrl c) (appId c)
                      (Js.present (Some (defaultChannel c)))
                      (cmKeyId (channelManager comps)) (responseTimeout c * 1000)%Z
       /\ statsManager comps
          = Stats.new (statsUrl c) (appId c)
                      (Js.present (Some (defaultChannel c)))
                      (smKeyId (statsManager comps)) (responseTimeout c * 1000)%Z.
Proof.
  intros I H s c. unfold initialize in H.
  apply bind_done_inv in H as (u & w0 & Hu & H). inversion Hu; subst u w0.
  rewrite I in H.
  apply bind_done_inv in H as ([] & wa & Ha & H). inversion Ha; subst wa. clear Ha.
  apply bind_done_inv in H as ([] & wb & Hb & H). inversion Hb; subst wb. clear Hb.
  apply bind_done_inv in H as ([] & wc & Hc & H).
  assert (Cc : config (updater wc) = c /\ True).
  { subst c s. destruct (persistModifyUrl (config (updater w)));
      inversion Hc; subst wc; simpl; auto. }
  destruct Cc as [Cc _]. clear Hc.
  apply bind_done_inv in H as ([] & wd & Hd & H).
  destruct (buildComponents_run wc) as (comps & wd' & Ed & Cd & Kd & Kcm & Ksm).
  rewrite Ed in Hd. inversion Hd; subst wd'. clear Hd Ed. rewrite Cc in *.
  apply bind_done_inv in H as ([] & we & He & H).
  apply sameSetup_setupWindowListeners in He as [He1 He2].
  apply bind_done_inv in H as ([] & wf & Hf & H).
  apply sameSetup_checkAndApplyPendingUpdate in Hf as [Hf1 Hf2].
  apply bind_done_inv in H as ([] & wg & Hg & H).
  apply sameSetup_startPeriodicChecks in Hg as [Hg1 Hg2].
  apply bind_done_inv in H as ([] & wh & Hh & H). inversion Hh; subst wh. clear Hh.
  apply bind_done_inv in H as ([] & wi & Hi & H). inversion Hi; subst wi. clear Hi.
  apply bind_done_inv in H as (c' & wj & Hj & H). inversion Hj; subst c' wj. clear Hj.
  assert (Hfin : updater w1 = withInitialized (updater wg)).
  { simpl in H. destruct (negb _); inversion H; subst; reflexivity. }
  rewrite Hfin. simpl. split; [congruence |].
  exists comps. split; [congruence |]. auto.
Qed.

(** X17: what a first call of [initialize] that completes has built.
    With [persistModifyUrl] the URLs and the app id of the storage file
    are laid over the configuration (an empty saved update URL, channel
    URL or app id is ignored; a saved statistics URL is taken as it is,
    the empty one included), without it the configuration is used as it
    is, and an unreadable storage file counts as an empty one. The
    channel manager and the statistics manager are built from the
    result, with the response timeout in milliseconds, and telemetry is
    enabled exactly when the statistics URL is not empty. *)
Theorem initialize_builds_from_configuration window builtin w w1 :
  initialized (updater w) = false ->
  initialize env window builtin w = (Done tt, w1) ->
  let s := if ioFails env OpLoad then emptyStore else disk w in
  let c0 := config (updater w) in
  let c := if persistModifyUrl c0 then overlay s c0 else c0 in
  config (updater w1) = c
  /\ (persistModifyUrl c0 = true ->
      updateUrl c = default (updateUrl c0) (Js.present (savedUpdateUrl s))
      /\ channelUrl c = default (channelUrl c0) (Js.present (savedChannelUrl s))
      /\ appId c = default (appId c0) (Js.present (savedAppId s))
      /\ statsUrl c = default (statsUrl c0) (savedStatsUrl s))
  /\ exists comps,
       components (updater w1) = Some comps
       /\ cmChannelUrl (channelManager comps) = channelUrl c
       /\ cmAppId (channelManager comps) = appId c
       /\ cmTimeout (channelManager comps) = (responseTimeout c * 1000)%Z
       /\ smStatsUrl (statsManager comps) = statsUrl c
       /\ smAppId (statsManager comps) = appId c
       /\ enabled (statsManager comps) = Nat.ltb 0 (String.length (statsUrl c)).
Proof.
  intros I H s c0 c.
  destruct (initialize_setup window builtin w w1 I H) as (Hc & comps & Hk & Hcm & Hsm).
  fold s c0 c in Hc, Hcm, Hsm.
  split; [exact Hc |]. split.
  - intros P. subst c. rewrite P. simpl. auto.
  - exists comps. split; [exact Hk |]. rewrite Hcm, Hsm. simpl. auto 10.
Qed.

Lemma persist_inv f w r w1 :
  persist env f w = (r, w1) ->
  updater w1 = updater w
  /\ (persistModifyUrl (config (updater w)) = false -> r = Done tt /\ w1 = w)
  /\ (persistModifyUrl (config (updater w)) = true ->
      forall c, components (updater w) = Some c ->
      store w1 = f (store w)
      /\ (r = Done tt /\ disk w1 = f (store w)
          \/ (exists e, r = Throw e) /\ disk w1 = disk w)).
Proof.
  intros H. unfold persist in H. erewrite bind_done in H; [| reflexivity].
  destruct (persistModifyUrl (config (updater w))) eqn:P; simpl in H.
  - destruct (components (updater w)) as [c |] eqn:C.
    + erewrite bind_done in H; [| reflexivity]. unfold save in H. simpl in H.
      destruct (ioFails env _); inversion H; subst; simpl;
        (split; [reflexivity |]); (split; [discriminate |]);
        intros _ c' _; (split; [reflexivity |]); eauto.
    + inversion H; subst. split; [reflexivity |]. split; [discriminate |].
      intros _ c' [=].
  - inversion H; subst. split; [reflexivity |]. split; [auto | discriminate].
Qed.

(** X18: [setChannelUrl] on an initialized updater with
    [allowModifyUrl]. However the call ends, the configuration and the
    channel manager have the new URL at once, and the statistics
    manager is as it was. Without [persistModifyUrl] the call completes
    and neither the store nor the storage file changes. With it the URL
    is put in the store, and either the save succeeds, or the call
    fails with the storage file unchanged and the new URL still in
    force. *)
Theorem setChannelUrl_effect perm url c w r w1 :
  allowModifyUrl perm = true ->
  components (updater w) = Some c ->
  setChannelUrl env perm url w = (r, w1) ->
  channelUrl (config (updater w1)) = url
  /\ (exists c1,
        components (updater w1) = Some c1
        /\ channelManager c1 = cmSetChannelUrl url (channelManager c)
        /\ statsManager c1 = statsManager c)
  /\ (persistModifyUrl (config (updater w)) = false ->
      r = Done tt /\ store w1 = store w /\ disk w1 = disk w)
  /\ (persistModifyUrl (config (updater w)) = true ->
      savedChannelUrl (store w1) = Some url
      /\ (r = Done tt /\ disk w1 = store w1
          \/ (exists e, r = Throw e) /\ disk w1 = disk w)).
Proof.
  intros A C H. unfold setChannelUrl in H. rewrite A in H. simpl in H.
  unfold setConfig in H.
  erewrite bind_done in H; [| reflexivity].
  erewrite bind_done in H; [| reflexivity].
  simpl in H. rewrite C in H.
  erewrite bind_done in H; [| reflexivity].
  apply persist_inv in H as (Hu & Hoff & Hon). simpl in Hu, Hoff, Hon.
  rewrite Hu. simpl.
  split; [reflexivity |]. split; [eauto |]. split.
  - intros P. destruct (Hoff P) as [-> ->]. auto.
  - intros P. destruct (Hon P _ eq_refl) as (Hs & Hd).
    rewrite Hs. simpl. split; [reflexivity |].
    destruct Hd as [[-> Hd] | [He Hd]]; [left | right]; auto.
Qed.

Lemma persist_saved f w w1 :
  persistModifyUrl (config (updater w)) = true ->
  persist env f w = (Done tt, w1) ->
  disk w1 = f (store w).
Proof.
  intros P H. destruct (components (updater w)) as [c |] eqn:C.
  - apply persist_inv in H as (_ & _ & Hon).
    destruct (Hon P c C) as (_ & [[_ Hd] | [[e [=]] _]]). exact Hd.
  - unfold persist in H. erewrite bind_done in H; [| reflexivity].
    rewrite P, C in H. discriminate.
Qed.

Lemma setUpdateUrl_saved perm url w w1 :
  persistModifyUrl (config (updater w)) = true ->
  setUpdateUrl env perm url w = (Done tt, w1) ->
  savedUpdateUrl (disk w1) = Some url.
Proof.
  intros P H. unfold setUpdateUrl in H.
  destruct (allowModifyUrl perm); simpl in H; [| discriminate].
  unfold setConfig in H. erewrite bind_done in H; [| reflexivity].
  apply persist_saved in H; [| exact P]. now rewrite H.
Qed.

Lemma setStatsUrl_saved perm url w w1 :
  persistModifyUrl (config (updater w)) = true ->
  Settings.setStatsUrl env perm url w = (Done tt, w1) ->
  savedStatsUrl (disk w1) = Some url.
Proof.
  intros P H. unfold Settings.setStatsUrl in H.
  destruct (allowModifyUrl perm); simpl in H; [| discriminate].
  unfold setConfig in H. erewrite bind_done in H; [| reflexivity].
  erewrite bind_done in H; [| reflexivity]. simpl in H.
  destruct (components (updater w)); [| discriminate].
  erewrite bind_done in H; [| reflexivity].
  apply persist_saved in H; [| exact P]. now rewrite H.
Qed.

Lemma setChannelUrl_saved perm url w w1 :
  persistModifyUrl (config (updater w)) = true ->
  setChannelUrl env perm url w = (Done tt, w1) ->
  savedChannelUrl (disk w1) = Some url.
Proof.
  intros P H. unfold setChannelUrl in H.
  destruct (allowModifyUrl perm); simpl in H; [| discriminate].
  unfold setConfig in H. erewrite bind_done in H; [| reflexivity].
  erewrite bind_done in H; [| reflexivity]. simpl in H.
  destruct (components (updater w)); [| discriminate].
  erewrite bind_done in H; [| reflexivity].
  apply persist_saved in H; [| exact P]. now rewrite H.
Qed.

Lemma setAppId_saved perm a w w1 :
  persistModifyUrl (config (updater w)) = true ->
  setAppId env perm a w = (Done tt, w1) ->
  savedAppId (disk w1) = Some a.
Proof.
  intros P H. unfold setAppId in H.
  destruct (allowModifyAppId perm); simpl in H; [| discriminate].
  unfold setConfig in H. erewrite bind_done in H; [| reflexivity].
  erewrite bind_done in H; [| reflexivity]. simpl in H.
  destruct (components (updater w)); [| discriminate].
  erewrite bind_done in H; [| reflexivity].
  apply persist_saved in H; [| exact P]. now rewrite H.
Qed.

(** X19: what the setters persist comes back after a restart. A
    setter has completed with [persistModifyUrl] set; the process
    starts again with a new updater, whose configuration has
    [persistModifyUrl] too, on the storage file that the setter left,
    and [initialize] completes. Then the channel manager uses the
    channel URL that was set, the configuration has the update URL
    that was set, and both managers have the app id that was set,
    unless the value was the empty string, in which case the
    configured value is used; the statistics manager uses the
    statistics URL that was set even when it is empty, and telemetry
    is then disabled. *)
Theorem persisted_settings_survive_restart perm w w1 cfg w2 window builtin w3 :
  persistModifyUrl (config (updater w)) = true ->
  updater w2 = freshUpdater cfg ->
  persistModifyUrl cfg = true ->
  disk w2 = disk w1 ->
  ioFails env OpLoad = false ->
  initialize env window builtin w2 = (Done tt, w3) ->
  exists comps,
    components (updater w3) = Some comps
    /\ (forall url,
          setUpdateUrl env perm url w = (Done tt, w1) ->
          updateUrl (config (updater w3))
          = if String.eqb url "" then updateUrl cfg else url)
    /\ (forall url,
          setChannelUrl env perm url w = (Done tt, w1) ->
          cmChannelUrl (channelManager comps)
          = if String.eqb url "" then channelUrl cfg else url)
    /\ (forall a,
          setAppId env perm a w = (Done tt, w1) ->
          cmAppId (channelManager comps) = (if String.eqb a "" then appId cfg else a)
          /\ smAppId (statsManager comps) = (if String.eqb a "" then appId cfg else a))
    /\ (forall url,
          Settings.setStatsUrl env perm url w = (Done tt, w1) ->
          smStatsUrl (statsManager comps) = url
          /\ enabled (statsManager comps) = negb (String.eqb url "")).
Proof.
  intros P Hfresh Pcfg Hdisk Hload Hinit.
  assert (I : initialized (updater w2) = false) by now rewrite Hfresh.
  destruct (initialize_setup window builtin w2 w3 I Hinit)
    as (Hc & comps & Hk & Hcm & Hsm).
  rewrite Hload, Hfresh in Hc, Hcm, Hsm. simpl in Hc, Hcm, Hsm.
  rewrite Pcfg, Hdisk in Hc, Hcm, Hsm.
  exists comps. split; [exact Hk |].
  split; [| split; [| split]].
  - intros url H. apply setUpdateUrl_saved in H; [| exact P].
    rewrite Hc. simpl. rewrite H. simpl. now destruct (String.eqb url "").
  - intros url H. apply setChannelUrl_saved in H; [| exact P].
    rewrite Hcm. simpl. rewrite H. simpl. now destruct (String.eqb url "").
  - intros a H. apply setAppId_saved in H; [| exact P].
    rewrite Hcm, Hsm. simpl. rewrite H. simpl. now destruct (String.eqb a "").
  - intros url H. apply setStatsUrl_saved in H; [| exact P].
    rewrite Hsm. simpl. rewrite H. simpl. split; [reflexivity |].
    now destruct url.
Qed.

End Setup.

(** An instance: a first start with nothing persisted; the managers
    use the URLs of the configuration. *)
Lemma initialize_builds_from_configuration_witness :
  exists w1 comps,
    Coordinator.initialize Scenario.envOffline "main" "/app/www"
      (Scenario2.restarted Scenario.world0) = (Model.Done tt, w1)
    /\ Model.components (Model.updater w1) = Some comps
    /\ Model.cmChannelUrl (Model.channelManager comps)
       = "https://plugin.capgo.app/channel_self"
    /\ Model.enabled (Model.statsManager comps) = true.
Proof.
  pose (out := Coordinator.initialize Scenario.envOffline "main" "/app/www"
                 (Scenario2.restarted Scenario.world0)).
  assert (H : out = (Model.Done tt, snd out)) by (vm_compute; reflexivity).
  destruct (initialize_builds_from_configuration Scenario.envOffline "main" "/app/www"
              (Scenario2.restarted Scenario.world0) (snd out) eq_refl H)
    as (_ & _ & comps & Hk & Hcm & _ & _ & _ & _ & Hen).
  exists (snd out), comps.
  split; [exact H |]. split; [exact Hk |]. split; [exact Hcm | exact Hen].
Defined.

(** An instance: the channel URL is changed and persisted. *)
Lemma setChannelUrl_effect_witness :
  exists w1,
    Settings.setChannelUrl Scenario.envOffline Scenario2.allowAll
      "https://channel.example/self" Scenario2.worldPersist = (Model.Done tt, w1)
    /\ Model.channelUrl (Model.config (Model.updater w1))
       = "https://channel.example/self"
    /\ Model.savedChannelUrl (Model.store w1) = Some "https://channel.example/self".
Proof.
  pose (out := Settings.setChannelUrl Scenario.envOffline Scenario2.allowAll
                 "https://channel.example/self" Scenario2.worldPersist).
  assert (H : out = (Model.Done tt, snd out)) by (vm_compute; reflexivity).
  destruct (setChannelUrl_effect Scenario.envOffline Scenario2.allowAll
              "https://channel.example/self" _ Scenario2.worldPersist
              (Model.Done tt) (snd out) eq_refl eq_refl H)
    as (Hc & _ & _ & Hon).
  destruct (Hon eq_refl) as [Hs _].
  exists (snd out). split; [exact H |]. split; [exact Hc | exact Hs].
Defined.

(** An instance: the statistics URL is set to the empty string and
    persisted; after a restart telemetry is disabled. *)
Lemma persisted_settings_survive_restart_witness :
  exists w1 w3 comps,
    Settings.setStatsUrl Scenario.envOffline Scenario2.allowAll ""
      Scenario2.worldPersist = (Model.Done tt, w1)
    /\ Coordinator.initialize Scenario.envOffline "main" "/app/www"
         (Scenario2.restarted w1) = (Model.Done tt, w3)
    /\ Model.components (Model.updater w3) = Some comps
    /\ Model.enabled (Model.statsManager comps) = false.
Proof.
  pose (out1 := Settings.setStatsUrl Scenario.envOffline Scenario2.allowAll ""
                  Scenario2.worldPersist).
  assert (H1 : out1 = (Model.Done tt, snd out1)) by (vm_compute; reflexivity).
  pose (out3 := Coordinator.initialize Scenario.envOffline "main" "/app/www"
                  (Scenario2.restarted (snd out1))).
  assert (H3 : out3 = (Model.Done tt, snd out3)) by (vm_compute; reflexivity).
  destruct (persisted_settings_survive_restart Scenario.envOffline Scenario2.allowAll
              Scenario2.worldPersist (snd out1) Scenario2.configPersist
              (Scenario2.restarted (snd out1)) "main" "/app/www" (snd out3)
              eq_refl eq_refl eq_refl eq_refl eq_refl H3)
    as (comps & Hk & _ & _ & _ & Hstats).
  destruct (Hstats "" H1) as [_ Hen].
  exists (snd out1), (snd out3), comps.
  split; [exact H1 |]. split; [exact H3 |]. split; [exact Hk | exact Hen].
Defined.

(* ===================================================================== *)
(** ** The coordinator: the update check *)
(* ===================================================================== *)

Section UpdateCheck.
Import Model Coordinator AutoUpdate Props Props2.
Local Open Scope m_scope.
Context (env : Env) (ports : Ports) (directUpdate : DirectUpdate).

(** The [catch] block of [checkForUpdates] completes. *)
Lemma logFailure_done w :
  exists w',
    (u <- gets updater ;;
     when (negb (disableJSLogging (config u)))
       (modify (setHost (addLog "[ElectronUpdater] Auto-update check failed:")))) w
    = (Done tt, w')
    /\ sameData w w'.
Proof.
  unfold bind, gets. destruct (disableJSLogging (config (updater w))); simpl;
    eexists; (split; [reflexivity | repeat split]).
Qed.

(** X20: [checkForUpdates] contains every failure: whatever the
    endpoint, the listeners, the download and the bundle manager do, the
    call never ends in a thrown error; an error of any of them is
    caught, and logged unless logging is disabled. With [autoUpdate]
    off the call does nothing at all. *)
Theorem checkForUpdates_contained fuel w r w' :
  checkForUpdates env ports directUpdate fuel w = (r, w') ->
  (forall e, r <> Throw e)
  /\ (autoUpdate (config (updater w)) = false -> r = Done tt /\ w' = w).
Proof.
  intros H. unfold checkForUpdates in H.
  erewrite bind_done in H; [| reflexivity].
  destruct (autoUpdate (config (updater w))); simpl in H.
  - split; [| discriminate]. intros e ->.
    unfold tryCatch in H.
    match type of H with context [match ?m w with _ => _ end] =>
      destruct (m w) as [[[] | e' |] w1] end.
    + discriminate.
    + destruct (logFailure_done w1) as (w2 & E & _). rewrite E in H. discriminate.
    + discriminate.
  - inversion H; subst. split; [discriminate | auto].
Qed.

Lemma currentBundle_run c w :
  components (updater w) = Some c ->
  currentBundle env w = (Done (current env (store w)), w).
Proof. intros C. unfold currentBundle, bind, gets. now rewrite C. Qed.

(** [getLatest] on an initialized updater whose update URL parses, up
    to the request. *)
Lemma getLatest_request c channel w :
  components (updater w) = Some c ->
  urlOk env (updateUrl (config (updater w))) = true ->
  getLatest env ports channel w
  = (deviceId <- getDeviceId env ;;
     tryCatch
       (post ports (updateUrl (config (updater w))))
       (fun error =>
          ret (mkLatest "" None None None None None (Some (errorMessage error))))) w.
Proof.
  intros C U. unfold getLatest.
  rewrite (bind_done _ _ _ _ _ (currentBundle_run c w C)).
  erewrite bind_done; [| reflexivity]. rewrite C.
  destruct channel; (erewrite bind_done; [| reflexivity]);
    unfold newURL; rewrite U; (erewrite bind_done; [| reflexivity]); reflexivity.
Qed.

(** X21: a failed update check is silent. On an initialized updater
    whose update URL parses, a request that fails (a rejected [fetch],
    a status that is not 2xx) makes [getLatest] answer a result with an
    empty version and the error message instead of throwing; and
    [checkForUpdates] then completes in the world the request left: no
    event, no download, no log entry. *)
Theorem failed_check_is_silent c fuel w d w0 e w1 :
  components (updater w) = Some c ->
  autoUpdate (config (updater w)) = true ->
  urlOk env (updateUrl (config (updater w))) = true ->
  getDeviceId env w = (Done d, w0) ->
  post ports (updateUrl (config (updater w))) w0 = (Throw e, w1) ->
  errorMessage e <> "no_new_version_available" ->
  getLatest env ports None w
  = (Done (mkLatest "" None None None None None (Some (errorMessage e))), w1)
  /\ checkForUpdates env ports directUpdate fuel w = (Done tt, w1).
Proof.
  intros C A U D P Hmsg.
  assert (G : getLatest env ports None w
              = (Done (mkLatest "" None None None None None (Some (errorMessage e))),
                 w1)).
  { rewrite (getLatest_request c None w C U).
    rewrite (bind_done _ _ _ _ _ D). rewrite (tryCatch_throw _ _ _ _ _ P).
    reflexivity. }
  split; [exact G |].
  unfold checkForUpdates. erewrite bind_done; [| reflexivity].
  rewrite A. simpl. apply tryCatch_done.
  rewrite (bind_done _ _ _ _ _ G). simpl.
  rewrite bool_decide_eq_false_2; [reflexivity |]. congruence.
Qed.

(** X22: an update URL that does not parse is not a failed request:
    the URL is parsed before the [try] block of [getLatest], so
    [getLatest] throws; [checkForUpdates] catches the error, sends
    nothing, and writes one log entry unless logging is disabled. *)
Theorem invalid_update_url c channel fuel w :
  components (updater w) = Some c ->
  urlOk env (updateUrl (config (updater w))) = false ->
  getLatest env ports channel w = (Throw (JsError "Invalid URL"), w)
  /\ (autoUpdate (config (updater w)) = true ->
      checkForUpdates env ports directUpdate fuel w
      = (Done tt,
         if disableJSLogging (config (updater w)) then w
         else setHost (addLog "[ElectronUpdater] Auto-update check failed:") w)).
Proof.
  intros C U.
  assert (G : forall ch, getLatest env ports ch w = (Throw (JsError "Invalid URL"), w)).
  { intros ch. unfold getLatest.
    rewrite (bind_done _ _ _ _ _ (currentBundle_run c w C)).
    erewrite bind_done; [| reflexivity]. rewrite C.
    destruct ch; (erewrite bind_done; [| reflexivity]);
      unfold newURL; rewrite U; reflexivity. }
  split; [apply G |]. intros A.
  unfold checkForUpdates. erewrite bind_done; [| reflexivity].
  rewrite A. simpl.
  erewrite tryCatch_throw; [| apply bind_throw; apply G].
  unfold bind, gets. now destruct (disableJSLogging (config (updater w))).
Qed.

(** X23: no download without need. When the endpoint answers
    [no_new_version_available], and when it announces a breaking
    version, [checkForUpdates] tells the listeners and stops: with
    listeners that leave the data alone, the files, the store, the
    storage file and the log of requests are as the request of
    [getLatest] left them. *)
Theorem no_download_without_need fuel w latest w1 r w' :
  (forall n w r w', notify ports n w = (r, w') -> sameData w w') ->
  autoUpdate (config (updater w)) = true ->
  getLatest env ports None w = (Done latest, w1) ->
  lvError latest = Some "no_new_version_available"
  \/ lvBreaking latest = Some true ->
  checkForUpdates env ports directUpdate fuel w = (r, w') ->
  sameData w1 w'.
Proof.
  intros Hn A G Hcase H.
  assert (Rrefl : forall x, sameData x x) by (intros x; repeat split).
  assert (Rtrans : forall a b c, sameData a b -> sameData b c -> sameData a c).
  { intros a b c (? & ? & ? & ? & ?) (? & ? & ? & ? & ?). repeat split; congruence. }
  assert (Kn : forall n, keeps sameData (notify ports n)).
  { intros n a r0 b E. exact (Hn n a r0 b E). }
  assert (Kc : keeps sameData (currentBundle env)).
  { unfold currentBundle, typeError. keeps_go. }
  unfold checkForUpdates in H. erewrite bind_done in H; [| reflexivity].
  rewrite A in H. cbn [negb] in H. cbv iota in H. unfold tryCatch in H.
  rewrite (bind_done _ _ _ _ _ G) in H. cbv beta in H.
  match type of H with context [match ?b w1 with _ => _ end] =>
    assert (Kb : keeps sameData b) end.
  { destruct (bool_decide _) eqn:B.
    - keeps_go.
    - destruct Hcase as [He | Hb];
        [apply bool_decide_eq_false in B; contradiction |].
      rewrite Hb. simpl. keeps_go. }
  match type of H with context [match ?b w1 with _ => _ end] =>
    destruct (b w1) as [[[] | e |] w2] eqn:E end.
  - inversion H; subst. exact (Kb _ _ _ E).
  - destruct (logFailure_done w2) as (w3 & L & S). rewrite L in H.
    inversion H; subst. exact (Rtrans _ _ _ (Kb _ _ _ E) S).
  - inversion H; subst. exact (Kb _ _ _ E).
Qed.

End UpdateCheck.

(** An instance: automatic updates are switched off. *)
Lemma checkForUpdates_contained_witness :
  exists w',
    AutoUpdate.checkForUpdates Scenario.envOffline Scenario2.portsBreaking
      AutoUpdate.DirectFalse 5 Scenario2.worldManual = (Model.Done tt, w')
    /\ w' = Scenario2.worldManual.
Proof.
  pose (out := AutoUpdate.checkForUpdates Scenario.envOffline Scenario2.portsBreaking
                 AutoUpdate.DirectFalse 5 Scenario2.worldManual).
  assert (H : out = (Model.Done tt, snd out)) by (vm_compute; reflexivity).
  destruct (checkForUpdates_contained Scenario.envOffline Scenario2.portsBreaking
              AutoUpdate.DirectFalse 5 Scenario2.worldManual _ (snd out) H)
    as [_ Hoff].
  destruct (Hoff eq_refl) as [_ Hw].
  exists (snd out). split; [exact H | exact Hw].
Defined.

(** An instance: the update endpoint cannot be reached. *)
Lemma failed_check_is_silent_witness :
  AutoUpdate.checkForUpdates Scenario.envOffline Scenario2.portsOffline
    AutoUpdate.DirectFalse 5 Scenario2.worldWindow
  = (Model.Done tt, Scenario2.worldWindow).
Proof.
  refine (proj2 (failed_check_is_silent Scenario.envOffline Scenario2.portsOffline
                   AutoUpdate.DirectFalse _ 5 Scenario2.worldWindow "device-1"
                   Scenario2.worldWindow (Model.JsError "fetch failed")
                   Scenario2.worldWindow eq_refl eq_refl eq_refl eq_refl eq_refl _)).
  simpl. discriminate.
Defined.

(** An instance: the update URL is [not a url]. *)
Lemma invalid_update_url_witness :
  AutoUpdate.getLatest Scenario.envOffline Scenario2.portsOffline None
    Scenario2.worldBadUrl
  = (Model.Throw (Model.JsError "Invalid URL"), Scenario2.worldBadUrl).
Proof.
  exact (proj1 (invalid_update_url Scenario.envOffline Scenario2.portsOffline
                  AutoUpdate.DirectFalse _ None 5 Scenario2.worldBadUrl
                  eq_refl eq_refl)).
Defined.

(** An instance: the endpoint announces the breaking version 2.0.0;
    no request for the bundle is sent. *)
Lemma no_download_without_need_witness :
  exists w',
    AutoUpdate.checkForUpdates Scenario.envOffline Scenario2.portsBreaking
      AutoUpdate.DirectFalse 5 Scenario2.worldWindow = (Model.Done tt, w')
    /\ Model.net w' = []
    /\ Model.store w' = Scenario.store0.
Proof.
  pose (out := AutoUpdate.checkForUpdates Scenario.envOffline Scenario2.portsBreaking
                 AutoUpdate.DirectFalse 5 Scenario2.worldWindow).
  assert (H : out = (Model.Done tt, snd out)) by (vm_compute; reflexivity).
  assert (Hn : forall n w r w',
             AutoUpdate.notify Scenario2.portsBreaking n w = (r, w') ->
             Props2.sameData w w').
  { intros n w r w' E. inversion E; subst. repeat split. }
  destruct (no_download_without_need Scenario.envOffline Scenario2.portsBreaking
              AutoUpdate.DirectFalse 5 Scenario2.worldWindow Scenario2.latestBreaking
              Scenario2.worldWindow _ (snd out) Hn eq_refl eq_refl
              (or_intror eq_refl) H)
    as (_ & _ & Hs & _ & Hnet).
  exists (snd out). split; [exact H |]. split; [exact Hnet | exact Hs].
Defined.

(** An instance: a restart with the bundle [b7] waiting, the delay
    conditions satisfied. *)
Lemma pending_update_gate_witness :
  exists w',
    Coordinator.checkAndApplyPendingUpdate Scenario.envOffline Scenario2.worldWaiting
    = (Model.Done tt, w')
    /\ Model.currentBundleId (Model.store w') = Some "b7"
    /\ Model.emitted w' = [Model.EvAppReloaded; Model.EvAppReloaded].
Proof.
  pose (out := Coordinator.checkAndApplyPendingUpdate Scenario.envOffline
                 Scenario2.worldWaiting).
  assert (H : out = (Model.Done tt, snd out)) by (vm_compute; reflexivity).
  destruct (pending_update_gate Scenario.envOffline Scenario2.worldWaiting _ (snd out) H)
    as [_ Happly].
  destruct (Happly _ _ _ eq_refl eq_refl eq_refl) as (_ & _ & Hok).
  destruct (Hok eq_refl) as [_ Hdone].
  destruct (Hdone "main" eq_refl eq_refl eq_refl) as (_ & Hs & _ & He & _).
  exists (snd out). split; [exact H |].
  split; [rewrite Hs; reflexivity | exact He].
Defined.

(* ===================================================================== *)
(** ** The key id *)
(* ===================================================================== *)

Section KeyIdFacts.
Import KeyId Props2.

Lemma run_noDash s : hasDash s = false -> run s = String.length s.
Proof.
  induction s as [| c s IH]; simpl; [reflexivity |].
  intros H. apply orb_false_iff in H as [Hc Hs]. rewrite Hc. now rewrite IH.
Qed.

Lemma run_app l r : hasDash l = false -> run (l +:+ String "-" r) = String.length l.
Proof.
  induction l as [| c l IH]; simpl; [reflexivity |].
  intros H. apply orb_false_iff in H as [Hc Hs]. rewrite Hc. now rewrite IH.
Qed.

Lemma drop_app l r : drop (String.length l) (l +:+ r) = r.
Proof. induction l as [| c l IH]; simpl; [now destruct r | exact IH]. Qed.

Lemma stripFrom_skip marker x r :
  stripFrom marker (String.length x) (x +:+ r) = stripFrom marker 0 r.
Proof.
  induction x as [| c x IH]; simpl; [| exact IH].
  destruct r; reflexivity.
Qed.

Lemma prefix_noDash m c r :
  isDash c = false -> String.prefix (String "-" m) (String c r) = false.
Proof.
  intros H.
  change (String.prefix (String "-" m) (String c r))
    with (if ascii_dec "-" c then String.prefix m r else false).
  destruct (ascii_dec "-" c) as [<- | _]; [discriminate | reflexivity].
Qed.

(** A marker that begins with a dash matches nowhere in a string
    without dashes. *)
Lemma stripFrom_noDash m l r :
  hasDash l = false ->
  stripFrom (String "-" m) 0 (l +:+ r) = l +:+ stripFrom (String "-" m) 0 r.
Proof.
  induction l as [| c l IH]; simpl; [reflexivity |].
  intros H. apply orb_false_iff in H as [Hc Hs].
  unfold armorAt. rewrite (prefix_noDash m c _ Hc). now rewrite IH.
Qed.

Lemma stripFrom_noDash_all m l :
  hasDash l = false -> stripFrom (String "-" m) 0 l = l.
Proof.
  induction l as [| c l IH]; simpl; [reflexivity |].
  intros H. apply orb_false_iff in H as [Hc Hs].
  unfold armorAt. rewrite (prefix_noDash m c _ Hc). now rewrite IH.
Qed.

Lemma armorAt_match marker label rest :
  label <> "" -> hasDash label = false ->
  armorAt marker (marker +:+ label +:+ "-----" +:+ rest)
  = Some (String.length marker + String.length label + 5).
Proof.
  intros Hne Hd. unfold armorAt.
  assert (P : forall a b, String.prefix a (a +:+ b) = true).
  { induction a as [| c a IH]; intros b; [now destruct b |].
    change (String.prefix (String c a) (String c a +:+ b))
      with (if ascii_dec c c then String.prefix a (a +:+ b) else false).
    destruct (ascii_dec c c); [apply IH | contradiction]. }
  rewrite P. rewrite drop_app. cbv zeta.
  change ("-----" +:+ rest) with (String "-" ("----" +:+ rest)).
  rewrite (run_app label _ Hd).
  change (String "-" ("----" +:+ rest)) with ("-----" +:+ rest).
  rewrite drop_app. rewrite P.
  destruct label; [contradiction |]. reflexivity.
Qed.

Lemma append_assoc_s (a b c : string) : (a +:+ b) +:+ c = a +:+ b +:+ c.
Proof.
  induction a as [| x a IH]; [reflexivity |].
  change (String x ((a +:+ b) +:+ c) = String x (a +:+ b +:+ c)). now rewrite IH.
Qed.

Lemma length_append_s (a b : string) :
  String.length (a +:+ b) = String.length a + String.length b.
Proof.
  induction a as [| x a IH]; [reflexivity |].
  change (S (String.length (a +:+ b)) = S (String.length a + String.length b)).
  now rewrite IH.
Qed.

(** An armor line behind a stretch without dashes is dropped, and the
    scan goes on behind it. *)
Lemma stripFrom_block m pre label rest :
  label <> "" -> hasDash label = false -> hasDash pre = false ->
  stripFrom (String "-" m) 0 (pre +:+ String "-" m +:+ label +:+ "-----" +:+ rest)
  = pre +:+ stripFrom (String "-" m) 0 rest.
Proof.
  intros Hne Hl Hp. rewrite (stripFrom_noDash m pre _ Hp). f_equal.
  pose proof (armorAt_match (String "-" m) label rest Hne Hl) as A.
  change (String "-" m +:+ label +:+ "-----" +:+ rest)
    with (String "-" (m +:+ label +:+ "-----" +:+ rest)) in *.
  cbn [stripFrom]. rewrite A.
  replace (String.length (String "-" m) + String.length label + 5 - 1)
    with (String.length (m +:+ label +:+ "-----")).
  2:{ rewrite !length_append_s. simpl. lia. }
  rewrite <- (stripFrom_skip (String "-" m) (m +:+ label +:+ "-----") rest).
  now rewrite !append_assoc_s.
Qed.

Lemma hasDash_drop n : forall s, hasDash s = false -> hasDash (drop n s) = false.
Proof.
  induction n as [| n IH]; intros [| c s] H; simpl; auto.
  apply IH. simpl in H. now apply orb_false_iff in H as [_ H].
Qed.

Lemma drop_all s : drop (String.length s) s = "".
Proof. induction s as [| c s IH]; simpl; auto. Qed.

(** No match where no dash follows the marker. *)
Lemma armorAt_noDash_after marker s :
  hasDash (drop (String.length marker) s) = false -> armorAt marker s = None.
Proof.
  intros H. unfold armorAt. destruct (String.prefix marker s); [| reflexivity].
  cbv zeta. rewrite (run_noDash _ H), drop_all.
  now rewrite andb_false_r.
Qed.

Lemma stripFrom_keep marker c rest :
  armorAt marker (String c rest) = None ->
  stripFrom marker 0 (String c rest) = String c (stripFrom marker 0 rest).
Proof. intros H. cbn [stripFrom]. now rewrite H. Qed.

(** Nothing is dropped from a string without a dash behind the
    first code units, as many as the marker has. *)
Lemma stripFrom_tail marker : forall s,
  (forall k, hasDash (drop (String.length marker + k) s) = false) ->
  stripFrom marker 0 s = s.
Proof.
  induction s as [| c rest IH]; intros H; [reflexivity |].
  rewrite stripFrom_keep.
  - f_equal. apply IH. intros k. specialize (H (S k)).
    now rewrite Nat.add_succ_r in H.
  - apply armorAt_noDash_after. specialize (H 0). now rewrite Nat.add_0_r in H.
Qed.

(** The line [-----END label-----] has no match of the [BEGIN] line in
    it, whatever follows without a dash. *)
Lemma begin_not_in_end label trailer :
  hasDash label = false -> hasDash trailer = false ->
  stripFrom "-----BEGIN " 0 ("-----END " +:+ label +:+ "-----" +:+ trailer)
  = "-----END " +:+ label +:+ "-----" +:+ trailer.
Proof.
  intros Hl Ht.
  change ("-----END " +:+ label +:+ "-----" +:+ trailer)
    with (String "-" (String "-" (String "-" (String "-" (String "-"
           (String "E" (String "N" (String "D" (String " "
              (label +:+ "-----" +:+ trailer)))))))))).
  do 9 (rewrite stripFrom_keep; [| reflexivity]).
  rewrite (stripFrom_noDash "----BEGIN " label _ Hl).
  rewrite (stripFrom_tail "-----BEGIN " ("-----" +:+ trailer)); [reflexivity |].
  intros k. change (hasDash (drop (6 + k) trailer) = false).
  now apply hasDash_drop.
Qed.

Lemma removeSpaces_clean s : hasSpace (removeSpaces s) = false.
Proof.
  induction s as [| c s IH]; simpl; [reflexivity |].
  destruct (isSpace c) eqn:E; [exact IH |]. simpl. now rewrite E.
Qed.

Lemma take_clean n : forall s, hasSpace s = false -> hasSpace (take n s) = false.
Proof.
  induction n as [| n IH]; intros [| c s] H; simpl; auto.
  simpl in H. apply orb_false_iff in H as [Hc Hs]. now rewrite Hc, IH.
Qed.

Lemma take_length n : forall s,
  String.length (take n s) = Nat.min n (String.length s).
Proof.
  induction n as [| n IH]; intros [| c s]; simpl; auto.
Qed.

(** X24: a key id has between one and twenty code units and no white
    space. *)
Theorem keyId_bounds publicKey keyId :
  generateKeyId publicKey = Some keyId ->
  1 <= String.length keyId <= KEY_ID_LENGTH /\ hasSpace keyId = false.
Proof.
  unfold generateKeyId. destruct (Js.present publicKey) as [key |]; [| discriminate].
  cbv zeta.
  set (cleaned := removeSpaces (stripArmor "-----END " (stripArmor "-----BEGIN " key))).
  destruct (Nat.eqb (String.length cleaned) 0) eqn:E; [discriminate |].
  intros H. assert (K : keyId = take KEY_ID_LENGTH cleaned) by congruence.
  rewrite K. clear H K. apply Nat.eqb_neq in E. split.
  - rewrite take_length. unfold KEY_ID_LENGTH. lia.
  - apply take_clean, removeSpaces_clean.
Qed.

(** X25: the key id of a PEM block is the beginning of its body. For a
    key made of the line [-----BEGIN label-----], a body and the line
    [-----END label-----], with a trailer behind it, where the label is
    not empty and neither the label, the body nor the trailer has a
    dash, the key id is made of the first twenty code units of the body
    and the trailer that are not white space; there is none when there
    are no such code units. *)
Theorem keyId_of_pem label body trailer :
  label <> "" ->
  hasDash label = false -> hasDash body = false -> hasDash trailer = false ->
  let cleaned := removeSpaces (body +:+ trailer) in
  generateKeyId (Some (pem label body trailer))
  = if Nat.eqb (String.length cleaned) 0 then None
    else Some (take KEY_ID_LENGTH cleaned).
Proof.
  intros Hne Hl Hb Ht cleaned. unfold generateKeyId.
  change (Js.present (Some (pem label body trailer)))
    with (Some (pem label body trailer)).
  cbv zeta. unfold stripArmor, pem.
  pose proof (stripFrom_block "----BEGIN " "" label
                (body +:+ "-----END " +:+ label +:+ "-----" +:+ trailer)
                Hne Hl eq_refl) as B.
  change ("" +:+ "-----BEGIN " +:+ label +:+ "-----" +:+ body +:+ "-----END "
            +:+ label +:+ "-----" +:+ trailer)
    with ("-----BEGIN " +:+ label +:+ "-----" +:+ body +:+ "-----END "
            +:+ label +:+ "-----" +:+ trailer) in B.
  rewrite B. clear B.
  change ("" +:+ stripFrom "-----BEGIN " 0
                   (body +:+ "-----END " +:+ label +:+ "-----" +:+ trailer))
    with (stripFrom "-----BEGIN " 0
            (body +:+ "-----END " +:+ label +:+ "-----" +:+ trailer)).
  rewrite (stripFrom_noDash "----BEGIN " body _ Hb).
  rewrite (begin_not_in_end label trailer Hl Ht).
  pose proof (stripFrom_block "----END " body label trailer Hne Hl Hb) as E.
  rewrite E. clear E.
  rewrite (stripFrom_noDash_all "----END " trailer Ht).
  reflexivity.
Qed.

End KeyIdFacts.

(** An instance: a key without armor, with a space in it. *)
Lemma keyId_bounds_witness :
  KeyId.generateKeyId (Some "abc def") = Some "abcdef"
  /\ 1 <= String.length "abcdef" <= 20.
Proof.
  assert (H : KeyId.generateKeyId (Some "abc def") = Some "abcdef")
    by (vm_compute; reflexivity).
  split; [exact H |]. exact (proj1 (keyId_bounds (Some "abc def") "abcdef" H)).
Defined.

(** An instance: a public key of two lines. *)
Lemma keyId_of_pem_witness :
  KeyId.generateKeyId
    (Some (Props2.pem "PUBLIC KEY" Scenario2.pemBody Scenario2.newline))
  = Some "MIIBIjANBgkqhkiG9w0B".
Proof.
  rewrite (keyId_of_pem "PUBLIC KEY" Scenario2.pemBody Scenario2.newline);
    [reflexivity | discriminate | reflexivity | reflexivity | reflexivity].
Defined.
